(* Verification development for tradedesk_dukascopy/export.py:
   hour enumeration, bi5 tick decoding and format probing, the hour URLs,
   the cached downloader with retry/backoff, the in-order drain of the
   export engine, per-hour OHLCV resampling and the final cross-hour merge;
   and for metadata.py, parallel.py and cli.main: the metadata sidecar, the
   export workers and the exit code of a multi-symbol run. *)

From Stdlib Require Import ZArith Lia Bool Ascii Init.Byte.
From Stdlib Require Import PrimFloat FloatOps Uint63 Sorted.
From stdpp Require Import base gmap strings list pretty.

Open Scope Z_scope.
#[local] Set Warnings "-inexact-float".

(* ------------------------------------------------------------------ *)
(** * Python exceptions and the error monad *)

Inductive PyErr :=
| ValueError
| LZMAError
| EOFError
| OverflowError
| RuntimeError.

Inductive res (A : Type) :=
| Ok (a : A)
| Err (e : PyErr).
Arguments Ok {A} a.
Arguments Err {A} e.

Definition res_bind {A B} (r : res A) (f : A -> res B) : res B :=
  match r with Ok a => f a | Err e => Err e end.

Notation "'let!' x := r 'in' f" := (res_bind r (fun x => f))
  (at level 200, x name, r at level 100, f at level 200).

Definition res_map {A B} (f : A -> B) (r : res A) : res B :=
  match r with Ok a => Ok (f a) | Err e => Err e end.

(* ------------------------------------------------------------------ *)
(** * datetime / timedelta

    A datetime is the number of microseconds since 0001-01-01T00:00 (UTC),
    Python's resolution.  Python's datetime covers years 1..9999:
    [datetime.max] is ordinal 3652059 (9999-12-31) at 23:59:59.999999.
    Adding a timedelta that leaves this range raises OverflowError. *)

Definition USEC_PER_MS : Z := 1000.
Definition HOUR : Z := 3600 * 1000000.
Definition DAY : Z := 24 * HOUR.
Definition DT_MAX : Z := 3652059 * DAY - 1.

Definition dt_add (t d : Z) : res Z :=
  if (0 <=? t + d) && (t + d <=? DT_MAX) then Ok (t + d) else Err OverflowError.

(** [dt.replace(minute=0, second=0, microsecond=0)] *)
Definition replace_to_hour (t : Z) : Z := t - t mod HOUR.

(** [dt.replace(hour=0, minute=0, second=0, microsecond=0)] *)
Definition replace_to_day (t : Z) : Z := t - t mod DAY.

(* ------------------------------------------------------------------ *)
(** * _iter_hours *)

(** The generator loop [while cur < end_exclusive: yield cur; cur += 1h],
    fully iterated (the caller does [list(_iter_hours(...))]).  [fuel]
    bounds the number of iterations; [iter_hours_fuel] below is always
    enough. *)
Fixpoint iter_hours_loop (fuel : nat) (cur end_exclusive : Z) : res (list Z) :=
  match fuel with
  | O => Ok []
  | S fuel' =>
      if cur <? end_exclusive then
        let! nxt := dt_add cur HOUR in
        res_map (cons cur) (iter_hours_loop fuel' nxt end_exclusive)
      else Ok []
  end.

Definition iter_hours_fuel (cur end_exclusive : Z) : nat :=
  S (Z.to_nat ((end_exclusive - cur) / HOUR + 1)).

Definition _iter_hours (start end_exclusive : Z) : res (list Z) :=
  let cur := replace_to_hour start in
  let! cur := (if cur <? start then dt_add cur HOUR else Ok cur) in
  iter_hours_loop (iter_hours_fuel cur end_exclusive) cur end_exclusive.

(** The hour sequence as the specification describes it: start rounded up
    to the next hour boundary, then one hour apart, [n] of them. *)
Definition ceil_hour (t : Z) : Z := ((t + HOUR - 1) / HOUR) * HOUR.

Definition hour_seq (r : Z) (n : nat) : list Z :=
  map (fun i => r + Z.of_nat i * HOUR) (seq 0 n).

Definition hour_count (r end_exclusive : Z) : nat :=
  Z.to_nat ((end_exclusive - r + HOUR - 1) / HOUR).

(** The last hour boundary datetime can represent: 9999-12-31T23:00. *)
Definition LAST_HOUR : Z := DT_MAX + 1 - HOUR.

(* ------------------------------------------------------------------ *)
(** * _symbol_normalise

    A Python [str] is a sequence of code points.  The character classes and
    the case mapping come from the interpreter's Unicode database:
    [ud_isspace] is [Py_UNICODE_ISSPACE] (what [str.isspace] and
    [str.strip()] test), [ud_isalnum] is [ch.isalnum()] on a one-character
    string, and [ud_upper] is the full upper-case mapping of one code point
    ([_PyUnicode_ToUpperFull], one to three code points).  [str.upper()]
    maps each code point on its own and concatenates the results. *)

Definition pystr : Type := list Z.

Record UnicodeDB := mkUnicodeDB {
  ud_isspace : Z -> bool;
  ud_isalnum : Z -> bool;
  ud_upper : Z -> list Z
}.

(** A string literal of the examples, as code points. *)
Definition pystr_of (s : string) : pystr :=
  map (fun c => Z.of_nat (nat_of_ascii c)) (String.list_ascii_of_string s).

Section Unicode.
Context (db : UnicodeDB).

Fixpoint lstrip (s : pystr) : pystr :=
  match s with
  | c :: s' => if ud_isspace db c then lstrip s' else s
  | [] => []
  end.

(** [str.strip()] *)
Definition py_strip (s : pystr) : pystr :=
  rev (lstrip (rev (lstrip s))).

(** [str.upper()] *)
Definition py_upper (s : pystr) : pystr := flat_map (ud_upper db) s.

Definition _symbol_normalise (s : pystr) : res pystr :=
  let raw := py_strip s in
  match raw with
  | [] => Err ValueError
  | _ =>
      let cleaned := List.filter (ud_isalnum db) raw in
      Ok (py_upper cleaned)
  end.

End Unicode.

(** The database on U+0000..U+007F, the range the examples use:
    [\t \n \v \f \r], U+001C..U+001F and the space are whitespace, digits
    and letters are alphanumeric, [a]..[z] map to [A]..[Z].  Above U+007F
    it classifies nothing as space or alphanumeric and maps each code point
    to itself, so it stands for Python's database only on ASCII input. *)
Definition ascii_db : UnicodeDB :=
  mkUnicodeDB
    (fun c => ((9 <=? c) && (c <=? 13)) || ((28 <=? c) && (c <=? 32)))
    (fun c => ((48 <=? c) && (c <=? 57)) || ((65 <=? c) && (c <=? 90))
              || ((97 <=? c) && (c <=? 122)))
    (fun c => if (97 <=? c) && (c <=? 122) then [c - 32] else [c]).

(* ------------------------------------------------------------------ *)
(** * Bytes, big-endian fields and IEEE-754 values (struct ">i f f f f") *)

Definition bytes := list byte.

Definition byte_at (b : bytes) (i : nat) : Z :=
  match nth_error b i with Some x => Z.of_N (Byte.to_N x) | None => 0 end.

(** Big-endian unsigned 32-bit field at offset [i]. *)
Definition u32_be (b : bytes) (i : nat) : Z :=
  byte_at b i * 2^24 + byte_at b (i + 1) * 2^16
  + byte_at b (i + 2) * 2^8 + byte_at b (i + 3).

(** struct format [i]: two's-complement reading of the 32 bits. *)
Definition int32_of_u32 (u : Z) : Z := if u <? 2^31 then u else u - 2^32.

(** struct format [f]: the IEEE-754 binary32 value of the 32 bits, widened
    (exactly) to a Python float (binary64). *)
Definition f32_of_bits (u : Z) : float :=
  let sgn := Z.testbit u 31 in
  let e := Z.land (Z.shiftr u 23) 255 in
  let m := Z.land u (2^23 - 1) in
  let mag :=
    if e =? 255 then (if m =? 0 then infinity else nan)
    else if e =? 0 then FloatOps.Z.ldexp (of_uint63 (Uint63.of_Z m)) (-149)
    else FloatOps.Z.ldexp (of_uint63 (Uint63.of_Z (m + 2^23))) (e - 150) in
  if sgn then PrimFloat.opp mag else mag.

(** [float(i)] for a 32-bit integer (exact in binary64). *)
Definition float_of_int32 (z : Z) : float :=
  if z <? 0 then PrimFloat.opp (of_uint63 (Uint63.of_Z (- z)))
  else of_uint63 (Uint63.of_Z z).

(** Python's [1e-6]. *)
Definition PROBE_TINY : float := 0x1.0c6f7a0b5ed8dp-20%float.

(** [Tick]; its number type is a parameter so that the resampler below can
    be stated over any arithmetic.  Decoded ticks carry Python floats. *)
Record TickOf (F : Type) := mkTick {
  ts : Z;
  bid : F;
  ask : F;
  bid_vol : F;
  ask_vol : F
}.
Arguments mkTick {F} ts bid ask bid_vol ask_vol.
Arguments ts {F} t.
Arguments bid {F} t.
Arguments ask {F} t.
Arguments bid_vol {F} t.
Arguments ask_vol {F} t.

Definition Tick : Type := TickOf float.

Fixpoint res_mapM {A B} (f : A -> res B) (l : list A) : res (list B) :=
  match l with
  | [] => Ok []
  | x :: l' => let! y := f x in res_map (cons y) (res_mapM f l')
  end.

(* ------------------------------------------------------------------ *)
(** * _decode_ticks

    [lzma_decompress] is [lzma.decompress] (the LZMA codec is a library, not
    part of this repository): it returns the decompressed bytes or raises
    (LZMAError).  [price_divisor = None] is an unset divisor. *)

(** Record [k] in layout [">i f f f f"]: ms, ask, bid, ask_volume, bid_volume. *)
Definition decode_float_record (hour_start : Z) (raw : bytes) (k : nat) : res Tick :=
  let i := (20 * k)%nat in
  let ms := int32_of_u32 (u32_be raw i) in
  let ask := f32_of_bits (u32_be raw (i + 4)) in
  let bid := f32_of_bits (u32_be raw (i + 8)) in
  let ask_vol := f32_of_bits (u32_be raw (i + 12)) in
  let bid_vol := f32_of_bits (u32_be raw (i + 16)) in
  let! t := dt_add hour_start (ms * USEC_PER_MS) in
  Ok (mkTick t bid ask bid_vol ask_vol).

(** [float(price_divisor or 1.0)]: None, 0.0 and -0.0 are falsy. *)
Definition effective_divisor (price_divisor : option float) : float :=
  match price_divisor with
  | None => 1%float
  | Some d => if PrimFloat.eqb d 0%float then 1%float else d
  end.

(** Record [k] in layout [">i i i f f"]: ms, ask_i, bid_i, ask_volume, bid_volume. *)
Definition decode_int_record (div : float) (hour_start : Z) (raw : bytes) (k : nat)
  : res Tick :=
  let i := (20 * k)%nat in
  let ms := int32_of_u32 (u32_be raw i) in
  let ask_i := int32_of_u32 (u32_be raw (i + 4)) in
  let bid_i := int32_of_u32 (u32_be raw (i + 8)) in
  let ask_vol := f32_of_bits (u32_be raw (i + 12)) in
  let bid_vol := f32_of_bits (u32_be raw (i + 16)) in
  let! t := dt_add hour_start (ms * USEC_PER_MS) in
  Ok (mkTick t (PrimFloat.div (float_of_int32 bid_i) div)
             (PrimFloat.div (float_of_int32 ask_i) div) bid_vol ask_vol).

Definition _decode_ticks (lzma_decompress : bytes -> res bytes) (hour_start : Z)
    (compressed : bytes) (price_format : string) (price_divisor : option float)
  : res (list Tick) :=
  let! raw := lzma_decompress compressed in
  if negb (Nat.eqb (length raw mod 20) 0) then Err ValueError
  else if String.eqb price_format "float" then
    res_mapM (decode_float_record hour_start raw) (seq 0 (length raw / 20))
  else if String.eqb price_format "int" then
    let div := effective_divisor price_divisor in
    res_mapM (decode_int_record div hour_start raw) (seq 0 (length raw / 20))
  else Err ValueError.

(* ------------------------------------------------------------------ *)
(** * _probe_price_format

    [lzma_read20] is [lzma.open(io.BytesIO(compressed), "rb").read(20)]: at
    most 20 decompressed bytes, or EOFError (stream ended early) or
    LZMAError (not a valid stream). *)

Definition _probe_price_format (lzma_read20 : bytes -> res bytes) (compressed : bytes)
  : res string :=
  match lzma_read20 compressed with
  | Err EOFError => Err ValueError
  | Err e => Err e
  | Ok first =>
      if (length first <? 20)%nat then Err ValueError
      else
        let ask_f := f32_of_bits (u32_be first 4) in
        let bid_f := f32_of_bits (u32_be first 8) in
        if negb (is_finite ask_f) || negb (is_finite bid_f) then Ok "int"
        else if PrimFloat.ltb (PrimFloat.abs ask_f) PROBE_TINY
                && PrimFloat.ltb (PrimFloat.abs bid_f) PROBE_TINY then Ok "int"
        else Ok "float"
  end.

(** Test encoders: the big-endian bytes of a 32-bit value. *)
Definition be32 (z : Z) : bytes :=
  map (fun k => match Byte.of_N (Z.to_N ((z / 2 ^ (8 * k)) mod 256)) with
                | Some b => b | None => x00 end) [3; 2; 1; 0].

(* ------------------------------------------------------------------ *)
(** * _download_bi5

    The world the downloader acts on: the cache directory (path to file
    contents; a zero-byte file is [Some []], an absent file is [None]), the
    responses the network will give, in order, and the trace of effects the
    function performs.  Delays are in milliseconds: the schedule 0.5s, 1.0s,
    2.0s, 4.0s is exact in both floats and integers. *)

Inductive Response :=
| HTTPResponse (status_code : Z) (content : bytes)
| TransportError.              (* connection error, timeout, ... *)

Inductive Event :=
| EvGet (url : string)
| EvSleep (delay_ms : Z)
| EvTouch (path : string)
| EvWrite (path : string) (data : bytes)
| EvReplace (src dst : string).

Record World := mkWorld {
  cache : gmap string bytes;
  net : list Response;
  trace : list Event
}.

Definition RETRY_BASE_DELAY : Z := 500.
Definition RETRY_MAX_DELAY : Z := 4000.
Definition RETRY_BACKOFF_FACTOR : Z := 2.
Definition MIN_PAYLOAD : nat := 64.

Definition log_event (ev : Event) (w : World) : World :=
  mkWorld (cache w) (net w) (trace w ++ [ev]).

(** [_SESSION.get(url)]: the next response (an exhausted network answers
    with a transport error). *)
Definition http_get (url : string) (w : World) : Response * World :=
  match net w with
  | r :: rest => (r, mkWorld (cache w) rest (trace w ++ [EvGet url]))
  | [] => (TransportError, mkWorld (cache w) [] (trace w ++ [EvGet url]))
  end.

Definition time_sleep (d : Z) (w : World) : World := log_event (EvSleep d) w.

(** [path.touch(exist_ok=True)]: creates an empty file if absent. *)
Definition path_touch (p : string) (w : World) : World :=
  let c := match cache w !! p with Some _ => cache w | None => <[p := []]> (cache w) end in
  mkWorld c (net w) (trace w ++ [EvTouch p]).

Definition path_write_bytes (p : string) (d : bytes) (w : World) : World :=
  mkWorld (<[p := d]> (cache w)) (net w) (trace w ++ [EvWrite p d]).

(** [src.replace(dst)] *)
Definition path_replace (src dst : string) (w : World) : World :=
  let c := match cache w !! src with
           | Some d => <[dst := d]> (delete src (cache w))
           | None => cache w
           end in
  mkWorld c (net w) (trace w ++ [EvReplace src dst]).

(** [cache_path.with_suffix(cache_path.suffix + ".tmp")] *)
Definition tmp_path (p : string) : string := String.append p ".tmp".

(** [r.raise_for_status()] raises for 4xx and 5xx codes. *)
Definition raises_for_status (code : Z) : bool := (400 <=? code) && (code <? 600).

(** The handling of a successful body. *)
Definition store_body (cache_path : option string) (data : bytes) (w : World)
  : option bytes * World :=
  if Nat.eqb (length data) 0 then
    (Some [], match cache_path with Some p => path_touch p w | None => w end)
  else if (length data <? MIN_PAYLOAD)%nat then
    (Some [], match cache_path with Some p => path_touch p w | None => w end)
  else
    (Some data,
     match cache_path with
     | Some p => path_replace (tmp_path p) p (path_write_bytes (tmp_path p) data w)
     | None => w
     end).

(** The retry loop [for attempt in range(1, retries + 1)], [left] being the
    number of attempts still to make ([attempt < retries] iff [left > 1]). *)
Fixpoint download_loop (left : nat) (delay : Z) (url : string)
    (cache_path : option string) (w : World) : option bytes * World :=
  match left with
  | O => (None, w)
  | S left' =>
      let '(r, w1) := http_get url w in
      let retry :=
        match left' with
        | O => (None, w1)
        | S _ => download_loop left'
                   (Z.min (delay * RETRY_BACKOFF_FACTOR) RETRY_MAX_DELAY)
                   url cache_path (time_sleep delay w1)
        end in
      match r with
      | HTTPResponse code data =>
          if code =? 404 then (None, w1)
          else if raises_for_status code then retry
          else store_body cache_path data w1
      | TransportError => retry
      end
  end.

Definition _download_bi5 (url : string) (cache_path : option string) (retries : nat)
    (w : World) : option bytes * World :=
  match cache_path with
  | Some p =>
      match cache w !! p with
      | Some c => (Some c, w)
      | None => download_loop retries RETRY_BASE_DELAY url cache_path w
      end
  | None => download_loop retries RETRY_BASE_DELAY url cache_path w
  end.

(** The backoff schedule as the specification states it: 0.5s doubling
    each attempt, capped at 4s. *)
Definition backoff_delay (i : nat) : Z := Z.min (500 * 2 ^ Z.of_nat i) 4000.

Definition retry_prefix (url : string) (i j : nat) : list Event :=
  flat_map (fun k => [EvGet url; EvSleep (backoff_delay k)]) (seq i j).

Definition cache_event (ev : Event) : Prop :=
  match ev with EvTouch _ | EvWrite _ _ | EvReplace _ _ => True | _ => False end.

Definition failed_response (r : Response) : Prop :=
  match r with
  | TransportError => True
  | HTTPResponse code _ => code <> 404 /\ raises_for_status code = true
  end.

(* ------------------------------------------------------------------ *)
(** * _ticks_to_candles

    [px.resample(rule).ohlc()] and [vol.resample(rule).sum()], then
    [dropna(subset=["open", "high", "low", "close"])].  The rule is taken as
    its width in microseconds; bins are [origin + k * width] with pandas'
    default origin "start_day", midnight of the day of the earliest tick.
    The grouper first puts the rows in timestamp order with a stable sort
    when the index is not monotonic; then cython's [group_ohlc] and
    [group_sum] run over the rows of each bin in that order, skipping NaN
    values, [group_sum] with Kahan compensation.  A bin without a non-NaN
    price (among them the empty bins between occupied ones) has a NaN open
    and is dropped.  The arithmetic is that of a [PriceArith] instance;
    [float_arith] is IEEE binary64, Python's float. *)

Class PriceArith (P : Type) := {
  padd : P -> P -> P;       (* a + b *)
  psub : P -> P -> P;       (* a - b *)
  phalf : P -> P;           (* x / 2.0 *)
  plt : P -> P -> bool;     (* a < b *)
  pisnan : P -> bool;       (* _treat_as_na: val != val *)
  pzero : P                 (* 0.0 *)
}.

#[global] Instance float_arith : PriceArith float := {
  padd := PrimFloat.add;
  psub := PrimFloat.sub;
  phalf := fun x => PrimFloat.div x 2%float;
  plt := PrimFloat.ltb;
  pisnan := fun x => negb (PrimFloat.eqb x x);
  pzero := 0%float
}.

Record Bar (P : Type) := mkBar {
  open_ : P;
  high : P;
  low : P;
  close : P;
  volume : P
}.
Arguments mkBar {P} open_ high low close volume.
Arguments open_ {P} b.
Arguments high {P} b.
Arguments low {P} b.
Arguments close {P} b.
Arguments volume {P} b.

(** A frame: its columns and its rows, indexed by bucket start. *)
Definition Frame (P : Type) : Type := list string * list (Z * Bar P).

Definition CANDLE_COLUMNS : list string := ["open"; "high"; "low"; "close"; "volume"].

Section Resample.
Context {P : Type} `{PriceArith P}.

(** Cython's [max(a, v)] and [min(a, v)] on doubles:
    [v if v > a else a] and [v if v < a else a]. *)
Definition pmax (a v : P) : P := if plt a v then v else a.
Definition pmin (a v : P) : P := if plt v a then v else a.

(** The (price, volume) series per [price_side]. *)
Definition select_series (price_side : string) : option (TickOf P -> P * P) :=
  if String.eqb price_side "bid" then Some (fun t => (bid t, bid_vol t))
  else if String.eqb price_side "ask" then Some (fun t => (ask t, ask_vol t))
  else if String.eqb price_side "mid" then
    Some (fun t => (phalf (padd (bid t) (ask t)), phalf (padd (bid_vol t) (ask_vol t))))
  else None.

(** [ax.is_monotonic_increasing] *)
Fixpoint is_monotonic_increasing (l : list Z) : bool :=
  match l with
  | x :: ((y :: _) as l') => (x <=? y) && is_monotonic_increasing l'
  | _ => true
  end.

(** A stable sort by timestamp: a tick goes before the first one whose
    timestamp is not smaller, so ticks with equal timestamps keep their
    order.  pandas uses [argsort(kind="mergesort")], also stable; stable
    sorts by the same key all give the same list. *)
Fixpoint insert_by_ts (t : TickOf P) (l : list (TickOf P)) : list (TickOf P) :=
  match l with
  | [] => [t]
  | x :: l' => if ts t <=? ts x then t :: l else x :: insert_by_ts t l'
  end.

Definition sort_by_ts (l : list (TickOf P)) : list (TickOf P) :=
  fold_right insert_by_ts [] l.

(** The grouper's [if not ax.is_monotonic_increasing: indexer =
    ax.array.argsort(kind="mergesort"); obj = obj.take(indexer)]. *)
Definition resample_order (ticks : list (TickOf P)) : list (TickOf P) :=
  if is_monotonic_increasing (map ts ticks) then ticks else sort_by_ts ticks.

(** [origin="start_day"]: [ax.min()] floored to midnight. *)
Definition resample_origin (ticks : list (TickOf P)) : Z :=
  match ticks with
  | [] => 0
  | t0 :: _ => replace_to_day (fold_left Z.min (map ts ticks) (ts t0))
  end.

Definition bucket_start (origin : Z) (width : positive) (t : Z) : Z :=
  origin + ((t - origin) / Zpos width) * Zpos width.

(** Sorted insertion without duplicates: the set of occupied bins. *)
Fixpoint insert_key (k : Z) (l : list Z) : list Z :=
  match l with
  | [] => [k]
  | x :: l' => if k <? x then k :: l else if k =? x then l else x :: insert_key k l'
  end.

Definition bucket_keys (origin : Z) (width : positive) (stamps : list Z) : list Z :=
  fold_right insert_key [] (map (bucket_start origin width) stamps).

(** Cython's [group_ohlc] on the rows of one bin: a NaN value is skipped;
    the first other value sets open, high, low and close
    ([first_element_set]); each later one updates high, low and close.
    [None] is the row left at its initial NaN. *)
Definition ohlc_step (acc : option (P * P * P * P)) (val : P) : option (P * P * P * P) :=
  if pisnan val then acc
  else match acc with
       | None => Some (val, val, val, val)
       | Some (o, h, l, c) => Some (o, pmax h val, pmin l val, val)
       end.

Definition ohlc (xs : list P) : option (P * P * P * P) := fold_left ohlc_step xs None.

(** Cython's [group_sum] on the rows of one bin, Kahan summation: a NaN
    value is skipped; otherwise [y = val - comp; t = sumx + y;
    comp = t - sumx - y; if comp != comp: comp = 0; sumx = t]. *)
Definition kahan_step (acc : P * P) (val : P) : P * P :=
  let '(sumx, comp) := acc in
  if pisnan val then acc
  else
    let y := psub val comp in
    let t := padd sumx y in
    let comp' := psub (psub t sumx) y in
    (t, if pisnan comp' then pzero else comp').

(** [resample(...).sum()], [min_count=0]: [sumx] and [comp] start at 0.0. *)
Definition group_sum (xs : list P) : P := fst (fold_left kahan_step xs (pzero, pzero)).

(** The row of bin [k] after the concat with the volume and the [dropna]
    on the four price columns. *)
Definition candle_row (k : Z) (o : option (P * P * P * P)) (v : P) : list (Z * Bar P) :=
  match o with
  | Some (op, h, l, c) =>
      if pisnan op || pisnan h || pisnan l || pisnan c then [] else [(k, mkBar op h l c v)]
  | None => []
  end.

Definition _ticks_to_candles (ticks : list (TickOf P)) (width : positive)
    (price_side : string) : res (Frame P) :=
  match ticks with
  | [] => Ok (CANDLE_COLUMNS, [])
  | _ =>
      match select_series price_side with
      | None => Err ValueError
      | Some sel =>
          let ordered := resample_order ticks in
          let series := map (fun t => (ts t, sel t)) ordered in
          let origin := resample_origin ticks in
          let keys := bucket_keys origin width (map ts ordered) in
          Ok (CANDLE_COLUMNS,
              flat_map (fun k =>
                let members := map snd (List.filter
                                 (fun e => bucket_start origin width (fst e) =? k) series) in
                candle_row k (ohlc (map fst members)) (group_sum (map snd members))) keys)
      end
  end.

(** The mid price and volume as the specification describes them. *)
Definition mid_price (t : TickOf P) : P := phalf (padd (bid t) (ask t)).
Definition mid_vol (t : TickOf P) : P := phalf (padd (bid_vol t) (ask_vol t)).

Definition in_bucket (origin : Z) (width : positive) (k : Z) (t : TickOf P) : bool :=
  bucket_start origin width (ts t) =? k.

Definition not_nan (x : P) : bool := negb (pisnan x).

End Resample.

(* ------------------------------------------------------------------ *)
(** * The cross-hour merge of [export_range]

    [pd.concat(all_frames).sort_index()], the [.loc] slice
    [start_utc : end_utc_inclusive + 1 day - 1 microsecond], and
    [frames[~frames.index.duplicated(keep="last")]]; an empty [all_frames]
    raises RuntimeError before.  Rows are (bucket start, bar).  [sort_index]
    is pandas' sort, whose order among equal keys is left open: it is a
    parameter, and the theorems assume only that it sorts. *)

Section Merge.
Context {B : Type}.

Definition in_clip (lo hi : Z) (row : Z * B) : bool := (lo <=? fst row) && (fst row <=? hi).

(** [~index.duplicated(keep="last")]: keep a row unless its key occurs later. *)
Fixpoint dedup_last (l : list (Z * B)) : list (Z * B) :=
  match l with
  | [] => []
  | x :: r => if existsb (fun y => fst y =? fst x) r then dedup_last r else x :: dedup_last r
  end.

Definition merge_frames (sort_index : list (Z * B) -> list (Z * B))
    (start_utc end_utc_inclusive : Z) (all_frames : list (list (Z * B))) : res (list (Z * B)) :=
  match all_frames with
  | [] => Err RuntimeError
  | _ =>
      let frames := sort_index (concat all_frames) in
      let! hi1 := dt_add end_utc_inclusive DAY in
      let! hi := dt_add hi1 (-1) in
      Ok (dedup_last (List.filter (in_clip start_utc hi) frames))
  end.

End Merge.

(** A sort by key (insertion sort), a valid [sort_index]. *)
Fixpoint insert_row {B} (x : Z * B) (l : list (Z * B)) : list (Z * B) :=
  match l with
  | [] => [x]
  | y :: l' => if fst x <=? fst y then x :: l else y :: insert_row x l'
  end.

Definition sort_rows {B} (l : list (Z * B)) : list (Z * B) := fold_right insert_row [] l.

(* ------------------------------------------------------------------ *)
(** * The drain loop of export_range (normal mode)

    The download threads are the pool: their results arrive as a list of
    (hour, payload) in completion order.  The drain consumes hours strictly
    in the order of [hours_to_fetch].  The re-download after a decompression
    error ([_download_bi5] of the deleted cache entry) is the parameter
    [refetch].  An exception escaping the loop ends the run; the progress
    counter (a Rich task outliving the call) and the drain log keep the values
    they had when it was raised, recorded by [Raised].  Cancellation through
    [_cancellation_event] and KeyboardInterrupt are not modelled. *)

Record Counters := mkCounters {
  hours_missing_404 : nat;
  hours_empty_200 : nat;
  hours_downloaded : nat;
  hours_decode_failed : nat;
  hours_resampled_nonempty : nat;
  rs_progress : nat        (* advances of the "rs" progress task *)
}.

Definition counters_zero : Counters := mkCounters 0 0 0 0 0 0.

Inductive DrainEvent :=
| EvProcess (h : Z)        (* [hour_data.pop(current_hour)] *)
| EvUnlink (h : Z)         (* [cache_path.unlink()] of the suspect file *)
| EvRefetch (h : Z).       (* the second [_download_bi5] of the hour *)

Record DrainState := mkDrain {
  hour_data : gmap Z (option bytes);
  next_to_process : nat;
  detected_format : option string;
  counters : Counters;
  all_frames : list (list (Z * Bar float));
  drain_log : list DrainEvent
}.

Inductive Outcome :=
| Continue (st : DrainState)
| Raised (st : DrainState) (e : PyErr).

Definition drain_init : DrainState := mkDrain ∅ 0 None counters_zero [] [].

Definition map_counters (f : Counters -> Counters) (st : DrainState) : DrainState :=
  mkDrain (hour_data st) (next_to_process st) (detected_format st) (f (counters st))
          (all_frames st) (drain_log st).

Definition incr_missing (c : Counters) : Counters :=
  mkCounters (S (hours_missing_404 c)) (hours_empty_200 c) (hours_downloaded c)
             (hours_decode_failed c) (hours_resampled_nonempty c) (rs_progress c).
Definition incr_empty (c : Counters) : Counters :=
  mkCounters (hours_missing_404 c) (S (hours_empty_200 c)) (hours_downloaded c)
             (hours_decode_failed c) (hours_resampled_nonempty c) (rs_progress c).
Definition incr_downloaded (c : Counters) : Counters :=
  mkCounters (hours_missing_404 c) (hours_empty_200 c) (S (hours_downloaded c))
             (hours_decode_failed c) (hours_resampled_nonempty c) (rs_progress c).
Definition incr_decode_failed (c : Counters) : Counters :=
  mkCounters (hours_missing_404 c) (hours_empty_200 c) (hours_downloaded c)
             (S (hours_decode_failed c)) (hours_resampled_nonempty c) (rs_progress c).
Definition incr_nonempty (c : Counters) : Counters :=
  mkCounters (hours_missing_404 c) (hours_empty_200 c) (hours_downloaded c)
             (hours_decode_failed c) (S (hours_resampled_nonempty c)) (rs_progress c).

(** [_advance_resample_progress()] *)
Definition advance (c : Counters) : Counters :=
  mkCounters (hours_missing_404 c) (hours_empty_200 c) (hours_downloaded c)
             (hours_decode_failed c) (hours_resampled_nonempty c) (S (rs_progress c)).

Definition set_format (f : string) (st : DrainState) : DrainState :=
  mkDrain (hour_data st) (next_to_process st) (Some f) (counters st)
          (all_frames st) (drain_log st).

Definition log_drain (ev : DrainEvent) (st : DrainState) : DrainState :=
  mkDrain (hour_data st) (next_to_process st) (detected_format st) (counters st)
          (all_frames st) (drain_log st ++ [ev]).

Definition append_frame (rows : list (Z * Bar float)) (st : DrainState) : DrainState :=
  mkDrain (hour_data st) (next_to_process st) (detected_format st) (counters st)
          (all_frames st ++ [rows]) (drain_log st).

(** [hour_data[hour_start] = comp] *)
Definition store_result (h : Z) (comp : option bytes) (st : DrainState) : DrainState :=
  mkDrain (<[h := comp]> (hour_data st)) (next_to_process st) (detected_format st)
          (counters st) (all_frames st) (drain_log st).

(** [comp = hour_data.pop(current_hour); next_to_process += 1] *)
Definition pop_hour (h : Z) (st : DrainState) : DrainState :=
  mkDrain (delete h (hour_data st)) (S (next_to_process st)) (detected_format st)
          (counters st) (all_frames st) (drain_log st ++ [EvProcess h]).

Section Drain.
Context (lzma_decompress lzma_read20 : bytes -> res bytes)
        (price_divisor : option float) (width : positive) (price_side : string)
        (cache_enabled : bool) (cache_exists : Z -> bool) (refetch : Z -> option bytes).

(** [df = _ticks_to_candles(...)]; append when not empty; advance. *)
Definition after_decode (st : DrainState) (ticks : list Tick) : Outcome :=
  match _ticks_to_candles ticks width price_side with
  | Err e => Raised st e
  | Ok (_, rows) =>
      let st := match rows with
                | [] => st
                | _ => append_frame rows (map_counters incr_nonempty st)
                end in
      Continue (map_counters advance st)
  end.

(** The body of the [while] loop for one popped hour. *)
Definition process_hour (st : DrainState) (h : Z) (comp : option bytes) : Outcome :=
  match comp with
  | None => Continue (map_counters advance (map_counters incr_missing st))
  | Some c =>
      if Nat.eqb (length c) 0 then Continue (map_counters advance (map_counters incr_empty st))
      else
        let st := map_counters incr_downloaded st in
        (* [if detected_format is None: detected_format = _probe_price_format(comp)] *)
        match match detected_format st with
              | Some f => Ok f
              | None => _probe_price_format lzma_read20 c
              end with
        | Err e => Raised st e
        | Ok fmt =>
            let st := set_format fmt st in
            match _decode_ticks lzma_decompress h c fmt price_divisor with
            | Ok ticks => after_decode st ticks
            | Err LZMAError =>
                let st := if cache_enabled && cache_exists h then log_drain (EvUnlink h) st
                          else st in
                let st := log_drain (EvRefetch h) st in
                match refetch h with
                | None => Continue (map_counters advance st)
                | Some c2 =>
                    match _decode_ticks lzma_decompress h c2 fmt price_divisor with
                    | Ok ticks => after_decode st ticks
                    | Err _ =>
                        Continue (map_counters advance (map_counters incr_decode_failed st))
                    end
                end
            | Err _ => Continue (map_counters advance (map_counters incr_decode_failed st))
            end
        end
  end.

(** [while next_to_process < len(hours_to_fetch)]: consume while the next
    hour's result is there.  [fuel] bounds the iterations by the number of
    hours. *)
Fixpoint drain (hours_to_fetch : list Z) (fuel : nat) (st : DrainState) : Outcome :=
  match fuel with
  | O => Continue st
  | S fuel' =>
      match nth_error hours_to_fetch (next_to_process st) with
      | None => Continue st
      | Some h =>
          match hour_data st !! h with
          | None => Continue st
          | Some comp =>
              match process_hour (pop_hour h st) h comp with
              | Continue st' => drain hours_to_fetch fuel' st'
              | Raised st' e => Raised st' e
              end
          end
      end
  end.

(** One [future] out of [as_completed(futures)]. *)
Definition on_complete (hours_to_fetch : list Z) (o : Outcome) (hc : Z * option bytes) : Outcome :=
  match o with
  | Raised st e => Raised st e
  | Continue st => drain hours_to_fetch (length hours_to_fetch) (store_result (fst hc) (snd hc) st)
  end.

Definition drain_run (hours_to_fetch : list Z) (completions : list (Z * option bytes)) : Outcome :=
  fold_left (on_complete hours_to_fetch) completions (Continue drain_init).

(** Normal mode of [export_range]: the hours, the drain, the merge.  [pool]
    gives the completion order of the downloads of the hours. *)
Definition export_range (db : UnicodeDB)
    (sort_index : list (Z * Bar float) -> list (Z * Bar float))
    (pool : list Z -> list (Z * option bytes))
    (symbol : pystr) (start_utc end_utc_inclusive : Z) : res (list (Z * Bar float)) :=
  let! _ := _symbol_normalise db symbol in
  let! e1 := dt_add end_utc_inclusive DAY in
  let end_exclusive := replace_to_day e1 in
  let! hours_to_fetch := _iter_hours start_utc end_exclusive in
  match drain_run hours_to_fetch (pool hours_to_fetch) with
  | Raised _ e => Err e
  | Continue st => merge_frames sort_index start_utc end_utc_inclusive (all_frames st)
  end.

End Drain.

(** The hours consumed so far, in consumption order. *)
Definition processed (log : list DrainEvent) : list Z :=
  flat_map (fun ev => match ev with EvProcess h => [h] | _ => [] end) log.

Definition progress_of (st : DrainState) : nat := rs_progress (counters st).

(** What the drain loop keeps true: hours consumed in the order of
    [hours_to_fetch], one progress advance per consumed hour, only hours whose
    download completed ([seen]) consumed or waiting in [hour_data]. *)
Definition drain_inv (hours seen : list Z) (st : DrainState) : Prop :=
  processed (drain_log st) = firstn (next_to_process st) hours
  /\ (next_to_process st <= length hours)%nat
  /\ progress_of st = next_to_process st
  /\ (forall h, In h (processed (drain_log st)) -> In h seen)
  /\ (forall h, In h seen -> In h (processed (drain_log st)) \/ is_Some (hour_data st !! h))
  /\ (forall h, is_Some (hour_data st !! h) -> In h seen).

(** The same, at the point an exception leaves the loop: the hour being
    processed is consumed but has not advanced the progress counter. *)
Definition raised_inv (hours seen : list Z) (st : DrainState) : Prop :=
  processed (drain_log st) = firstn (next_to_process st) hours
  /\ (next_to_process st <= length hours)%nat
  /\ S (progress_of st) = next_to_process st
  /\ (forall h, In h (processed (drain_log st)) -> In h seen).

(** The [while] loop has left by [break] or by running out of hours. *)
Definition drain_stopped (hours : list Z) (st : DrainState) : Prop :=
  match nth_error hours (next_to_process st) with
  | None => True
  | Some h => hour_data st !! h = None
  end.

(* ------------------------------------------------------------------ *)
(** * The calendar of [datetime] and the URL of an hour *)

Definition DI400Y : Z := 146097.
Definition DI100Y : Z := 36524.
Definition DI4Y : Z := 1461.

Definition _days_in_month : list Z := [0; 31; 28; 31; 30; 31; 30; 31; 31; 30; 31; 30; 31].
Definition _days_before_month : list Z := [0; 0; 31; 59; 90; 120; 151; 181; 212; 243; 273; 304; 334].

Definition is_leap (year : Z) : bool :=
  (year mod 4 =? 0) && (negb (year mod 100 =? 0) || (year mod 400 =? 0)).

Definition days_in_month (year month : Z) : Z :=
  if (month =? 2) && is_leap year then 29 else List.nth (Z.to_nat month) _days_in_month 0.

Definition days_before_month (year month : Z) : Z :=
  List.nth (Z.to_nat month) _days_before_month 0
  + (if (month >? 2) && is_leap year then 1 else 0).

Definition days_before_year (year : Z) : Z :=
  let y := year - 1 in y * 365 + y / 4 - y / 100 + y / 400.

Definition ymd_to_ord (year month day : Z) : Z :=
  days_before_year year + days_before_month year month + day.

Definition ord_to_ymd (ordinal : Z) : Z * Z * Z :=
  let ordinal := ordinal - 1 in
  let n400 := ordinal / DI400Y in
  let n := ordinal mod DI400Y in
  let year := n400 * 400 + 1 in
  let n100 := n / DI100Y in
  let n := n mod DI100Y in
  let n4 := n / DI4Y in
  let n := n mod DI4Y in
  let n1 := n / 365 in
  let n := n mod 365 in
  let year := year + n100 * 100 + n4 * 4 + n1 in
  if (n1 =? 4) || (n100 =? 4) then (year - 1, 12, 31)
  else
    let leapyear := (n1 =? 3) && (negb (n4 =? 24) || (n100 =? 3)) in
    let month := Z.shiftr (n + 50) 5 in
    let preceding := List.nth (Z.to_nat month) _days_before_month 0
                     + (if (month >? 2) && leapyear then 1 else 0) in
    let '(month, preceding) :=
      if preceding >? n then (month - 1, preceding - days_in_month year (month - 1))
      else (month, preceding) in
    (year, month, n - preceding + 1).

Fixpoint range_check (f : Z -> bool) (lo : Z) (n : nat) : bool :=
  match n with
  | O => true
  | S n' => if f lo then range_check f (lo + 1) n' else false
  end.

Definition day_ok (n : Z) : bool :=
  let '(y, m, d) := ord_to_ymd n in
  (ymd_to_ord y m d =? n) && (1 <=? y) && (y <=? 400) && (1 <=? m) && (m <=? 12)
  && (1 <=? d) && (d <=? days_in_month y m).

Definition dt_ymd (t : Z) : Z * Z * Z := ord_to_ymd (t / DAY + 1).
Definition dt_hour (t : Z) : Z := (t mod DAY) / HOUR.

Definition BASE_URL : string := "https://datafeed.dukascopy.com/datafeed".

Definition fmt_02d (n : Z) : string :=
  let s := pretty n in if (String.length s <? 2)%nat then "0" +:+ s else s.

Definition _dukascopy_tick_url (symbol : string) (hour_start : Z) : string :=
  match dt_ymd hour_start with
  | (y, month, d) =>
      let m0 := month - 1 in
      let h := dt_hour hour_start in
      BASE_URL +:+ "/" +:+ symbol +:+ "/" +:+ pretty y +:+ "/" +:+ fmt_02d m0 +:+ "/"
        +:+ fmt_02d d +:+ "/" +:+ fmt_02d h +:+ "h_ticks.bi5"
  end.

Definition digit_val (c : ascii) : Z := Z.of_nat (nat_of_ascii c) - 48.

Definition parse_2d (s : string) : Z :=
  match s with
  | String c1 (String c2 EmptyString) => 10 * digit_val c1 + digit_val c2
  | _ => -1
  end.

(** The fields as the specification writes them: two decimal digits. *)
Definition digit_char (n : Z) : ascii := ascii_of_nat (48 + Z.to_nat n).

Definition two_digits (n : Z) : string :=
  String (digit_char (n / 10)) (String (digit_char (n mod 10)) EmptyString).

(* ------------------------------------------------------------------ *)
(** * The frame of one price side *)

Section CandleSpec.
Context {P : Type} `{PriceArith P}.

(** The frame of [_ticks_to_candles] for a side whose series is
    ([price], [vol]).  The ticks are taken in timestamp order, ticks with
    equal timestamps in list order ([resample_order] is a permutation of
    the list, sorted by timestamp, and keeps the list order of each
    timestamp).  The rows come in increasing bucket order, each bucket start
    aligned on the origin, and every tick with a non-NaN price is covered by
    the row of its bucket.  The row of bucket [k] aggregates the ticks of
    [k, k + width) in that order: the non-NaN prices are [x0 :: rest], open
    is [x0], high and low the running max and min, close the last, volume
    the Kahan sum of the non-NaN volumes.  A bucket without a non-NaN
    price has no row. *)
Definition candles_spec (ticks : list (TickOf P)) (w : positive) (side : string)
    (price vol : TickOf P -> P) : Prop :=
  let origin := resample_origin ticks in
  let ordered := resample_order ticks in
  Permutation ordered ticks
  /\ Sorted (fun a b => ts a <= ts b) ordered
  /\ (forall z, List.filter (fun t => ts t =? z) ordered = List.filter (fun t => ts t =? z) ticks)
  /\ exists bars,
    _ticks_to_candles ticks w side = Ok (CANDLE_COLUMNS, bars)
    /\ Sorted Z.lt (map fst bars)
    /\ (forall t, In t ticks -> pisnan (price t) = false ->
          exists kb, In kb bars /\ fst kb <= ts t < fst kb + Zpos w)
    /\ Forall (fun kb =>
         let k := fst kb in
         let members := List.filter (fun t => (k <=? ts t) && (ts t <? k + Zpos w)) ordered in
         origin <= k /\ (k - origin) mod Zpos w = 0
         /\ exists x0 rest,
              List.filter not_nan (map price members) = x0 :: rest
              /\ open_ (snd kb) = x0
              /\ high (snd kb) = fold_left pmax rest x0
              /\ low (snd kb) = fold_left pmin rest x0
              /\ close (snd kb) = List.last rest x0
              /\ volume (snd kb) = group_sum (List.filter not_nan (map vol members))) bars.

End CandleSpec.

(* ------------------------------------------------------------------ *)
(** * Symbol and CSV file names *)

(** [resample_rule.replace(" ", "").upper()] *)
Definition rule_label (db : UnicodeDB) (resample_rule : pystr) : pystr :=
  py_upper db (List.filter (fun c => negb (c =? 32)) resample_rule).

(** [f"{symbol}_{rule_label}.csv"]; 95 is the code point of "_". *)
Definition csv_name (db : UnicodeDB) (symbol resample_rule : pystr) : pystr :=
  symbol ++ 95 :: rule_label db resample_rule ++ pystr_of ".csv".

(* ------------------------------------------------------------------ *)
(** * Runs that produce no data *)

Definition no_payload (comp : option bytes) : Prop := comp = None \/ comp = Some [].

Definition nodata_inv (st : DrainState) : Prop :=
  all_frames st = [] /\ forall h c, hour_data st !! h = Some c -> no_payload c.

(* ------------------------------------------------------------------ *)
(** * metadata.py: paths and the sidecar *)

(** A pathlib path: its anchor and its segments; [name] is the last segment. *)
Record PPath := mkPath { anchor : list ascii; segs : list (list ascii) }.

Definition ppath_eq_dec : forall p q : PPath, {p = q} + {p <> q}.
Proof. decide equality; repeat first [exact ascii_dec | apply list_eq_dec]. Defined.

Definition slash : ascii := "/"%char.
Definition dot : ascii := "."%char.

Definition path_name (p : PPath) : list ascii :=
  match List.rev (segs p) with n :: _ => n | [] => [] end.

(** [str.rfind(c)]: the last index of [c], or -1. *)
Fixpoint rfind_go (c : ascii) (s : list ascii) (i : Z) (acc : Z) : Z :=
  match s with
  | [] => acc
  | x :: s' => rfind_go c s' (i + 1) (if Ascii.eqb x c then i else acc)
  end.
Definition rfind (s : list ascii) (c : ascii) : Z := rfind_go c s 0 (-1).

(** [PurePath.suffix] *)
Definition path_suffix (p : PPath) : list ascii :=
  let name := path_name p in
  let i := rfind name dot in
  if (0 <? i) && (i <? Z.of_nat (length name) - 1) then skipn (Z.to_nat i) name else [].

(** [PurePath.with_suffix] (Python 3.12 pathlib, POSIX flavour) *)
Definition with_suffix (p : PPath) (suffix : list ascii) : res PPath :=
  if existsb (fun c => Ascii.eqb c slash) suffix then Err ValueError
  else if (match suffix with [] => false | c :: _ => negb (Ascii.eqb c dot) end)
          || (match suffix with [c] => Ascii.eqb c dot | _ => false end)
  then Err ValueError
  else
    let name := path_name p in
    match name with
    | [] => Err ValueError
    | _ =>
        let old_suffix := path_suffix p in
        let name := match old_suffix with
                    | [] => name ++ suffix
                    | _ => firstn (length name - length old_suffix) name ++ suffix
                    end in
        Ok (mkPath (anchor p) (List.removelast (segs p) ++ [name]))
    end.

Definition META_JSON : list ascii := String.list_ascii_of_string ".meta.json".

(** [write_sidecar(meta, outputfile)] on a file system mapping paths to
    contents; [text] is the JSON document written. *)
Definition write_sidecar (text : string) (outputfile : PPath) (fs : list (PPath * string))
  : res (PPath * list (PPath * string)) :=
  let! sidecar := with_suffix outputfile (path_suffix outputfile ++ META_JSON) in
  Ok (sidecar, (sidecar, text) :: fs).

(* ------------------------------------------------------------------ *)
(** * parallel.py and the end of cli.main *)

Record ExportTask := mkTask {
  task_symbol : pystr;
  task_start_utc : Z;
  task_end_utc_inclusive : Z;
  task_resample_rule : pystr;
  task_price_side : string;
  task_price_divisor : float;
  task_cache_dir : option PPath;
  task_out : PPath
}.

(** [ExportResult]; the exception stands for its message [str(e)]. *)
Record ExportResult := mkResult {
  result_symbol : pystr;
  output_csv : option PPath;
  success : bool;
  error : option PyErr
}.

Definition _export_worker (export : ExportTask -> res (option PPath)) (task : ExportTask)
  : ExportResult :=
  match export task with
  | Ok csv => mkResult (task_symbol task) csv true None
  | Err e => mkResult (task_symbol task) None false (Some e)
  end.

(** [run_parallel_exports]: the results in the order [as_completed] yields
    the tasks. *)
Definition run_parallel_exports (export : ExportTask -> res (option PPath))
    (completed : list ExportTask) : list ExportResult :=
  map (_export_worker export) completed.

(** The sidecar loop of [main]; an exception of [write_sidecar] leaves [main]. *)
Fixpoint write_sidecars (meta_text : ExportResult -> string) (results : list ExportResult)
    (fs : list (PPath * string)) : res (list (PPath * string)) :=
  match results with
  | [] => Ok fs
  | r :: rs =>
      if success r then
        match output_csv r with
        | Some csv =>
            let! w := write_sidecar (meta_text r) csv fs in
            write_sidecars meta_text rs (snd w)
        | None => write_sidecars meta_text rs fs
        end
      else write_sidecars meta_text rs fs
  end.

(** The end of [main] after [run_parallel_exports]: the sidecars, then the
    exit code from the summary. *)
Definition main_summary (meta_text : ExportResult -> string) (results : list ExportResult)
    (fs : list (PPath * string)) : res (list (PPath * string) * Z) :=
  let! fs' := write_sidecars meta_text results fs in
  let succeeded := Z.of_nat (length (List.filter success results)) in
  let failed := Z.of_nat (length results) - succeeded in
  Ok (fs', if failed >? 0 then 1 else 0).

Definition sidecar_of (csv : PPath) : PPath :=
  mkPath (anchor csv) (List.removelast (segs csv) ++ [path_name csv ++ META_JSON]).

(* ------------------------------------------------------------------ *)
(** * The drain as a sequential loop *)

Definition drain_core (st : DrainState) :=
  (next_to_process st, detected_format st, counters st, all_frames st, drain_log st).

Definition outcome_core (o : Outcome) :=
  match o with
  | Continue st => inl (drain_core st)
  | Raised st e => inr (drain_core st, e)
  end.

Definition outcome_state (o : Outcome) : DrainState :=
  match o with Continue st => st | Raised st _ => st end.

Definition dinv (hours : list Z) (A : gmap Z (option bytes)) (st : DrainState) : Prop :=
  (next_to_process st <= length hours)%nat
  /\ (forall x, hour_data st !! x =
                if in_dec Z.eq_dec x (firstn (next_to_process st) hours) then None else A !! x)
  /\ Forall (fun h => is_Some (A !! h)) (firstn (next_to_process st) hours).

Definition cstopped (hours : list Z) (A : gmap Z (option bytes)) (k : nat) : Prop :=
  match nth_error hours k with
  | None => True
  | Some h => A !! h = None
  end.

Section Canon.
Context (lzma_decompress lzma_read20 : bytes -> res bytes)
        (price_divisor : option float) (width : positive) (price_side : string)
        (cache_enabled : bool) (cache_exists : Z -> bool) (refetch : Z -> option bytes).

(** The hours processed one after the other in the order of the list, each
    with its download result taken from [A], up to the first hour with no
    result or the first exception. *)
Fixpoint canon (hs : list Z) (A : gmap Z (option bytes)) (st : DrainState) : Outcome :=
  match hs with
  | [] => Continue st
  | h :: hs' =>
      match A !! h with
      | None => Continue st
      | Some comp =>
          match process_hour lzma_decompress lzma_read20 price_divisor width price_side
                  cache_enabled cache_exists refetch (pop_hour h st) h comp with
          | Continue st' => canon hs' A st'
          | Raised st' e => Raised st' e
          end
      end
  end.

(** What the fold over the completions keeps true. *)
Definition finv (hours : list Z) (A : gmap Z (option bytes)) (o : Outcome) : Prop :=
  outcome_core o = outcome_core (canon hours A drain_init)
  /\ match o with
     | Continue st => dinv hours A st /\ cstopped hours A (next_to_process st)
     | Raised _ _ => True
     end.

End Canon.


(* ------------------------------------------------------------------ *)
(** * Test data

    Byte strings used by the examples: the unit tests' records, a world for
    the retry schedule, and the runs of the drain loop.  [toy_lzma] stands for
    the LZMA codec on these inputs: like [lzma.decompress], it rejects a
    payload of zero bytes (no stream header) with LZMAError; any other payload
    here is taken to be a stored stream of itself. *)

(** Field [j] (0..4) of record [k], as a 32-bit big-endian word. *)
Definition rec_word (raw : bytes) (k j : nat) : Z := u32_be raw (20 * k + 4 * j).

Definition rec_ms (raw : bytes) (k : nat) : Z := int32_of_u32 (rec_word raw k 0).

Definition rec_ts_in_range (hour_start : Z) (raw : bytes) (k : nat) : Prop :=
  0 <= hour_start + rec_ms raw k * USEC_PER_MS <= DT_MAX.

(** The two records of the decoder's unit tests, in record layout. *)
Definition test_int_records : bytes :=
  be32 0 ++ be32 123450 ++ be32 123400 ++ be32 0x41200000 ++ be32 0x41400000
  ++ be32 250 ++ be32 123500 ++ be32 123460 ++ be32 0x41300000 ++ be32 0x41500000.

Definition first_record_int : bytes :=
  be32 0 ++ be32 123450 ++ be32 123400 ++ be32 0x41200000 ++ be32 0x41400000.
Definition first_record_float : bytes :=
  be32 0 ++ be32 0x3F8CCCCD ++ be32 0x3F8CB439 ++ be32 0x41200000 ++ be32 0x41400000.

Definition backoff_world : World :=
  mkWorld ∅ [HTTPResponse 503 []; HTTPResponse 503 []; TransportError;
             HTTPResponse 200 (repeat x00 80)] [].

(** Two ticks of a processing step: its frame (pending results, position,
    consumed hours) is unchanged. *)
Definition same_frame (st st' : DrainState) : Prop :=
  hour_data st' = hour_data st
  /\ next_to_process st' = next_to_process st
  /\ processed (drain_log st') = processed (drain_log st).

Definition corrupt_payload : bytes := repeat x00 64.

(** Four int records: ms 0, 250, 0, 250 (80 bytes). *)
Definition sample_payload : bytes := test_int_records ++ test_int_records.

Definition toy_lzma (c : bytes) : res bytes :=
  if forallb (fun b => Byte.eqb b x00) c then Err LZMAError else Ok c.

(** [lzma.open(BytesIO(c)).read(20)] with the same codec. *)
Definition toy_lzma_read20 (c : bytes) : res bytes := res_map (firstn 20) (toy_lzma c).

(** The thread pool over the given downloads, completing in hour order. *)
Definition pool_in_order (dl : Z -> option bytes) (hours : list Z) : list (Z * option bytes) :=
  map (fun h => (h, dl h)) hours.

(** Hour 0 is a corrupt cached file and hour 1 a good payload. *)
Definition dl_corrupt_first (h : Z) : option bytes :=
  if h =? 0 then Some corrupt_payload else if h =? HOUR then Some sample_payload else None.

(** Hour 0 is a good payload and hour 1 a corrupt cached file. *)
Definition dl_corrupt_second (h : Z) : option bytes :=
  if h =? 0 then Some sample_payload else if h =? HOUR then Some corrupt_payload else None.

Definition EURUSD : pystr := pystr_of "EURUSD".

Definition csv0 : PPath := mkPath [] [String.list_ascii_of_string "out";
                                      String.list_ascii_of_string "EURUSD_5MIN.csv"].

Definition task0 : ExportTask :=
  mkTask EURUSD 0 0 (pystr_of "5min") "bid" 1%float None
         (mkPath [] [String.list_ascii_of_string "out"]).

(* ================================================================== *)
(** * Proofs: hour enumeration *)

Lemma dt_add_ok (t d : Z) : 0 <= t + d <= DT_MAX -> dt_add t d = Ok (t + d).
Proof.
  intros H. unfold dt_add.
  replace ((0 <=? t + d) && (t + d <=? DT_MAX)) with true; [reflexivity|].
  symmetry. apply andb_true_iff. split; apply Z.leb_le; lia.
Qed.

Lemma dt_add_err (t d : Z) : ~ (0 <= t + d <= DT_MAX) -> dt_add t d = Err OverflowError.
Proof.
  intros H. unfold dt_add.
  destruct (0 <=? t + d) eqn:E1; destruct (t + d <=? DT_MAX) eqn:E2; simpl; try reflexivity.
  apply Z.leb_le in E1. apply Z.leb_le in E2. lia.
Qed.

Lemma hour_seq_S (r : Z) (n : nat) :
  hour_seq r (S n) = r :: hour_seq (r + HOUR) n.
Proof.
  unfold hour_seq. simpl. f_equal; [lia|].
  rewrite <- seq_shift, map_map. apply map_ext. intros i. lia.
Qed.

Lemma iter_hours_loop_ok (n : nat) :
  forall (fuel : nat) (cur e : Z),
    (n < fuel)%nat -> 0 <= cur -> cur + Z.of_nat n * HOUR <= DT_MAX ->
    (forall i, (i < n)%nat -> cur + Z.of_nat i * HOUR < e) ->
    e <= cur + Z.of_nat n * HOUR ->
    iter_hours_loop fuel cur e = Ok (hour_seq cur n).
Proof.
  induction n as [|n IH]; intros fuel cur e Hf H0 Hmax Hlt Hge.
  - destruct fuel as [|fuel]; [lia|]. simpl.
    replace (cur <? e) with false by (symmetry; apply Z.ltb_ge; lia).
    reflexivity.
  - destruct fuel as [|fuel]; [lia|]. simpl.
    assert (Hc : cur < e) by (specialize (Hlt 0%nat); lia).
    replace (cur <? e) with true by (symmetry; apply Z.ltb_lt; lia).
    unfold dt_add.
    replace ((0 <=? cur + HOUR) && (cur + HOUR <=? DT_MAX)) with true
      by (symmetry; apply andb_true_iff; split; [apply Z.leb_le | apply Z.leb_le];
          unfold HOUR in *; lia).
    simpl. rewrite (IH fuel (cur + HOUR) e); [| lia | unfold HOUR in *; lia | lia | |].
    + rewrite hour_seq_S. reflexivity.
    + intros i Hi. specialize (Hlt (S i) ltac:(lia)). lia.
    + lia.
Qed.

Lemma round_up_hour (s : Z) :
  0 <= s <= LAST_HOUR ->
  (if replace_to_hour s <? s then dt_add (replace_to_hour s) HOUR
   else Ok (replace_to_hour s)) = Ok (ceil_hour s).
Proof.
  intros Hs. unfold replace_to_hour, ceil_hour.
  pose proof (Z.div_mod s HOUR ltac:(unfold HOUR; lia)) as Hdm.
  pose proof (Z.mod_pos_bound s HOUR ltac:(unfold HOUR; lia)) as Hb.
  set (q := s / HOUR) in *. set (m := s mod HOUR) in *.
  destruct (Z.eq_dec m 0) as [Hm|Hm].
  - replace (s - m <? s) with false by (symmetry; apply Z.ltb_ge; lia).
    f_equal.
    replace (s + HOUR - 1) with (q * HOUR + (HOUR - 1)) by lia.
    rewrite Z.div_add_l by (unfold HOUR; lia).
    rewrite (Z.div_small (HOUR - 1)) by (unfold HOUR; lia). lia.
  - replace (s - m <? s) with true by (symmetry; apply Z.ltb_lt; lia).
    unfold dt_add.
    replace ((0 <=? s - m + HOUR) && (s - m + HOUR <=? DT_MAX)) with true.
    + f_equal.
      replace (s + HOUR - 1) with ((q + 1) * HOUR + (m - 1)) by lia.
      rewrite Z.div_add_l by (unfold HOUR; lia).
      rewrite (Z.div_small (m - 1)) by lia. lia.
    + symmetry; apply andb_true_iff; split; apply Z.leb_le;
        unfold LAST_HOUR, DT_MAX, DAY, HOUR in *; lia.
Qed.

Lemma ceil_hour_bounds (s : Z) :
  0 <= s <= LAST_HOUR -> 0 <= ceil_hour s <= LAST_HOUR /\ s <= ceil_hour s.
Proof.
  intros Hs. unfold ceil_hour.
  pose proof (Z.div_mod (s + HOUR - 1) HOUR ltac:(unfold HOUR; lia)) as Hdm.
  pose proof (Z.mod_pos_bound (s + HOUR - 1) HOUR ltac:(unfold HOUR; lia)) as Hb.
  set (q := (s + HOUR - 1) / HOUR) in *.
  unfold LAST_HOUR, DT_MAX, DAY, HOUR in *. lia.
Qed.

Lemma iter_hours_loop_overflow (n : nat) :
  forall (fuel : nat) (cur e : Z),
    cur = LAST_HOUR - Z.of_nat n * HOUR -> 0 <= cur -> (n < fuel)%nat -> LAST_HOUR < e ->
    iter_hours_loop fuel cur e = Err OverflowError.
Proof.
  induction n as [|n IH]; intros fuel cur e Hc H0 Hf He.
  - destruct fuel as [|fuel]; [lia|]. simpl.
    replace (cur <? e) with true by (symmetry; apply Z.ltb_lt; lia).
    rewrite dt_add_err by (unfold LAST_HOUR in *; lia). reflexivity.
  - destruct fuel as [|fuel]; [lia|]. simpl.
    replace (cur <? e) with true by (symmetry; apply Z.ltb_lt; unfold HOUR in *; lia).
    rewrite dt_add_ok by (unfold LAST_HOUR, DT_MAX, DAY, HOUR in *; lia). cbn [res_bind].
    rewrite (IH fuel (cur + HOUR) e); [reflexivity | lia | unfold HOUR in *; lia | lia | lia].
Qed.

(** C8 (amended): within datetime's range (both bounds at or before
    9999-12-31T23:00, the last representable hour boundary), [_iter_hours]
    succeeds and returns the hours [r, r+1h, r+2h, ...] where [r] is the
    start rounded up to the hour; all of them lie before [end_exclusive], the
    next one does not, their number is the hour count between [r] and the
    end, and the list is empty when [r >= end_exclusive].  Beyond that bound
    (a start datetime after 9999-12-31T23:00, or an end after it) the
    enumeration raises OverflowError: rounding the start up, or stepping
    past the last yielded hour 9999-12-31T23:00, leaves datetime's range. *)
Theorem iter_hours_spec (s e : Z) :
  (0 <= s <= LAST_HOUR -> 0 <= e <= LAST_HOUR ->
   let r := ceil_hour s in
   let n := hour_count r e in
   _iter_hours s e = Ok (hour_seq r n)
   /\ Forall (fun h => h < e) (hour_seq r n)
   /\ e <= r + Z.of_nat n * HOUR
   /\ (e <= r -> hour_seq r n = []))
  /\ (0 <= s <= DT_MAX -> LAST_HOUR < s \/ LAST_HOUR < e ->
      _iter_hours s e = Err OverflowError).
Proof.
  split.
  2:{ intros Hs Hbeyond. destruct (Z_le_gt_dec s LAST_HOUR) as [Hle|Hgt].
      - destruct Hbeyond as [|He]; [lia|].
        pose proof (ceil_hour_bounds s (conj (proj1 Hs) Hle)) as [Hr Hsr].
        unfold _iter_hours. fold (ceil_hour s).
        rewrite (round_up_hour s (conj (proj1 Hs) Hle)). cbn [res_bind].
        set (r := ceil_hour s) in *.
        assert (Hal : r mod HOUR = 0).
        { subst r. unfold ceil_hour. apply Z.mod_mul. unfold HOUR; lia. }
        assert (HL : LAST_HOUR mod HOUR = 0) by (vm_compute; reflexivity).
        set (n := Z.to_nat ((LAST_HOUR - r) / HOUR)).
        assert (Hn : r = LAST_HOUR - Z.of_nat n * HOUR).
        { assert (Hm0 : (LAST_HOUR - r) mod HOUR = 0)
            by (rewrite Zminus_mod, Hal, HL; reflexivity).
          pose proof (Z.div_mod (LAST_HOUR - r) HOUR ltac:(unfold HOUR; lia)) as Hd.
          rewrite Hm0 in Hd.
          assert (0 <= (LAST_HOUR - r) / HOUR) by (apply Z.div_pos; unfold HOUR in *; lia).
          unfold n. rewrite Z2Nat.id by lia. lia. }
        apply (iter_hours_loop_overflow n); [exact Hn | lia | | exact He].
        unfold iter_hours_fuel.
        assert ((LAST_HOUR - r) / HOUR <= (e - r) / HOUR)
          by (apply Z.div_le_mono; unfold HOUR; lia).
        assert (0 <= (LAST_HOUR - r) / HOUR) by (apply Z.div_pos; unfold HOUR; lia).
        lia.
      - unfold _iter_hours, replace_to_hour.
        assert (Hm : s mod HOUR = s - LAST_HOUR).
        { symmetry. apply Z.mod_unique with (LAST_HOUR / HOUR);
            [left; unfold LAST_HOUR, DT_MAX, DAY, HOUR in *; lia|].
          replace (HOUR * (LAST_HOUR / HOUR)) with LAST_HOUR by (vm_compute; reflexivity).
          lia. }
        rewrite Hm.
        replace (s - (s - LAST_HOUR) <? s) with true by (symmetry; apply Z.ltb_lt; lia).
        rewrite dt_add_err by (unfold LAST_HOUR in *; lia). reflexivity. }
  intros Hs He r n.
  pose proof (ceil_hour_bounds s Hs) as [Hr Hsr].
  pose proof (Z.div_mod (e - r + HOUR - 1) HOUR ltac:(unfold HOUR; lia)) as Hdm.
  pose proof (Z.mod_pos_bound (e - r + HOUR - 1) HOUR ltac:(unfold HOUR; lia)) as Hb.
  assert (Hn : Z.of_nat n = Z.max 0 ((e - r + HOUR - 1) / HOUR))
    by (unfold n, hour_count; lia).
  set (q := (e - r + HOUR - 1) / HOUR) in *.
  assert (Hlt : forall i, (i < n)%nat -> r + Z.of_nat i * HOUR < e).
  { intros i Hi. assert (Z.of_nat i + 1 <= Z.of_nat n) by lia.
    unfold HOUR in *; nia. }
  assert (Hge : e <= r + Z.of_nat n * HOUR) by (unfold HOUR in *; lia).
  split; [|split; [|split]].
  - unfold _iter_hours. fold (ceil_hour s).
    rewrite (round_up_hour s Hs). cbn [res_bind]. fold r.
    apply iter_hours_loop_ok; try lia.
    + unfold iter_hours_fuel.
      assert (q <= (e - r) / HOUR + 1).
      { unfold q. replace (e - r + HOUR - 1) with ((e - r - 1) + 1 * HOUR) by lia.
        rewrite Z.div_add by (unfold HOUR; lia).
        apply Z.add_le_mono_r, Z.div_le_mono; unfold HOUR; lia. }
      lia.
    + destruct n as [|n'].
      * unfold LAST_HOUR, DT_MAX, DAY, HOUR in *; lia.
      * specialize (Hlt n' ltac:(lia)). unfold LAST_HOUR, DT_MAX, DAY, HOUR in *; lia.
    + exact Hlt.
  - unfold hour_seq. apply List.Forall_forall. intros h Hh.
    apply in_map_iff in Hh as [i [<- Hi]]. apply in_seq in Hi.
    apply Hlt. lia.
  - exact Hge.
  - intros Her. assert (n = 0%nat) as -> by (unfold HOUR in *; lia). reflexivity.
Qed.

Lemma iter_hours_spec_witness :
  _iter_hours 1 (3 * HOUR) = Ok (hour_seq (ceil_hour 1) (hour_count (ceil_hour 1) (3 * HOUR)))
  /\ _iter_hours (LAST_HOUR + 1) 0 = Err OverflowError
  /\ _iter_hours 0 (LAST_HOUR + HOUR) = Err OverflowError.
Proof.
  split; [|split].
  - apply (proj1 (iter_hours_spec 1 (3 * HOUR)));
      unfold LAST_HOUR, DT_MAX, DAY, HOUR; lia.
  - apply (proj2 (iter_hours_spec (LAST_HOUR + 1) 0));
      unfold LAST_HOUR, DT_MAX, DAY, HOUR; lia.
  - apply (proj2 (iter_hours_spec 0 (LAST_HOUR + HOUR)));
      unfold LAST_HOUR, DT_MAX, DAY, HOUR; lia.
Defined.

(** C8 counterexample: with [start = 9999-12-31T23:00] and
    [end_exclusive = datetime.max], the rounded start is before the end, the
    generator yields 23:00 and then raises OverflowError computing the next
    hour, so no hour list is returned. *)
Lemma iter_hours_overflow_cex :
  _iter_hours LAST_HOUR DT_MAX = Err OverflowError.
Proof. vm_compute. reflexivity. Qed.

(* ================================================================== *)
(** * Proofs: symbol normalisation *)

Section SymbolProofs.
Context (db : UnicodeDB).

Lemma lstrip_split (s : pystr) :
  exists pre, s = pre ++ lstrip db s /\ Forall (fun c => ud_isspace db c = true) pre
              /\ (lstrip db s = [] \/ exists c t, lstrip db s = c :: t /\ ud_isspace db c = false).
Proof.
  induction s as [|c s IH]; simpl.
  - exists []. auto.
  - destruct (ud_isspace db c) eqn:Hc.
    + destruct IH as [pre [Hs [Hf Ht]]]. exists (c :: pre).
      split; [simpl; congruence | split; [constructor; auto | exact Ht]].
    + exists []. split; [reflexivity | split; [constructor |]].
      right. exists c, s. auto.
Qed.

Lemma filter_alnum_spaces (Hsa : forall c, ud_isspace db c = true -> ud_isalnum db c = false)
    (pre : pystr) :
  Forall (fun c => ud_isspace db c = true) pre -> List.filter (ud_isalnum db) pre = [].
Proof.
  induction 1 as [|c pre Hc _ IH]; simpl; [reflexivity|].
  rewrite (Hsa c Hc). exact IH.
Qed.

Lemma filter_alnum_lstrip (Hsa : forall c, ud_isspace db c = true -> ud_isalnum db c = false)
    (s : pystr) :
  List.filter (ud_isalnum db) (lstrip db s) = List.filter (ud_isalnum db) s.
Proof.
  destruct (lstrip_split s) as [pre [Hs [Hf _]]].
  assert (E : List.filter (ud_isalnum db) s = List.filter (ud_isalnum db) (pre ++ lstrip db s))
    by (f_equal; exact Hs).
  rewrite E, List.filter_app, (filter_alnum_spaces Hsa pre Hf). reflexivity.
Qed.

Lemma filter_alnum_strip (Hsa : forall c, ud_isspace db c = true -> ud_isalnum db c = false)
    (s : pystr) :
  List.filter (ud_isalnum db) (py_strip db s) = List.filter (ud_isalnum db) s.
Proof.
  unfold py_strip.
  rewrite List.filter_rev, (filter_alnum_lstrip Hsa), List.filter_rev,
    (filter_alnum_lstrip Hsa), rev_involutive.
  reflexivity.
Qed.

Lemma lstrip_nil_iff (s : pystr) :
  lstrip db s = [] <-> Forall (fun c => ud_isspace db c = true) s.
Proof.
  induction s as [|c s IH]; simpl.
  - split; auto.
  - destruct (ud_isspace db c) eqn:Hc.
    + rewrite IH. split; [intros; constructor; auto | intros H; inversion H; auto].
    + split; [discriminate | intros H; inversion H; congruence].
Qed.

Lemma strip_nil_iff (s : pystr) :
  py_strip db s = [] <-> Forall (fun c => ud_isspace db c = true) s.
Proof.
  unfold py_strip. rewrite <- lstrip_nil_iff.
  split; intros H.
  - destruct (lstrip_split s) as [pre [_ [_ [Hn | [c [t [Ht Hc]]]]]]]; [exact Hn|].
    exfalso. rewrite Ht in H.
    assert (Hr : rev (lstrip db (rev (c :: t))) = []) by exact H.
    apply (f_equal (@rev Z)) in Hr. rewrite rev_involutive in Hr.
    change (rev (@nil Z)) with (@nil Z) in Hr.
    destruct (lstrip_split (rev (c :: t))) as [pre2 [Hs [Hf _]]].
    rewrite Hr, app_nil_r in Hs.
    apply (f_equal (@rev Z)) in Hs. rewrite rev_involutive in Hs.
    assert (Hin : List.In c (rev pre2)) by (rewrite <- Hs; simpl; auto).
    apply in_rev in Hin.
    rewrite List.Forall_forall in Hf. apply Hf in Hin. congruence.
  - rewrite H. reflexivity.
Qed.

End SymbolProofs.

(** C10: [_symbol_normalise] raises (ValueError) exactly on inputs that are
    empty or whitespace-only; on every other input it returns the input's
    alphanumeric characters, upper-cased ([str.upper], which may map one
    character to several), in order, which is the empty string when the
    input has no alphanumeric character (such as "./").  Whitespace and
    alphanumeric are taken from the Unicode database, of which the theorem
    assumes only what Python's database has: no whitespace character is
    alphanumeric. *)
Theorem symbol_normalise_spec (db : UnicodeDB) (s : pystr) :
  (forall c, ud_isspace db c = true -> ud_isalnum db c = false) ->
  ((exists err, _symbol_normalise db s = Err err)
      <-> Forall (fun c => ud_isspace db c = true) s)
  /\ (forall err, _symbol_normalise db s = Err err -> err = ValueError)
  /\ (~ Forall (fun c => ud_isspace db c = true) s ->
        _symbol_normalise db s = Ok (py_upper db (List.filter (ud_isalnum db) s)))
  /\ (~ Forall (fun c => ud_isspace db c = true) s ->
        Forall (fun c => ud_isalnum db c = false) s -> _symbol_normalise db s = Ok []).
Proof.
  intros Hsa.
  assert (Hok : ~ Forall (fun c => ud_isspace db c = true) s ->
                _symbol_normalise db s = Ok (py_upper db (List.filter (ud_isalnum db) s))).
  { intros Hn. unfold _symbol_normalise.
    destruct (py_strip db s) eqn:Hst.
    - exfalso. apply Hn, strip_nil_iff, Hst.
    - rewrite <- Hst, (filter_alnum_strip db Hsa). reflexivity. }
  split; [|split; [|split]].
  - unfold _symbol_normalise. split.
    + intros [err Herr]. apply strip_nil_iff.
      destruct (py_strip db s); [reflexivity | discriminate].
    + intros Hf. apply strip_nil_iff in Hf. rewrite Hf. eauto.
  - intros err. unfold _symbol_normalise.
    destruct (py_strip db s); congruence.
  - exact Hok.
  - intros Hn Ha. rewrite (Hok Hn).
    assert (List.filter (ud_isalnum db) s = []) as -> ; [|reflexivity].
    clear Hok Hn.
    induction Ha as [|c t Hc _ IH]; simpl; [reflexivity|]. rewrite Hc. exact IH.
Qed.

Lemma ascii_db_space_not_alnum (c : Z) :
  ud_isspace ascii_db c = true -> ud_isalnum ascii_db c = false.
Proof.
  cbn [ud_isspace ud_isalnum ascii_db]. intros H.
  apply not_true_is_false. intros H'.
  rewrite !orb_true_iff, !andb_true_iff, !Z.leb_le in H, H'. lia.
Qed.

Lemma symbol_normalise_spec_witness :
  (forall c, ud_isspace ascii_db c = true -> ud_isalnum ascii_db c = false)
  /\ _symbol_normalise ascii_db (pystr_of " eur/usd ")
     = Ok (py_upper ascii_db (List.filter (ud_isalnum ascii_db) (pystr_of " eur/usd "))).
Proof.
  split; [exact ascii_db_space_not_alnum|].
  apply (proj1 (proj2 (proj2 (symbol_normalise_spec ascii_db (pystr_of " eur/usd ")
                                 ascii_db_space_not_alnum)))).
  rewrite List.Forall_forall. intros H.
  specialize (H 101 ltac:(vm_compute; right; left; reflexivity)).
  vm_compute in H. discriminate H.
Defined.

(* ================================================================== *)
(** * Proofs: tick decoding *)

Lemma res_mapM_ok {A B} (f : A -> res B) (g : A -> B) (l : list A) :
  (forall x, List.In x l -> f x = Ok (g x)) -> res_mapM f l = Ok (map g l).
Proof.
  induction l as [|x l IH]; intros H; simpl; [reflexivity|].
  rewrite (H x (or_introl eq_refl)). simpl.
  rewrite IH by (intros y Hy; apply H; right; exact Hy). reflexivity.
Qed.

Lemma res_mapM_err {A B} (f : A -> res B) (l : list A) (e : PyErr) :
  (forall x e', f x = Err e' -> e' = e) ->
  (exists x, List.In x l /\ exists e', f x = Err e') ->
  res_mapM f l = Err e.
Proof.
  intros Hall. induction l as [|x l IH]; intros [y [Hy [e' He']]]; [destruct Hy|].
  simpl. destruct (f x) as [b|e0] eqn:Hfx; simpl.
  - destruct Hy as [<-|Hy]; [congruence|].
    rewrite IH; [reflexivity|]. eauto.
  - f_equal. eapply Hall; eauto.
Qed.

Lemma dt_add_err_only (t d : Z) (e : PyErr) : dt_add t d = Err e -> e = OverflowError.
Proof. unfold dt_add. destruct (_ && _); congruence. Qed.

Lemma effective_divisor_nonzero (d : option float) :
  PrimFloat.eqb (effective_divisor d) 0%float = false.
Proof.
  destruct d as [x|]; simpl; [|reflexivity].
  destruct (PrimFloat.eqb x 0%float) eqn:E; [reflexivity | exact E].
Qed.

(** C1 (amended).  Decoding [compressed]:
    - when decompression raises, that error is raised whatever the format;
    - when the decompressed length is not a multiple of 20: ValueError;
    - when it is, an unrecognised format: ValueError;
    - for "float" and "int", when every record's [hour_start + ms_offset]
      lies within datetime's range, one Tick per record in record order,
      [ts = hour_start + ms_offset] ms, prices the float32 fields ("float") or
      the int32 fields divided by the divisor ("int");
    - when some record's timestamp leaves datetime's range: OverflowError;
    - an unset or zero divisor is 1, and the divisor used is never 0. *)
Theorem decode_ticks_spec (lzma_decompress : bytes -> res bytes) (hour_start : Z)
    (compressed : bytes) (price_format : string) (price_divisor : option float) :
  let decode := _decode_ticks lzma_decompress hour_start compressed in
  (forall e, lzma_decompress compressed = Err e ->
     decode price_format price_divisor = Err e)
  /\ (forall raw, lzma_decompress compressed = Ok raw -> (length raw mod 20 <> 0)%nat ->
        decode price_format price_divisor = Err ValueError)
  /\ (forall raw, lzma_decompress compressed = Ok raw -> (length raw mod 20 = 0)%nat ->
        price_format <> "float" -> price_format <> "int" ->
        decode price_format price_divisor = Err ValueError)
  /\ (forall raw, lzma_decompress compressed = Ok raw -> (length raw mod 20 = 0)%nat ->
        (forall k, (k < length raw / 20)%nat -> rec_ts_in_range hour_start raw k) ->
        decode "float" price_divisor
        = Ok (map (fun k => mkTick (hour_start + rec_ms raw k * USEC_PER_MS)
                     (f32_of_bits (rec_word raw k 2)) (f32_of_bits (rec_word raw k 1))
                     (f32_of_bits (rec_word raw k 4)) (f32_of_bits (rec_word raw k 3)))
                  (seq 0 (length raw / 20)))
        /\ decode "int" price_divisor
        = Ok (map (fun k => mkTick (hour_start + rec_ms raw k * USEC_PER_MS)
                     (PrimFloat.div (float_of_int32 (int32_of_u32 (rec_word raw k 2)))
                                    (effective_divisor price_divisor))
                     (PrimFloat.div (float_of_int32 (int32_of_u32 (rec_word raw k 1)))
                                    (effective_divisor price_divisor))
                     (f32_of_bits (rec_word raw k 4)) (f32_of_bits (rec_word raw k 3)))
                  (seq 0 (length raw / 20))))
  /\ (forall raw, lzma_decompress compressed = Ok raw -> (length raw mod 20 = 0)%nat ->
        (exists k, (k < length raw / 20)%nat /\ ~ rec_ts_in_range hour_start raw k) ->
        decode "float" price_divisor = Err OverflowError
        /\ decode "int" price_divisor = Err OverflowError)
  /\ effective_divisor None = 1%float
  /\ effective_divisor (Some 0%float) = 1%float
  /\ PrimFloat.eqb (effective_divisor price_divisor) 0%float = false.
Proof.
  intros decode. unfold decode, _decode_ticks.
  split; [|split; [|split; [|split; [|split; [|split; [|split]]]]]].
  - intros e He. rewrite He. reflexivity.
  - intros raw Hr Hm. rewrite Hr. cbn [res_bind].
    destruct (Nat.eqb_spec (length raw mod 20) 0); [contradiction | reflexivity].
  - intros raw Hr Hm Hf Hi. rewrite Hr. cbn [res_bind].
    rewrite Hm. cbn [Nat.eqb negb].
    destruct (String.eqb_spec price_format "float"); [contradiction|].
    destruct (String.eqb_spec price_format "int"); [contradiction|]. reflexivity.
  - intros raw Hr Hm Hts. rewrite Hr. cbn [res_bind]. rewrite Hm. cbn [Nat.eqb negb].
    split; apply res_mapM_ok; intros k Hk; apply in_seq in Hk;
      specialize (Hts k ltac:(lia)); unfold rec_ts_in_range, rec_ms, rec_word in Hts;
      unfold decode_float_record, decode_int_record, rec_ms, rec_word;
      rewrite !Nat.add_0_r in *; simpl Nat.mul;
      rewrite dt_add_ok by exact Hts; reflexivity.
  - intros raw Hr Hm [k [Hk Hout]]. rewrite Hr. cbn [res_bind]. rewrite Hm. cbn [Nat.eqb negb].
    unfold rec_ts_in_range, rec_ms, rec_word in Hout. rewrite Nat.add_0_r in Hout.
    split; apply res_mapM_err.
    + intros x e'. unfold decode_float_record.
      destruct (dt_add _ _) eqn:E; simpl; [discriminate|].
      intros Heq. injection Heq as <-. eapply dt_add_err_only; eauto.
    + exists k. split; [apply in_seq; lia|].
      unfold decode_float_record. rewrite dt_add_err by exact Hout. eauto.
    + intros x e'. unfold decode_int_record.
      destruct (dt_add _ _) eqn:E; simpl; [discriminate|].
      intros Heq. injection Heq as <-. eapply dt_add_err_only; eauto.
    + exists k. split; [apply in_seq; lia|].
      unfold decode_int_record. rewrite dt_add_err by exact Hout. eauto.
  - reflexivity.
  - reflexivity.
  - apply effective_divisor_nonzero.
Qed.

Example decode_int_divisor_example :
  res_map (map (fun t => (ts t, bid t, ask t, bid_vol t, ask_vol t)))
    (_decode_ticks (fun _ => Ok test_int_records) HOUR test_int_records "int"
       (Some 100000%float))
  = Ok [(HOUR, 1.234%float, 1.2345%float, 12%float, 10%float);
        (HOUR + 250 * USEC_PER_MS, 1.2346%float, 1.235%float, 13%float, 11%float)].
Proof. vm_compute. reflexivity. Qed.

(** C1 counterexample.  (a) A payload whose single record has
    [ms_offset = -1], decoded for the hour starting at 0001-01-01T00:00:
    the length is a multiple of 20 and the format valid, yet no tick is
    returned: [hour_start + timedelta(milliseconds=-1)] raises OverflowError.
    (b) A payload that is not an LZMA stream (for example 64 zero bytes:
    [lzma.decompress] raises LZMAError) with format "nope": the error is the
    decompression error, not the invalid-argument error. *)
Lemma decode_ticks_cex :
  _decode_ticks (fun _ => Ok (be32 (-1) ++ be32 0 ++ be32 0 ++ be32 0 ++ be32 0))
    0 (repeat x00 64) "float" None = Err OverflowError
  /\ _decode_ticks (fun _ => Err LZMAError) HOUR (repeat x00 64) "nope" None
     = Err LZMAError.
Proof. split; vm_compute; reflexivity. Qed.

(* ================================================================== *)
(** * Proofs: format probe *)

(** C2: when the stream yields its first 20 bytes, the probe answers "int"
    (Int32Scaled) exactly when the ask or bid field read as a big-endian
    float32 is non-finite or both have magnitude below 1e-6, and "float"
    (Float32) otherwise; when fewer than 20 bytes come out (short read or
    early end of stream) it raises ValueError, and a stream that cannot be
    decompressed raises its decompression error. *)
Theorem probe_price_format_spec (lzma_read20 : bytes -> res bytes) (compressed : bytes) :
  let probe := _probe_price_format lzma_read20 compressed in
  (forall first, lzma_read20 compressed = Ok first -> length first = 20%nat ->
     let ask_f := f32_of_bits (u32_be first 4) in
     let bid_f := f32_of_bits (u32_be first 8) in
     (probe = Ok "int" <->
        is_finite ask_f = false \/ is_finite bid_f = false
        \/ (PrimFloat.ltb (PrimFloat.abs ask_f) PROBE_TINY = true
            /\ PrimFloat.ltb (PrimFloat.abs bid_f) PROBE_TINY = true))
     /\ (probe = Ok "int" \/ probe = Ok "float"))
  /\ (forall first, lzma_read20 compressed = Ok first -> (length first < 20)%nat ->
        probe = Err ValueError)
  /\ (lzma_read20 compressed = Err EOFError -> probe = Err ValueError)
  /\ (forall e, lzma_read20 compressed = Err e -> exists e', probe = Err e').
Proof.
  intros probe. unfold probe, _probe_price_format.
  split; [|split; [|split]].
  - intros first Hr Hl. rewrite Hr, Hl. cbn [Nat.ltb Nat.leb].
    set (ask_f := f32_of_bits (u32_be first 4)).
    set (bid_f := f32_of_bits (u32_be first 8)). clearbody ask_f bid_f.
    destruct (is_finite ask_f) eqn:Ha; destruct (is_finite bid_f) eqn:Hb;
      destruct (PrimFloat.ltb (PrimFloat.abs ask_f) PROBE_TINY) eqn:Hx;
      destruct (PrimFloat.ltb (PrimFloat.abs bid_f) PROBE_TINY) eqn:Hy; cbn;
      (split; [split; intros H; intuition congruence
              | first [left; reflexivity | right; reflexivity]]).
  - intros first Hr Hl. rewrite Hr.
    replace (length first <? 20)%nat with true by (symmetry; apply Nat.ltb_lt; exact Hl).
    reflexivity.
  - intros Hr. rewrite Hr. reflexivity.
  - intros e Hr. rewrite Hr. destruct e; eauto.
Qed.

Example probe_int_example :
  _probe_price_format (fun b => Ok (firstn 20 b)) first_record_int = Ok "int".
Proof. vm_compute. reflexivity. Qed.

Example probe_float_example :
  _probe_price_format (fun b => Ok (firstn 20 b)) first_record_float = Ok "float".
Proof. vm_compute. reflexivity. Qed.

Example probe_empty_example :
  _probe_price_format (fun _ => Err EOFError) [] = Err ValueError.
Proof. reflexivity. Qed.

(* ================================================================== *)
(** * Proofs: downloader *)

Lemma backoff_step (i : nat) :
  Z.min (backoff_delay i * RETRY_BACKOFF_FACTOR) RETRY_MAX_DELAY = backoff_delay (S i).
Proof.
  unfold backoff_delay, RETRY_BACKOFF_FACTOR, RETRY_MAX_DELAY.
  rewrite Nat2Z.inj_succ, Z.pow_succ_r by lia.
  assert (0 < 2 ^ Z.of_nat i) by (apply Z.pow_pos_nonneg; lia).
  destruct (Z.min_spec (500 * 2 ^ Z.of_nat i) 4000) as [[H1 ->]|[H1 ->]];
  destruct (Z.min_spec (500 * (2 * 2 ^ Z.of_nat i)) 4000) as [[H2 ->]|[H2 ->]];
  lia.
Qed.

Lemma backoff_delay_0 : backoff_delay 0 = RETRY_BASE_DELAY.
Proof. reflexivity. Qed.

Lemma retry_prefix_S (url : string) (i j : nat) :
  retry_prefix url i (S j) = EvGet url :: EvSleep (backoff_delay i) :: retry_prefix url (S i) j.
Proof. reflexivity. Qed.

Lemma http_get_eq (url : string) (w : World) :
  http_get url w
  = (hd TransportError (net w), mkWorld (cache w) (tl (net w)) (trace w ++ [EvGet url])).
Proof. unfold http_get. destruct (net w); reflexivity. Qed.

Lemma store_body_trace (cp : option string) (data : bytes) (w : World) r w' :
  store_body cp data w = (r, w') ->
  exists tail, trace w' = trace w ++ tail /\ Forall cache_event tail.
Proof.
  unfold store_body, path_touch, path_replace, path_write_bytes.
  destruct (Nat.eqb _ _); [|destruct (_ <? _)%nat];
    destruct cp as [p|]; intros H; injection H as <- <-; simpl;
    try (exists []; rewrite app_nil_r; split; [reflexivity | constructor]).
  - eexists; split; [reflexivity | repeat constructor].
  - eexists; split; [reflexivity | repeat constructor].
  - eexists; split; [rewrite <- app_assoc; reflexivity | repeat constructor].
Qed.

Lemma download_loop_shape (left : nat) :
  forall (i : nat) (url : string) (cp : option string) (w : World) r w',
    (0 < left)%nat ->
    download_loop left (backoff_delay i) url cp w = (r, w') ->
    exists j tail, (j < left)%nat
      /\ trace w' = trace w ++ retry_prefix url i j ++ [EvGet url] ++ tail
      /\ Forall cache_event tail.
Proof.
  induction left as [|left IH]; intros i url cp w r w' Hpos Hrun; [lia|].
  simpl in Hrun. rewrite http_get_eq in Hrun.
  set (w1 := mkWorld (cache w) (tl (net w)) (trace w ++ [EvGet url])) in Hrun.
  assert (Hretry :
    (match left with
     | O => (None, w1)
     | S _ => download_loop left (Z.min (backoff_delay i * RETRY_BACKOFF_FACTOR)
                                        RETRY_MAX_DELAY) url cp
                (time_sleep (backoff_delay i) w1)
     end) = (r, w') ->
    exists j tail, (j < S left)%nat
      /\ trace w' = trace w ++ retry_prefix url i j ++ [EvGet url] ++ tail
      /\ Forall cache_event tail).
  { destruct left as [|left0].
    - intros H; injection H as <- <-. exists 0%nat, [].
      split; [lia | split; [reflexivity | constructor]].
    - rewrite backoff_step. intros H.
      destruct (IH (S i) url cp _ r w' ltac:(lia) H) as [j [tail [Hj [Ht Hf]]]].
      exists (S j), tail. split; [lia | split; [|exact Hf]].
      rewrite Ht, retry_prefix_S. simpl.
      rewrite <- !app_assoc. reflexivity. }
  destruct (hd TransportError (net w)) as [code data|].
  - destruct (code =? 404).
    + injection Hrun as <- <-. exists 0%nat, [].
      split; [lia | split; [reflexivity | constructor]].
    + destruct (raises_for_status code); [exact (Hretry Hrun)|].
      destruct (store_body_trace cp data w1 r w' Hrun) as [tail [Ht Hf]].
      exists 0%nat, tail. split; [lia | split; [|exact Hf]].
      rewrite Ht. simpl. rewrite <- app_assoc. reflexivity.
  - exact (Hretry Hrun).
Qed.

Lemma download_loop_all_fail (left : nat) :
  forall (i : nat) (url : string) (cp : option string) (w : World) r w',
    Forall failed_response (firstn left (net w)) ->
    download_loop left (backoff_delay i) url cp w = (r, w') ->
    r = None /\ trace w' = trace w ++ retry_prefix url i (left - 1)
                          ++ (match left with O => [] | S _ => [EvGet url] end).
Proof.
  induction left as [|left IH]; intros i url cp w r w' Hfail Hrun.
  - simpl in Hrun. injection Hrun as <- <-. rewrite app_nil_r. auto.
  - simpl in Hrun. rewrite http_get_eq in Hrun.
    assert (Hhd : failed_response (hd TransportError (net w))
                  /\ Forall failed_response (firstn left (tl (net w)))).
    { destruct (net w) as [|r0 rest]; simpl in *.
      - split; [exact I | rewrite firstn_nil; constructor].
      - inversion Hfail; auto. }
    destruct Hhd as [Hhd Hrest].
    assert (Hret : forall res0,
      res0 = (match left with
              | O => (None, mkWorld (cache w) (tl (net w)) (trace w ++ [EvGet url]))
              | S _ => download_loop left (Z.min (backoff_delay i * RETRY_BACKOFF_FACTOR)
                                                 RETRY_MAX_DELAY) url cp
                         (time_sleep (backoff_delay i)
                            (mkWorld (cache w) (tl (net w)) (trace w ++ [EvGet url])))
              end) -> res0 = (r, w') ->
      r = None /\ trace w' = trace w ++ retry_prefix url i (S left - 1) ++ [EvGet url]).
    { intros res0 -> H. destruct left as [|left0].
      - injection H as <- <-. simpl. auto.
      - rewrite backoff_step in H.
        destruct (IH (S i) url cp (time_sleep (backoff_delay i)
                  (mkWorld (cache w) (tl (net w)) (trace w ++ [EvGet url]))) r w' Hrest H)
          as [Hr Ht].
        split; [exact Hr|]. rewrite Ht. simpl.
        replace (left0 - 0)%nat with left0 by lia.
        rewrite <- !app_assoc. reflexivity. }
    destruct (hd TransportError (net w)) as [code data|].
    + destruct Hhd as [H404 Hrs].
      replace (code =? 404) with false in Hrun by (symmetry; apply Z.eqb_neq; exact H404).
      rewrite Hrs in Hrun. exact (Hret _ eq_refl Hrun).
    + exact (Hret _ eq_refl Hrun).
Qed.

(** C9: on a cache miss, the attempts of one [_download_bi5] call are
    separated by sleeps of [backoff_delay 0], [backoff_delay 1], ...
    (0.5s doubling, capped at 4s), counted afresh from 0.5s by every call
    whatever the world it starts in; there are at most [retries] attempts and
    no sleep follows the last one; when every attempt fails the result is
    None (Missing). *)
Theorem download_bi5_backoff (url : string) (cp : option string) (retries : nat)
    (w : World) (r : option bytes) (w' : World) :
  match cp with Some p => cache w !! p = None | None => True end ->
  _download_bi5 url cp retries w = (r, w') ->
  ((0 < retries)%nat ->
     exists j tail, (j < retries)%nat
       /\ trace w' = trace w ++ retry_prefix url 0 j ++ [EvGet url] ++ tail
       /\ Forall cache_event tail)
  /\ (Forall failed_response (firstn retries (net w)) ->
      r = None
      /\ trace w' = trace w ++ retry_prefix url 0 (retries - 1)
                    ++ match retries with O => [] | S _ => [EvGet url] end).
Proof.
  intros Hmiss Hrun.
  assert (Hloop : download_loop retries (backoff_delay 0) url cp w = (r, w')).
  { unfold _download_bi5 in Hrun. rewrite backoff_delay_0.
    destruct cp as [p|]; [rewrite Hmiss in Hrun|]; exact Hrun. }
  split.
  - intros Hpos. exact (download_loop_shape retries 0 url cp w r w' Hpos Hloop).
  - intros Hf. exact (download_loop_all_fail retries 0 url cp w r w' Hf Hloop).
Qed.

Lemma download_bi5_backoff_witness :
  cache backoff_world !! "EURUSD/2025/00/01/00h_ticks.bi5" = None
  /\ Forall failed_response (firstn 3 (net backoff_world))
  /\ fst (_download_bi5 "u" (Some "EURUSD/2025/00/01/00h_ticks.bi5") 3 backoff_world) = None.
Proof.
  split; [reflexivity | split; [repeat constructor; discriminate|]].
  apply (download_bi5_backoff "u" (Some "EURUSD/2025/00/01/00h_ticks.bi5") 3 backoff_world
           (fst (_download_bi5 "u" (Some "EURUSD/2025/00/01/00h_ticks.bi5") 3 backoff_world))
           (snd (_download_bi5 "u" (Some "EURUSD/2025/00/01/00h_ticks.bi5") 3 backoff_world))).
  - reflexivity.
  - vm_compute. reflexivity.
  - repeat constructor; discriminate.
Defined.

(** Two consecutive calls: the second call's schedule starts again at 0.5s. *)
Example backoff_two_calls :
  let '(_, w1) := _download_bi5 "u1" None 2 backoff_world in
  let '(r2, w2) := _download_bi5 "u2" None 4 w1 in
  r2 = Some (repeat x00 80)
  /\ trace w2 = [EvGet "u1"; EvSleep 500; EvGet "u1";
                 EvGet "u2"; EvSleep 500; EvGet "u2"].
Proof. vm_compute. split; reflexivity. Qed.

(** C3: a cache entry, also a zero-byte one, is returned as it is with no
    effect at all (no request); on a miss a 404 is Missing after exactly one
    request; a 200 whose body is empty or shorter than 64 bytes is Empty and
    leaves a zero-byte cache entry; a 200 with a body of 64 bytes or more is
    that Payload, written to [path.tmp] and then renamed onto the path. *)
Theorem download_bi5_cache_classify (url p : string) (n : nat) (w : World) :
  (forall c, cache w !! p = Some c -> _download_bi5 url (Some p) n w = (Some c, w))
  /\ (cache w !! p = None -> forall body rest,
        net w = HTTPResponse 404 body :: rest ->
        _download_bi5 url (Some p) (S n) w
        = (None, mkWorld (cache w) rest (trace w ++ [EvGet url])))
  /\ (cache w !! p = None -> forall body rest,
        net w = HTTPResponse 200 body :: rest -> (length body < MIN_PAYLOAD)%nat ->
        _download_bi5 url (Some p) (S n) w
        = (Some [], mkWorld (<[p := []]> (cache w)) rest
                      (trace w ++ [EvGet url; EvTouch p])))
  /\ (cache w !! p = None -> forall body rest,
        net w = HTTPResponse 200 body :: rest -> (MIN_PAYLOAD <= length body)%nat ->
        _download_bi5 url (Some p) (S n) w
        = (Some body, mkWorld (<[p := body]> (delete (tmp_path p) (cache w))) rest
                        (trace w ++ [EvGet url; EvWrite (tmp_path p) body;
                                     EvReplace (tmp_path p) p]))).
Proof.
  split; [|split; [|split]].
  - intros c Hc. unfold _download_bi5. rewrite Hc. reflexivity.
  - intros Hm body rest Hn. unfold _download_bi5. rewrite Hm.
    simpl. rewrite http_get_eq, Hn. reflexivity.
  - intros Hm body rest Hn Hl. unfold _download_bi5. rewrite Hm.
    simpl. rewrite http_get_eq, Hn. simpl.
    unfold store_body, path_touch. simpl. rewrite Hm.
    rewrite <- app_assoc.
    destruct (Nat.eqb (length body) 0); [reflexivity|].
    replace (length body <? MIN_PAYLOAD)%nat with true
      by (symmetry; apply Nat.ltb_lt; exact Hl).
    reflexivity.
  - intros Hm body rest Hn Hl. unfold _download_bi5. rewrite Hm.
    simpl. rewrite http_get_eq, Hn. simpl.
    unfold store_body, path_replace, path_write_bytes. simpl.
    replace (Nat.eqb (length body) 0) with false
      by (symmetry; apply Nat.eqb_neq; unfold MIN_PAYLOAD in Hl; lia).
    replace (length body <? MIN_PAYLOAD)%nat with false
      by (symmetry; apply Nat.ltb_ge; exact Hl).
    rewrite lookup_insert_eq, delete_insert_eq, <- !app_assoc. reflexivity.
Qed.

(* ================================================================== *)
(** * Proofs: resampling *)

Lemma insert_key_In (k y : Z) (l : list Z) :
  In y (insert_key k l) <-> y = k \/ In y l.
Proof.
  induction l as [|x l IH]; simpl.
  - intuition congruence.
  - destruct (k <? x) eqn:E1; simpl; [intuition congruence|].
    destruct (k =? x) eqn:E2.
    + apply Z.eqb_eq in E2. subst. simpl. intuition congruence.
    + simpl. rewrite IH. tauto.
Qed.

Lemma insert_key_hd (a k : Z) (l : list Z) :
  HdRel Z.lt a l -> a < k -> HdRel Z.lt a (insert_key k l).
Proof.
  intros Hd Hak. destruct l as [|x l]; simpl.
  - constructor. exact Hak.
  - destruct (k <? x); [constructor; exact Hak|].
    destruct (k =? x); [exact Hd|].
    inversion Hd; subst. constructor. assumption.
Qed.

Lemma insert_key_sorted (k : Z) (l : list Z) :
  Sorted Z.lt l -> Sorted Z.lt (insert_key k l).
Proof.
  induction l as [|x l IH]; intros Hs; simpl.
  - repeat constructor.
  - destruct (k <? x) eqn:E1.
    + constructor; [exact Hs|]. constructor. apply Z.ltb_lt. exact E1.
    + destruct (k =? x) eqn:E2; [exact Hs|].
      inversion Hs; subst. constructor.
      * apply IH. assumption.
      * apply insert_key_hd; [assumption|].
        apply Z.ltb_ge in E1. apply Z.eqb_neq in E2. lia.
Qed.

Section ResampleProofs.
Context {P : Type} `{PriceArith P}.

Lemma bucket_keys_In (o : Z) (w : positive) (stamps : list Z) (k : Z) :
  In k (bucket_keys o w stamps) <-> exists s, In s stamps /\ bucket_start o w s = k.
Proof.
  unfold bucket_keys. induction stamps as [|s stamps IH]; simpl.
  - split; [tauto|]. intros (s & [] & _).
  - rewrite insert_key_In, IH. split.
    + intros [->|(s' & Hin & Hk)]; [exists s; tauto|exists s'; tauto].
    + intros (s' & [->|Hin] & Hk); [left; congruence|right; exists s'; tauto].
Qed.

Lemma bucket_keys_sorted (o : Z) (w : positive) (stamps : list Z) :
  Sorted Z.lt (bucket_keys o w stamps).
Proof.
  unfold bucket_keys. induction stamps as [|s stamps IH]; simpl.
  - constructor.
  - apply insert_key_sorted. exact IH.
Qed.

Lemma filter_series {B} (f : Z -> bool) (g : TickOf P -> B) (l : list (TickOf P)) :
  List.filter (fun e => f (fst e)) (map (fun t => (ts t, g t)) l)
  = map (fun t => (ts t, g t)) (List.filter (fun t => f (ts t)) l).
Proof.
  induction l as [|t l IH]; simpl; [reflexivity|].
  destruct (f (ts t)); simpl; rewrite IH; reflexivity.
Qed.

Lemma last_map {A B} (f : A -> B) (l : list A) (x : A) :
  List.last (map f l) (f x) = f (List.last l x).
Proof.
  revert x. induction l as [|y l IH]; intros x; [reflexivity|].
  destruct l as [|z l]; [reflexivity|].
  change (List.last (map f (z :: l)) (f x) = f (List.last (z :: l) x)).
  rewrite (IH x). reflexivity.
Qed.

Lemma flat_map_rows {B} (f : Z -> list (Z * B)) (keys : list Z) :
  (forall k, In k keys -> exists b, f k = [(k, b)]) ->
  map fst (flat_map f keys) = keys.
Proof.
  induction keys as [|k keys IH]; intros Hf; simpl; [reflexivity|].
  destruct (Hf k (or_introl eq_refl)) as [b ->]. simpl.
  f_equal. apply IH. intros k' Hk'. apply Hf. right. exact Hk'.
Qed.

Lemma filter_nonempty {A} (f : A -> bool) (l : list A) (x : A) :
  In x l -> f x = true -> List.filter f l <> [].
Proof.
  intros Hin Hfx Hnil. assert (Hx : In x (List.filter f l)) by (apply filter_In; tauto).
  rewrite Hnil in Hx. exact Hx.
Qed.

End ResampleProofs.


(* ================================================================== *)
(** * Proofs: merge *)

Section MergeProofs.
Context {B : Type}.

Lemma insert_row_perm (x : Z * B) (l : list (Z * B)) : Permutation (insert_row x l) (x :: l).
Proof.
  induction l as [|y l IH]; simpl; [reflexivity|].
  destruct (fst x <=? fst y); [reflexivity|].
  rewrite IH. constructor.
Qed.

Lemma sort_rows_perm (l : list (Z * B)) : Permutation (sort_rows l) l.
Proof.
  unfold sort_rows. induction l as [|x l IH]; simpl; [reflexivity|].
  rewrite insert_row_perm, IH. reflexivity.
Qed.

Lemma insert_row_sorted (x : Z * B) (l : list (Z * B)) :
  Sorted (fun a b : Z * B => fst a <= fst b) l ->
  Sorted (fun a b : Z * B => fst a <= fst b) (insert_row x l).
Proof.
  induction l as [|y l IH]; intros Hs; simpl.
  - repeat constructor.
  - destruct (fst x <=? fst y) eqn:E.
    + constructor; [exact Hs|]. constructor. apply Z.leb_le. exact E.
    + apply Z.leb_gt in E. inversion Hs as [|? ? Hs' Hd]; subst.
      constructor; [apply IH; exact Hs'|].
      destruct l as [|z l]; simpl; [constructor; lia|].
      destruct (fst x <=? fst z); constructor; [lia|].
      inversion Hd; assumption.
Qed.

Lemma sort_rows_sorted (l : list (Z * B)) :
  Sorted (fun a b : Z * B => fst a <= fst b) (sort_rows l).
Proof.
  unfold sort_rows. induction l as [|x l IH]; simpl; [constructor|].
  apply insert_row_sorted. exact IH.
Qed.

Lemma strongly_sorted_filter {A} (R : A -> A -> Prop) (f : A -> bool) (l : list A) :
  StronglySorted R l -> StronglySorted R (List.filter f l).
Proof.
  induction l as [|x l IH]; intros Hs; simpl; [constructor|].
  inversion Hs as [|? ? Hs' Hf]; subst.
  destruct (f x); [|apply IH; exact Hs'].
  constructor; [apply IH; exact Hs'|].
  apply List.Forall_forall. intros y Hy. apply filter_In in Hy as [Hy _].
  exact (proj1 (List.Forall_forall _ _) Hf y Hy).
Qed.

Lemma dedup_last_sub (l : list (Z * B)) (r : Z * B) : In r (dedup_last l) -> In r l.
Proof.
  induction l as [|x l IH]; simpl; [tauto|].
  destruct (existsb _ l); simpl; intuition.
Qed.

Lemma dedup_last_keys (l : list (Z * B)) (x : Z * B) :
  In x l -> In (fst x) (map fst (dedup_last l)).
Proof.
  revert x. induction l as [|a l IH]; intros x Hx; [destruct Hx|].
  simpl. destruct (existsb (fun y => fst y =? fst a) l) eqn:E.
  - destruct Hx as [<-|Hx]; [|apply IH; exact Hx].
    apply existsb_exists in E as (y & Hy & Hk). apply Z.eqb_eq in Hk.
    rewrite <- Hk. apply IH. exact Hy.
  - simpl. destruct Hx as [<-|Hx]; [left; reflexivity|right; apply IH; exact Hx].
Qed.

Lemma dedup_last_strict (l : list (Z * B)) :
  StronglySorted (fun a b : Z * B => fst a <= fst b) l ->
  StronglySorted (fun a b : Z * B => fst a < fst b) (dedup_last l).
Proof.
  induction l as [|x l IH]; intros Hs; simpl; [constructor|].
  inversion Hs as [|? ? Hs' Hf]; subst.
  destruct (existsb (fun y => fst y =? fst x) l) eqn:E; [apply IH; exact Hs'|].
  constructor; [apply IH; exact Hs'|].
  apply List.Forall_forall. intros y Hy. apply dedup_last_sub in Hy.
  pose proof (proj1 (List.Forall_forall _ _) Hf y Hy) as Hle.
  assert (Hne : fst y <> fst x).
  { intros Heq. assert (Hex : existsb (fun y => fst y =? fst x) l = true).
    { apply existsb_exists. exists y. split; [exact Hy|]. apply Z.eqb_eq. exact Heq. }
    congruence. }
  simpl in Hle. lia.
Qed.

Lemma dedup_last_split (l : list (Z * B)) (r : Z * B) :
  In r (dedup_last l) ->
  exists pre post, l = pre ++ r :: post /\ Forall (fun y => fst y <> fst r) post.
Proof.
  induction l as [|x l IH]; simpl; [tauto|].
  destruct (existsb (fun y => fst y =? fst x) l) eqn:E.
  - intros Hr. destruct (IH Hr) as (pre & post & -> & Hp).
    exists (x :: pre), post. split; [reflexivity|exact Hp].
  - intros [<-|Hr].
    + exists [], l. split; [reflexivity|].
      apply List.Forall_forall. intros y Hy Heq.
      assert (Hex : existsb (fun y => fst y =? fst x) l = true).
      { apply existsb_exists. exists y. split; [exact Hy|]. apply Z.eqb_eq. exact Heq. }
      congruence.
    + destruct (IH Hr) as (pre & post & -> & Hp).
      exists (x :: pre), post. split; [reflexivity|exact Hp].
Qed.

Lemma filter_split {A} (f : A -> bool) (l pre post : list A) (r : A) :
  List.filter f l = pre ++ r :: post ->
  exists pre' post', l = pre' ++ r :: post' /\ List.filter f post' = post.
Proof.
  revert pre. induction l as [|x l IH]; intros pre Hl; simpl in Hl.
  - destruct pre; discriminate.
  - destruct (f x) eqn:Efx.
    + destruct pre as [|p pre]; simpl in Hl; injection Hl as Hx Hl.
      * exists [], l. rewrite Hx. split; [reflexivity|exact Hl].
      * destruct (IH pre Hl) as (pre' & post' & -> & Hp).
        exists (x :: pre'), post'. split; [reflexivity|exact Hp].
    + destruct (IH pre Hl) as (pre' & post' & -> & Hp).
      exists (x :: pre'), post'. split; [reflexivity|exact Hp].
Qed.

Lemma strict_rows_sorted (l : list (Z * B)) :
  StronglySorted (fun a b : Z * B => fst a < fst b) l -> Sorted Z.lt (map fst l).
Proof.
  induction l as [|x l IH]; intros Hs; simpl; [constructor|].
  inversion Hs as [|? ? Hs' Hf]; subst.
  constructor; [apply IH; exact Hs'|].
  destruct l as [|y l]; simpl; constructor.
  inversion Hf; assumption.
Qed.

Lemma strict_rows_nodup (l : list (Z * B)) :
  StronglySorted (fun a b : Z * B => fst a < fst b) l -> List.NoDup (map fst l).
Proof.
  induction l as [|x l IH]; intros Hs; simpl; [constructor|].
  inversion Hs as [|? ? Hs' Hf]; subst.
  constructor; [|apply IH; exact Hs'].
  intros Hin. apply in_map_iff in Hin as (y & Hy & Hyl).
  pose proof (proj1 (List.Forall_forall _ _) Hf y Hyl). simpl in *. lia.
Qed.

End MergeProofs.

(** C7: whatever order pandas' sort leaves equal keys in, as long as it sorts
    the concatenation by bucket start, a successful merge (which needs at
    least one non-empty hour frame) has strictly increasing, duplicate-free
    bucket starts, all between [start_utc] and the last microsecond of the
    day [end_utc_inclusive] (that is [end_utc_inclusive + 1 day - 1us]); its
    rows are rows of the hour frames, every bucket start of the hour frames
    inside that range is kept, and the row kept for a bucket start is its
    last occurrence in the sorted concatenation. *)
Theorem merge_frames_spec {B : Type} (sort_index : list (Z * B) -> list (Z * B))
    (start_utc end_utc_inclusive : Z) (all_frames : list (list (Z * B)))
    (rows : list (Z * B)) :
  Permutation (sort_index (concat all_frames)) (concat all_frames) ->
  Sorted (fun a b : Z * B => fst a <= fst b) (sort_index (concat all_frames)) ->
  merge_frames sort_index start_utc end_utc_inclusive all_frames = Ok rows ->
  all_frames <> []
  /\ Sorted Z.lt (map fst rows)
  /\ List.NoDup (map fst rows)
  /\ Forall (fun r => start_utc <= fst r <= end_utc_inclusive + DAY - 1) rows
  /\ (forall r, In r rows -> In r (concat all_frames))
  /\ (forall x, In x (concat all_frames) ->
        start_utc <= fst x <= end_utc_inclusive + DAY - 1 -> In (fst x) (map fst rows))
  /\ (forall r, In r rows ->
        exists pre post, sort_index (concat all_frames) = pre ++ r :: post
                         /\ Forall (fun y => fst y <> fst r) post).
Proof.
  intros Hperm Hsort Hm.
  destruct all_frames as [|f0 fs] eqn:Ef; [discriminate|].
  rewrite <- Ef in *. unfold merge_frames in Hm. rewrite Ef in Hm. rewrite <- Ef in Hm.
  set (sorted := sort_index (concat all_frames)) in *.
  destruct (dt_add end_utc_inclusive DAY) as [hi1|e] eqn:E1; [|discriminate].
  cbn [res_bind] in Hm.
  destruct (dt_add hi1 (-1)) as [hi|e] eqn:E2; [|discriminate].
  cbn [res_bind] in Hm. injection Hm as <-.
  assert (Hhi : hi = end_utc_inclusive + DAY - 1).
  { unfold dt_add in E1, E2.
    destruct (_ && _) in E1; [|discriminate]. injection E1 as <-.
    destruct (_ && _) in E2; [|discriminate]. injection E2 as <-. lia. }
  assert (Hclip : forall r : Z * B, in_clip start_utc hi r = true <->
                            start_utc <= fst r <= end_utc_inclusive + DAY - 1).
  { intros r. unfold in_clip. rewrite andb_true_iff, Z.leb_le, Z.leb_le. lia. }
  assert (Hss : StronglySorted (fun a b : Z * B => fst a < fst b)
                  (dedup_last (List.filter (in_clip start_utc hi) sorted))).
  { apply dedup_last_strict, strongly_sorted_filter, Sorted_StronglySorted;
      [intros a b c; lia | exact Hsort]. }
  split; [rewrite Ef; discriminate|].
  split; [apply strict_rows_sorted; exact Hss|].
  split; [apply strict_rows_nodup; exact Hss|].
  split.
  { apply List.Forall_forall. intros r Hr. apply dedup_last_sub, filter_In in Hr as [_ Hr].
    apply Hclip. exact Hr. }
  split.
  { intros r Hr. apply dedup_last_sub, filter_In in Hr as [Hr _].
    apply (Permutation_in _ Hperm Hr). }
  split.
  { intros x Hx Hrange. apply dedup_last_keys, filter_In. split.
    - apply (Permutation_in _ (Permutation_sym Hperm) Hx).
    - apply Hclip. exact Hrange. }
  intros r Hr.
  pose proof (dedup_last_sub _ _ Hr) as Hr'. apply filter_In in Hr' as [_ Hrc].
  destruct (dedup_last_split _ _ Hr) as (pre & post & Hsplit & Hpost).
  destruct (filter_split _ _ _ _ _ Hsplit) as (pre' & post' & Hs & Hp).
  exists pre', post'. split; [exact Hs|].
  apply List.Forall_forall. intros y Hy Heq.
  assert (Hyc : in_clip start_utc hi y = true).
  { unfold in_clip in *. rewrite Heq. exact Hrc. }
  assert (Hyp : In y post).
  { rewrite <- Hp. apply filter_In. split; assumption. }
  exact (proj1 (List.Forall_forall _ _) Hpost y Hyp Heq).
Qed.

Lemma merge_frames_spec_witness :
  let frames := [[(3600, 1); (7200, 3)]; [(7200, 3); (0, 4)]; [(86400000000, 5)]] in
  Permutation (sort_rows (concat frames)) (concat frames)
  /\ Sorted (fun a b : Z * Z => fst a <= fst b) (sort_rows (concat frames))
  /\ merge_frames sort_rows 0 0 frames = Ok [(0, 4); (3600, 1); (7200, 3)]
  /\ Sorted Z.lt (map fst [(0, 4); (3600, 1); (7200, 3)]).
Proof.
  intros frames.
  assert (Hp : Permutation (sort_rows (concat frames)) (concat frames))
    by apply sort_rows_perm.
  assert (Hs : Sorted (fun a b : Z * Z => fst a <= fst b) (sort_rows (concat frames)))
    by apply sort_rows_sorted.
  assert (Hm : merge_frames sort_rows 0 0 frames = Ok [(0, 4); (3600, 1); (7200, 3)])
    by (vm_compute; reflexivity).
  split; [exact Hp|]. split; [exact Hs|]. split; [exact Hm|].
  exact (proj1 (proj2 (merge_frames_spec sort_rows 0 0 frames _ Hp Hs Hm))).
Defined.

(* ================================================================== *)
(** * Proofs: the drain loop *)

Lemma processed_app (l1 l2 : list DrainEvent) :
  processed (l1 ++ l2) = processed l1 ++ processed l2.
Proof. unfold processed. apply flat_map_app. Qed.

Section DrainProofs.
Context (lzma_decompress lzma_read20 : bytes -> res bytes)
        (price_divisor : option float) (width : positive) (price_side : string)
        (cache_enabled : bool) (cache_exists : Z -> bool) (refetch : Z -> option bytes).

Let process := process_hour lzma_decompress lzma_read20 price_divisor width price_side
                 cache_enabled cache_exists refetch.
Let drain' := drain lzma_decompress lzma_read20 price_divisor width price_side
                cache_enabled cache_exists refetch.

Lemma process_hour_frame (st : DrainState) (h : Z) (comp : option bytes) :
  match process st h comp with
  | Continue st' => same_frame st st' /\ progress_of st' = S (progress_of st)
  | Raised st' _ => same_frame st st' /\ progress_of st' = progress_of st
  end.
Proof.
  unfold process, process_hour, after_decode.
  destruct comp as [c|]; [|unfold same_frame; simpl; auto].
  destruct (Nat.eqb (length c) 0); [unfold same_frame; simpl; auto|].
  destruct (match detected_format (map_counters incr_downloaded st) with
            | Some f => Ok f | None => _probe_price_format lzma_read20 c end) as [fmt|e];
    [|unfold same_frame; simpl; auto].
  cbn zeta.
  assert (Hafter : forall st0 ticks, same_frame st st0 -> progress_of st0 = progress_of st ->
            match (match _ticks_to_candles ticks width price_side with
                   | Ok (_, rows) => Continue (map_counters advance
                       match rows with [] => st0 | _ => append_frame rows (map_counters incr_nonempty st0) end)
                   | Err e => Raised st0 e end) with
            | Continue st' => same_frame st st' /\ progress_of st' = S (progress_of st)
            | Raised st' _ => same_frame st st' /\ progress_of st' = progress_of st
            end).
  { intros st0 ticks [H1 [H2 H3]] Hp.
    destruct (_ticks_to_candles ticks width price_side) as [[cols rows]|e]; [|split; [split; auto|exact Hp]].
    destruct rows; unfold same_frame, progress_of in *; simpl; rewrite ?H1, ?H2, ?H3, ?Hp; auto. }
  destruct (_decode_ticks lzma_decompress h c fmt price_divisor) as [ticks|e].
  { apply Hafter; unfold same_frame; simpl; auto. }
  set (st1 := log_drain (EvRefetch h)
                (if cache_enabled && cache_exists h
                 then log_drain (EvUnlink h) (set_format fmt (map_counters incr_downloaded st))
                 else set_format fmt (map_counters incr_downloaded st))).
  assert (H1 : same_frame st st1 /\ progress_of st1 = progress_of st).
  { subst st1. unfold same_frame, progress_of.
    destruct (cache_enabled && cache_exists h); simpl;
      rewrite ?processed_app; simpl; rewrite ?app_nil_r; auto. }
  destruct e; try (unfold same_frame; simpl; auto; fail).
  fold st1. clearbody st1. destruct (refetch h) as [c2|].
  - destruct (_decode_ticks lzma_decompress h c2 fmt price_divisor) as [ticks|e2].
    + apply Hafter; apply H1.
    + destruct H1 as [[Ha [Hb Hc]] Hp]. unfold same_frame, progress_of in *; simpl.
      rewrite Ha, Hb, Hc, Hp. auto.
  - destruct H1 as [[Ha [Hb Hc]] Hp]. unfold same_frame, progress_of in *; simpl.
    rewrite Ha, Hb, Hc, Hp. auto.
Qed.

Lemma firstn_S_nth {A} (l : list A) (n : nat) (x : A) :
  nth_error l n = Some x -> firstn (S n) l = firstn n l ++ [x].
Proof.
  revert n. induction l as [|a l IH]; intros [|n] Hn; simpl in *; try discriminate.
  - injection Hn as ->. reflexivity.
  - rewrite (IH n Hn). reflexivity.
Qed.

Lemma nodup_nth_not_in_firstn {A} (l : list A) (n : nat) (x : A) :
  List.NoDup l -> nth_error l n = Some x -> ~ In x (firstn n l).
Proof.
  revert n. induction l as [|a l IH]; intros [|n] Hnd Hn; simpl in *; try discriminate; try tauto.
  inversion Hnd as [|? ? Hna Hnd']; subst.
  intros [->|Hin].
  - apply Hna. apply (nth_error_In _ _ Hn).
  - exact (IH n Hnd' Hn Hin).
Qed.

Lemma drain_step_inv (hours seen : list Z) (st st' : DrainState) (h : Z) (comp : option bytes) :
  drain_inv hours seen st ->
  nth_error hours (next_to_process st) = Some h ->
  hour_data st !! h = Some comp ->
  same_frame (pop_hour h st) st' ->
  (progress_of st' = S (progress_of (pop_hour h st)) -> drain_inv hours seen st')
  /\ (progress_of st' = progress_of (pop_hour h st) -> raised_inv hours seen st').
Proof.
  intros (Hp & Hle & Hprog & Hseen & Hcov & Hdom) Hn Hl (Hd & Hnx & Hpr).
  simpl in Hd, Hnx, Hpr. rewrite processed_app in Hpr. simpl in Hpr.
  assert (Hlt : (next_to_process st < length hours)%nat)
    by (apply nth_error_Some; congruence).
  assert (Hhs : In h seen) by (apply Hdom; rewrite Hl; eexists; reflexivity).
  assert (Hp' : processed (drain_log st') = firstn (next_to_process st') hours).
  { rewrite Hpr, Hnx, Hp. symmetry. apply firstn_S_nth. exact Hn. }
  assert (Hseen' : forall h', In h' (processed (drain_log st')) -> In h' seen).
  { intros h' Hh'. rewrite Hpr in Hh'. apply in_app_or in Hh' as [Hh'|[<-|[]]].
    - apply Hseen. exact Hh'.
    - exact Hhs. }
  unfold progress_of in *. simpl.
  split; intros Hq.
  - repeat split.
    + exact Hp'.
    + rewrite Hnx. lia.
    + unfold progress_of. rewrite Hq, Hnx, Hprog. reflexivity.
    + exact Hseen'.
    + intros h' Hh'. rewrite Hd, Hpr.
      destruct (decide (h' = h)) as [->|Hne].
      * left. apply in_or_app. right. left. reflexivity.
      * destruct (Hcov h' Hh') as [Hin|Hsome].
        -- left. apply in_or_app. left. exact Hin.
        -- right. rewrite lookup_delete_ne by congruence. exact Hsome.
    + intros h' [v Hv]. rewrite Hd in Hv. apply lookup_delete_Some in Hv as [_ Hv].
      apply Hdom. eexists. exact Hv.
  - repeat split.
    + exact Hp'.
    + rewrite Hnx. lia.
    + unfold progress_of. rewrite Hq, Hnx, Hprog. reflexivity.
    + exact Hseen'.
Qed.

Lemma drain_ok (hours seen : list Z) (fuel : nat) (st : DrainState) :
  drain_inv hours seen st ->
  match drain' hours fuel st with
  | Continue st' => drain_inv hours seen st'
                    /\ ((length hours <= fuel + next_to_process st)%nat -> drain_stopped hours st')
  | Raised st' _ => raised_inv hours seen st'
  end.
Proof.
  unfold drain'. revert st. induction fuel as [|fuel IH]; intros st Hinv; simpl.
  - split; [exact Hinv|]. intros Hle. unfold drain_stopped.
    replace (nth_error hours (next_to_process st)) with (@None Z)
      by (symmetry; apply nth_error_None; lia).
    exact I.
  - destruct (nth_error hours (next_to_process st)) as [h|] eqn:Hn.
    2: { split; [exact Hinv|]. intros _. unfold drain_stopped. rewrite Hn. exact I. }
    destruct (hour_data st !! h) as [comp|] eqn:Hl.
    2: { split; [exact Hinv|]. intros _. unfold drain_stopped. rewrite Hn. exact Hl. }
    pose proof (process_hour_frame (pop_hour h st) h comp) as Hf.
    unfold process in Hf.
    destruct (process_hour lzma_decompress lzma_read20 price_divisor width price_side
                cache_enabled cache_exists refetch (pop_hour h st) h comp) as [st'|st' e].
    + destruct Hf as [Hsf Hpg].
      assert (Hinv' : drain_inv hours seen st')
        by exact (proj1 (drain_step_inv hours seen st st' h comp Hinv Hn Hl Hsf) Hpg).
      pose proof (IH st' Hinv') as IH'.
      destruct (drain lzma_decompress lzma_read20 price_divisor width price_side
                  cache_enabled cache_exists refetch hours fuel st') as [st''|st'' e];
        [|exact IH'].
      destruct IH' as [Hi Hs]. split; [exact Hi|].
      intros Hle. apply Hs. destruct Hsf as (_ & Hnx & _). rewrite Hnx. simpl. lia.
    + destruct Hf as [Hsf Hpg].
      exact (proj2 (drain_step_inv hours seen st st' h comp Hinv Hn Hl Hsf) Hpg).
Qed.

Lemma store_inv (hours seen : list Z) (st : DrainState) (h : Z) (c : option bytes) :
  drain_inv hours seen st -> drain_inv hours (seen ++ [h]) (store_result h c st).
Proof.
  intros (Hp & Hle & Hprog & Hseen & Hcov & Hdom).
  unfold drain_inv, store_result, progress_of in *; simpl.
  repeat split; try assumption.
  - intros h' Hh'. apply in_or_app. left. apply Hseen. exact Hh'.
  - intros h' Hh'. destruct (decide (h' = h)) as [->|Hne].
    + right. rewrite lookup_insert_eq. eexists. reflexivity.
    + apply in_app_or in Hh' as [Hh'|[Heq|[]]]; [|congruence].
      rewrite lookup_insert_ne by congruence. apply Hcov. exact Hh'.
  - intros h' Hh'. destruct (decide (h' = h)) as [->|Hne].
    + apply in_or_app. right. left. reflexivity.
    + rewrite lookup_insert_ne in Hh' by congruence. apply in_or_app. left. apply Hdom. exact Hh'.
Qed.

Lemma raised_inv_mono (hours seen more : list Z) (st : DrainState) :
  raised_inv hours seen st -> raised_inv hours (seen ++ more) st.
Proof.
  intros (Hp & Hle & Hprog & Hseen). repeat split; try assumption.
  intros h Hh. apply in_or_app. left. apply Hseen. exact Hh.
Qed.

Lemma fold_raised (hours : list Z) (rest : list (Z * option bytes)) (st : DrainState) (e : PyErr) :
  fold_left (on_complete lzma_decompress lzma_read20 price_divisor width price_side
               cache_enabled cache_exists refetch hours) rest (Raised st e) = Raised st e.
Proof. induction rest as [|x rest IH]; simpl; [reflexivity|exact IH]. Qed.

Lemma fold_ok (hours : list Z) (rest done : list (Z * option bytes)) (st : DrainState) :
  drain_inv hours (map fst done) st -> drain_stopped hours st ->
  match fold_left (on_complete lzma_decompress lzma_read20 price_divisor width price_side
                     cache_enabled cache_exists refetch hours) rest (Continue st) with
  | Continue st' => drain_inv hours (map fst (done ++ rest)) st' /\ drain_stopped hours st'
  | Raised st' _ => raised_inv hours (map fst (done ++ rest)) st'
  end.
Proof.
  revert done st. induction rest as [|[h c] rest IH]; intros done st Hinv Hst; simpl.
  - rewrite app_nil_r. split; assumption.
  - pose proof (store_inv hours (map fst done) st h c Hinv) as Hs.
    pose proof (drain_ok hours _ (length hours) (store_result h c st) Hs) as Hd.
    unfold drain' in Hd.
    replace (done ++ (h, c) :: rest) with ((done ++ [(h, c)]) ++ rest)
      by (rewrite <- app_assoc; reflexivity).
    destruct (drain lzma_decompress lzma_read20 price_divisor width price_side
                cache_enabled cache_exists refetch hours (length hours) (store_result h c st))
      as [st'|st' e].
    + destruct Hd as [Hi Hstop]. apply IH.
      * rewrite map_app. exact Hi.
      * apply Hstop. lia.
    + rewrite fold_raised, !map_app. simpl. apply raised_inv_mono. exact Hd.
Qed.

Lemma drain_init_ok (hours : list Z) :
  drain_inv hours [] drain_init /\ drain_stopped hours drain_init.
Proof.
  split.
  - unfold drain_inv, drain_init, progress_of; simpl.
    repeat split; try lia; try (intros ? []; fail).
    intros ? [? Hv]. rewrite lookup_empty in Hv. discriminate.
  - unfold drain_stopped, drain_init; simpl.
    destruct hours; [exact I|apply lookup_empty].
Qed.

(** Once a run is over, all hours consumed so far came out in the order of
    [hours_to_fetch], whatever the completion order, and only after their
    download completed; each consumed hour advanced the progress counter
    once, except the one whose processing raised when the run ends by an
    exception, and a run that raises nothing consumes every hour and ends
    with the counter at the number of hours. *)
Theorem drain_run_order (hours : list Z) (completions : list (Z * option bytes)) :
  match drain_run lzma_decompress lzma_read20 price_divisor width price_side
          cache_enabled cache_exists refetch hours completions with
  | Continue st =>
      processed (drain_log st) = firstn (next_to_process st) hours
      /\ progress_of st = length (processed (drain_log st))
      /\ (forall h, In h (processed (drain_log st)) -> In h (map fst completions))
      /\ (List.NoDup hours -> (forall h, In h hours -> In h (map fst completions)) ->
          processed (drain_log st) = hours /\ progress_of st = length hours)
  | Raised st _ =>
      processed (drain_log st) = firstn (next_to_process st) hours
      /\ S (progress_of st) = length (processed (drain_log st))
      /\ (forall h, In h (processed (drain_log st)) -> In h (map fst completions))
  end.
Proof.
  unfold drain_run.
  destruct (drain_init_ok hours) as [Hi Hs].
  pose proof (fold_ok hours completions [] drain_init Hi Hs) as Hf.
  simpl in Hf.
  destruct (fold_left _ completions (Continue drain_init)) as [st|st e].
  - destruct Hf as [(Hp & Hle & Hprog & Hseen & Hcov & Hdom) Hstop].
    assert (Hlen : length (processed (drain_log st)) = next_to_process st)
      by (rewrite Hp; apply firstn_length_le; exact Hle).
    split; [exact Hp|]. split; [rewrite Hlen; exact Hprog|]. split; [exact Hseen|].
    intros Hnd Hall.
    assert (Hn : next_to_process st = length hours).
    { unfold drain_stopped in Hstop.
      destruct (nth_error hours (next_to_process st)) as [h|] eqn:Hn.
      - exfalso. pose proof (nth_error_In _ _ Hn) as Hh.
        destruct (Hcov h (Hall h Hh)) as [Hin|[v Hv]]; [|congruence].
        rewrite Hp in Hin. exact (nodup_nth_not_in_firstn _ _ _ Hnd Hn Hin).
      - apply nth_error_None in Hn. lia. }
    split.
    + rewrite Hp, Hn. apply firstn_all.
    + rewrite Hprog. exact Hn.
  - destruct Hf as (Hp & Hle & Hprog & Hseen).
    split; [exact Hp|]. split; [|exact Hseen].
    rewrite Hp, firstn_length_le by exact Hle. exact Hprog.
Qed.

Lemma set_format_same (f : string) (st : DrainState) :
  detected_format st = Some f -> set_format f st = st.
Proof. destruct st; simpl; intros ->; reflexivity. Qed.

(** Self-heal of an hour once the price format is known: a non-empty payload
    whose decoding raises a decompression error has its cache file deleted
    (when there is one) and is downloaded once more; if that download gives
    nothing the hour only advances the progress counter, and if its payload
    fails to decode too the hour is counted as decode_failed; in both cases
    the loop goes on. *)
Theorem process_hour_self_heal (st : DrainState) (h : Z) (c : bytes) (f : string) :
  detected_format st = Some f -> c <> [] ->
  _decode_ticks lzma_decompress h c f price_divisor = Err LZMAError ->
  let st1 := log_drain (EvRefetch h)
               (if cache_enabled && cache_exists h
                then log_drain (EvUnlink h) (map_counters incr_downloaded st)
                else map_counters incr_downloaded st) in
  (refetch h = None ->
     process st h (Some c) = Continue (map_counters advance st1))
  /\ (forall c2 e2, refetch h = Some c2 ->
        _decode_ticks lzma_decompress h c2 f price_divisor = Err e2 ->
        process st h (Some c) = Continue (map_counters advance (map_counters incr_decode_failed st1))).
Proof.
  intros Hf Hc Hd st1.
  assert (Hfmt : detected_format (map_counters incr_downloaded st) = Some f) by exact Hf.
  assert (Hlen : Nat.eqb (length c) 0 = false)
    by (apply Nat.eqb_neq; destruct c; [congruence|discriminate]).
  unfold process, process_hour. rewrite Hlen, Hfmt. cbn zeta.
  rewrite (set_format_same f _ Hfmt), Hd.
  split.
  - intros Hr. rewrite Hr. reflexivity.
  - intros c2 e2 Hr Hd2. rewrite Hr, Hd2. reflexivity.
Qed.

End DrainProofs.

(** C4 counterexample.  Over the day 0001-01-01, hour 0 is a corrupt cached
    file (64 zero bytes) and hour 1 a good payload; a second download of
    hour 0 would have given good data.  Hour 0 is the first non-empty hour,
    so the format probe, which runs outside the [try], raises LZMAError: the
    run ends with that exception, the cache file is neither deleted nor
    downloaded again, and no hour is counted as decode_failed.  With the two
    payloads swapped, the probe succeeds on hour 0 and the corrupt hour 1 is
    skipped: the run produces the bar of hour 0. *)
Lemma export_range_probe_abort_cex :
  export_range toy_lzma toy_lzma_read20 None 60000000 "bid" true (fun _ => true)
    (fun _ => Some sample_payload) ascii_db sort_rows (pool_in_order dl_corrupt_first) EURUSD 0 0
  = Err LZMAError
  /\ match drain_run toy_lzma toy_lzma_read20 None 60000000 "bid" true (fun _ => true)
            (fun _ => Some sample_payload) (hour_seq 0 24)
            (pool_in_order dl_corrupt_first (hour_seq 0 24)) with
     | Raised st e => e = LZMAError /\ drain_log st = [EvProcess 0]
                      /\ hours_decode_failed (counters st) = O
     | Continue _ => False
     end
  /\ export_range toy_lzma toy_lzma_read20 None 60000000 "bid" true (fun _ => true)
       (fun _ => None) ascii_db sort_rows (pool_in_order dl_corrupt_second) EURUSD 0 0
     = Ok [(0, mkBar 123400%float 123460%float 123400%float 123460%float 50%float)].
Proof. split; [|split]; vm_compute; repeat split; reflexivity. Qed.

(** C5 counterexample.  Two hours; hour 1 completes first and waits, then
    hour 0 completes with a corrupt payload.  Hour 0 is consumed, but the
    format probe raises LZMAError before any progress advance: the run ends
    with the counter at 0 of 2 hours, hour 1 never consumed. *)
Lemma drain_progress_cex :
  match drain_run toy_lzma toy_lzma_read20 None 60000000 "bid" true (fun _ => true)
          (fun _ => Some sample_payload) [0; HOUR]
          [(HOUR, Some sample_payload); (0, Some corrupt_payload)] with
  | Raised st e => e = LZMAError /\ processed (drain_log st) = [0] /\ progress_of st = O
  | Continue _ => False
  end.
Proof. vm_compute. repeat split; reflexivity. Qed.

Lemma drain_run_order_witness :
  List.NoDup [0; HOUR]
  /\ (forall h, In h [0; HOUR] -> In h (map fst [(HOUR, None); (0, Some sample_payload)]))
  /\ match drain_run toy_lzma toy_lzma_read20 None 60000000 "bid" true (fun _ => true)
             (fun _ => None) [0; HOUR] [(HOUR, None); (0, Some sample_payload)] with
     | Continue st => progress_of st = length [0; HOUR]
     | Raised _ _ => False
     end.
Proof.
  assert (Hnd : List.NoDup [0; HOUR]).
  { constructor; [|constructor; [intros []|constructor]].
    simpl. intros [H|[]]. discriminate. }
  assert (Hall : forall h, In h [0; HOUR] ->
                 In h (map fst [(HOUR, None); (0, Some sample_payload)])).
  { simpl. intros h [<-|[<-|[]]]; auto. }
  split; [exact Hnd|]. split; [exact Hall|].
  pose proof (drain_run_order toy_lzma toy_lzma_read20 None 60000000 "bid" true (fun _ => true)
                (fun _ => None) [0; HOUR] [(HOUR, None); (0, Some sample_payload)]) as T.
  destruct (drain_run toy_lzma toy_lzma_read20 None 60000000 "bid" true (fun _ => true)
              (fun _ => None) [0; HOUR] [(HOUR, None); (0, Some sample_payload)]) eqn:E.
  - exact (proj2 (proj2 (proj2 (proj2 T)) Hnd Hall)).
  - vm_compute in E. discriminate E.
Defined.

Lemma process_hour_self_heal_witness :
  detected_format (set_format "int" drain_init) = Some "int"
  /\ corrupt_payload <> []
  /\ _decode_ticks toy_lzma 0 corrupt_payload "int" None = Err LZMAError
  /\ process_hour toy_lzma toy_lzma_read20 None 60000000 "bid" true (fun _ => true)
       (fun _ => None) (set_format "int" drain_init) 0 (Some corrupt_payload)
     = Continue (map_counters advance (log_drain (EvRefetch 0) (log_drain (EvUnlink 0)
         (map_counters incr_downloaded (set_format "int" drain_init))))).
Proof.
  assert (Hf : detected_format (set_format "int" drain_init) = Some "int") by reflexivity.
  assert (Hc : corrupt_payload <> []) by discriminate.
  assert (Hd : _decode_ticks toy_lzma 0 corrupt_payload "int" None = Err LZMAError)
    by (vm_compute; reflexivity).
  split; [exact Hf|]. split; [exact Hc|]. split; [exact Hd|].
  exact (proj1 (process_hour_self_heal toy_lzma toy_lzma_read20 None 60000000 "bid" true
                  (fun _ => true) (fun _ => None) (set_format "int" drain_init) 0
                  corrupt_payload "int" Hf Hc Hd) eq_refl).
Defined.

(* ================================================================== *)
(** * Proofs: the calendar and the URL of an hour *)

Lemma all_days : range_check day_ok 1 (Z.to_nat DI400Y) = true.
Proof. vm_compute. reflexivity. Qed.

Lemma range_check_spec (f : Z -> bool) (lo : Z) (n : nat) :
  range_check f lo n = true -> forall z, lo <= z < lo + Z.of_nat n -> f z = true.
Proof.
  revert lo. induction n as [|n IH]; intros lo Hc z Hz; simpl in *; [lia|].
  destruct (f lo) eqn:Ef; [|discriminate].
  destruct (Z.eq_dec z lo) as [->|Hne]; [exact Ef|].
  apply (IH (lo + 1) Hc). lia.
Qed.

Lemma is_leap_shift (y q : Z) : is_leap (y + 400 * q) = is_leap y.
Proof.
  unfold is_leap.
  replace (y + 400 * q) with (y + (100 * q) * 4) by lia. rewrite Z.mod_add by lia.
  replace (y + 100 * q * 4) with (y + (4 * q) * 100) by lia. rewrite Z.mod_add by lia.
  replace (y + 4 * q * 100) with (y + q * 400) by lia. rewrite Z.mod_add by lia.
  reflexivity.
Qed.

Lemma days_in_month_shift (y q m : Z) : days_in_month (y + 400 * q) m = days_in_month y m.
Proof. unfold days_in_month. rewrite is_leap_shift. reflexivity. Qed.

Lemma days_before_month_shift (y q m : Z) :
  days_before_month (y + 400 * q) m = days_before_month y m.
Proof. unfold days_before_month. rewrite is_leap_shift. reflexivity. Qed.

Lemma ord_to_ymd_shift (n q : Z) :
  1 <= n ->
  ord_to_ymd (n + DI400Y * q) =
  match ord_to_ymd n with (y, m, d) => (y + 400 * q, m, d) end.
Proof.
  intros Hn. unfold ord_to_ymd.
  replace (n + DI400Y * q - 1) with ((n - 1) + q * DI400Y) by lia.
  rewrite Z.div_add, Z.mod_add by (unfold DI400Y; lia).
  set (a := (n - 1) / DI400Y). set (r := (n - 1) mod DI400Y).
  set (n100 := r / DI100Y). set (r1 := r mod DI100Y).
  set (n4 := r1 / DI4Y). set (r2 := r1 mod DI4Y).
  set (n1 := r2 / 365). set (r3 := r2 mod 365).
  replace ((a + q) * 400 + 1 + n100 * 100 + n4 * 4 + n1)
    with ((a * 400 + 1 + n100 * 100 + n4 * 4 + n1) + 400 * q) by lia.
  set (Y := a * 400 + 1 + n100 * 100 + n4 * 4 + n1).
  destruct ((n1 =? 4) || (n100 =? 4)); [f_equal; f_equal; lia|].
  set (month := Z.shiftr (r3 + 50) 5).
  set (lp := (n1 =? 3) && (negb (n4 =? 24) || (n100 =? 3))).
  set (pre := List.nth (Z.to_nat month) _days_before_month 0
              + (if (month >? 2) && lp then 1 else 0)).
  rewrite days_in_month_shift.
  destruct (pre >? r3); reflexivity.
Qed.

Lemma ymd_to_ord_shift (y m d q : Z) :
  1 <= y -> ymd_to_ord (y + 400 * q) m d = ymd_to_ord y m d + DI400Y * q.
Proof.
  intros Hy. unfold ymd_to_ord, days_before_year. rewrite days_before_month_shift.
  replace (y + 400 * q - 1) with ((y - 1) + (100 * q) * 4) by lia.
  rewrite Z.div_add by lia.
  replace (y - 1 + 100 * q * 4) with ((y - 1) + (4 * q) * 100) by lia.
  rewrite Z.div_add by lia.
  replace (y - 1 + 4 * q * 100) with ((y - 1) + q * 400) by lia.
  rewrite Z.div_add by lia.
  unfold DI400Y. lia.
Qed.

(** Every ordinal from 1 on converts to a valid date that converts back. *)
Lemma ord_to_ymd_valid (n : Z) :
  1 <= n ->
  match ord_to_ymd n with
  | (y, m, d) => ymd_to_ord y m d = n /\ 1 <= y /\ 1 <= m <= 12 /\ 1 <= d <= days_in_month y m
  end.
Proof.
  intros Hn.
  set (q := (n - 1) / DI400Y). set (r := (n - 1) mod DI400Y + 1).
  assert (Hr : 1 <= r <= DI400Y) by
    (pose proof (Z.mod_pos_bound (n - 1) DI400Y ltac:(unfold DI400Y; lia)); lia).
  assert (Hq : 0 <= q) by (apply Z.div_pos; unfold DI400Y; lia).
  assert (En : n = r + DI400Y * q)
    by (pose proof (Z.div_mod (n - 1) DI400Y ltac:(unfold DI400Y; lia)); lia).
  pose proof (range_check_spec day_ok 1 _ all_days r) as Hok.
  rewrite Z2Nat.id in Hok by (unfold DI400Y; lia). specialize (Hok ltac:(lia)).
  unfold day_ok in Hok.
  rewrite En, ord_to_ymd_shift by lia.
  destruct (ord_to_ymd r) as [[y m] d].
  rewrite !andb_true_iff, !Z.leb_le, Z.eqb_eq in Hok.
  rewrite ymd_to_ord_shift by lia. rewrite days_in_month_shift. lia.
Qed.

Lemma fmt_02d_check :
  range_check (fun a => (parse_2d (fmt_02d a) =? a)
                        && (String.length (fmt_02d a) =? 2)%nat) 0 100 = true.
Proof. vm_compute. reflexivity. Qed.

Lemma fmt_02d_props (a : Z) :
  0 <= a < 100 -> parse_2d (fmt_02d a) = a /\ String.length (fmt_02d a) = 2%nat.
Proof.
  intros Ha. pose proof (range_check_spec _ 0 100 fmt_02d_check a ltac:(simpl; lia)) as H.
  apply andb_true_iff in H as [H1 H2]. apply Z.eqb_eq in H1. apply Nat.eqb_eq in H2. tauto.
Qed.

Lemma string_length_app' (s1 s2 : string) :
  String.length (s1 +:+ s2) = (String.length s1 + String.length s2)%nat.
Proof. induction s1 as [|c s1 IH]; simpl; [reflexivity|]. rewrite IH. reflexivity. Qed.

Lemma string_app_cancel_l (s t1 t2 : string) : s +:+ t1 = s +:+ t2 -> t1 = t2.
Proof. induction s as [|c s IH]; simpl; [tauto|]. intros H. injection H. exact IH. Qed.

Lemma string_app_inj_len (s1 s2 t1 t2 : string) :
  String.length s1 = String.length s2 -> s1 +:+ t1 = s2 +:+ t2 -> s1 = s2 /\ t1 = t2.
Proof.
  revert s2. induction s1 as [|c s1 IH]; intros [|c' s2] Hl H; simpl in *;
    try discriminate; [tauto|].
  injection H as -> H. injection Hl as Hl. destruct (IH s2 Hl H) as [-> ->]. tauto.
Qed.

Lemma string_app_inj_tail (s1 s2 t1 t2 : string) :
  String.length t1 = String.length t2 -> s1 +:+ t1 = s2 +:+ t2 -> s1 = s2 /\ t1 = t2.
Proof.
  intros Ht H. apply string_app_inj_len; [|exact H].
  apply (f_equal String.length) in H. rewrite !string_length_app' in H. lia.
Qed.

Lemma days_in_month_le (y m : Z) : days_in_month y m <= 31.
Proof.
  unfold days_in_month. destruct (_ && _); [lia|].
  destruct (Z.to_nat m) as [|[|[|[|[|[|[|[|[|[|[|[|[|k]]]]]]]]]]]]]; simpl; try lia.
  destruct k; simpl; lia.
Qed.

Lemma dt_hour_range (t : Z) : 0 <= dt_hour t <= 23.
Proof.
  unfold dt_hour. pose proof (Z.mod_pos_bound t DAY ltac:(unfold DAY, HOUR; lia)).
  split; [apply Z.div_pos; unfold HOUR in *; lia|].
  apply Z.lt_succ_r. apply Z.div_lt_upper_bound; unfold DAY, HOUR in *; lia.
Qed.

Lemma dt_ymd_valid (t : Z) :
  0 <= t ->
  match dt_ymd t with
  | (y, m, d) => ymd_to_ord y m d = t / DAY + 1 /\ 1 <= y /\ 1 <= m <= 12 /\ 1 <= d <= 31
  end.
Proof.
  intros Ht. unfold dt_ymd.
  pose proof (ord_to_ymd_valid (t / DAY + 1)
                ltac:(pose proof (Z.div_pos t DAY Ht ltac:(unfold DAY, HOUR; lia)); lia)) as H.
  destruct (ord_to_ymd (t / DAY + 1)) as [[y m] d].
  pose proof (days_in_month_le y m). lia.
Qed.

Lemma tick_url_shape (symbol : string) (t : Z) :
  0 <= t ->
  exists y m0 d h,
    _dukascopy_tick_url symbol t
    = BASE_URL +:+ "/" +:+ symbol +:+ "/" +:+ pretty y +:+ "/" +:+ fmt_02d m0 +:+ "/"
        +:+ fmt_02d d +:+ "/" +:+ fmt_02d h +:+ "h_ticks.bi5"
    /\ dt_ymd t = (y, m0 + 1, d) /\ h = dt_hour t
    /\ 1 <= y /\ 0 <= m0 <= 11 /\ 1 <= d <= 31 /\ 0 <= h <= 23.
Proof.
  intros Ht. pose proof (dt_ymd_valid t Ht) as Hv. unfold _dukascopy_tick_url.
  destruct (dt_ymd t) as [[y m] d].
  exists y, (m - 1), d, (dt_hour t).
  split; [reflexivity|]. split; [f_equal; f_equal; lia|]. split; [reflexivity|].
  pose proof (dt_hour_range t). lia.
Qed.

Lemma fmt_02d_two_digits_check :
  range_check (fun a => String.eqb (fmt_02d a) (two_digits a)) 0 100 = true.
Proof. vm_compute. reflexivity. Qed.

Lemma fmt_02d_two_digits (a : Z) : 0 <= a < 100 -> fmt_02d a = two_digits a.
Proof.
  intros Ha. apply String.eqb_eq.
  exact (range_check_spec _ 0 100 fmt_02d_two_digits_check a ltac:(simpl; lia)).
Qed.

(** X5: for any instant from 0001-01-01 on, the URL of its hour is
    BASE_URL/symbol/Y/MM/DD/HHh_ticks.bi5 where (Y, MM + 1, DD) is the
    calendar date of the instant (a valid date whose ordinal is the
    instant's day number), MM the zero-based month 00..11, DD the day and
    HH the hour 00..23 of the instant within its day; MM, DD and HH are
    written as two decimal digits, tens then units. *)
Theorem dukascopy_tick_url_fields (symbol : string) (t : Z) :
  0 <= t ->
  exists y m0 d h,
    _dukascopy_tick_url symbol t
    = BASE_URL +:+ "/" +:+ symbol +:+ "/" +:+ pretty y +:+ "/" +:+ two_digits m0 +:+ "/"
        +:+ two_digits d +:+ "/" +:+ two_digits h +:+ "h_ticks.bi5"
    /\ ymd_to_ord y (m0 + 1) d = t / DAY + 1
    /\ 1 <= y /\ 0 <= m0 <= 11 /\ 1 <= d <= days_in_month y (m0 + 1)
    /\ h = (t mod DAY) / HOUR /\ 0 <= h <= 23.
Proof.
  intros Ht. unfold _dukascopy_tick_url, dt_ymd.
  pose proof (ord_to_ymd_valid (t / DAY + 1)
                ltac:(pose proof (Z.div_pos t DAY Ht ltac:(unfold DAY, HOUR; lia)); lia)) as Hv.
  destruct (ord_to_ymd (t / DAY + 1)) as [[y m] d].
  pose proof (days_in_month_le y m). pose proof (dt_hour_range t).
  exists y, (m - 1), d, (dt_hour t).
  rewrite !fmt_02d_two_digits by lia.
  replace (m - 1 + 1) with m by lia.
  split; [reflexivity|]. unfold dt_hour in *. lia.
Qed.

Lemma dukascopy_tick_url_fields_witness :
  0 <= HOUR /\
  exists y m0 d h,
    _dukascopy_tick_url "EURUSD" HOUR
    = BASE_URL +:+ "/" +:+ "EURUSD" +:+ "/" +:+ pretty y +:+ "/" +:+ two_digits m0 +:+ "/"
        +:+ two_digits d +:+ "/" +:+ two_digits h +:+ "h_ticks.bi5"
    /\ ymd_to_ord y (m0 + 1) d = HOUR / DAY + 1
    /\ 1 <= y /\ 0 <= m0 <= 11 /\ 1 <= d <= days_in_month y (m0 + 1)
    /\ h = (HOUR mod DAY) / HOUR /\ 0 <= h <= 23.
Proof.
  split; [unfold HOUR; lia|]. apply (dukascopy_tick_url_fields "EURUSD" HOUR).
  unfold HOUR; lia.
Defined.

(** X6: two distinct hour-aligned instants from 0001-01-01 on never get the
    same URL for the same symbol. *)
Theorem dukascopy_tick_url_inj (symbol : string) (t1 t2 : Z) :
  0 <= t1 -> 0 <= t2 -> t1 mod HOUR = 0 -> t2 mod HOUR = 0 ->
  _dukascopy_tick_url symbol t1 = _dukascopy_tick_url symbol t2 -> t1 = t2.
Proof.
  intros H1 H2 A1 A2 Hu.
  destruct (tick_url_shape symbol t1 H1)
    as (y1 & m1 & d1 & h1 & U1 & Y1 & Hh1 & R1).
  destruct (tick_url_shape symbol t2 H2)
    as (y2 & m2 & d2 & h2 & U2 & Y2 & Hh2 & R2).
  rewrite U1, U2 in Hu.
  apply string_app_cancel_l in Hu. apply string_app_cancel_l in Hu.
  apply string_app_cancel_l in Hu. apply string_app_cancel_l in Hu.
  pose proof (fmt_02d_props m1 ltac:(lia)) as [Pm1 Lm1].
  pose proof (fmt_02d_props m2 ltac:(lia)) as [Pm2 Lm2].
  pose proof (fmt_02d_props d1 ltac:(lia)) as [Pd1 Ld1].
  pose proof (fmt_02d_props d2 ltac:(lia)) as [Pd2 Ld2].
  pose proof (fmt_02d_props h1 ltac:(lia)) as [Ph1 Lh1].
  pose proof (fmt_02d_props h2 ltac:(lia)) as [Ph2 Lh2].
  apply string_app_inj_tail in Hu as [Ey Hu];
    [|simpl; rewrite !string_length_app'; simpl; rewrite Lm1, Lm2, Ld1, Ld2, Lh1, Lh2;
      reflexivity].
  apply (inj pretty) in Ey.
  apply string_app_cancel_l with (s := "/") in Hu.
  apply string_app_inj_len in Hu as [Em Hu]; [|congruence].
  apply string_app_cancel_l with (s := "/") in Hu.
  apply string_app_inj_len in Hu as [Ed Hu]; [|congruence].
  apply string_app_cancel_l with (s := "/") in Hu.
  apply string_app_inj_len in Hu as [Eh _]; [|congruence].
  assert (m1 = m2) by congruence. assert (d1 = d2) by congruence.
  assert (Hh : dt_hour t1 = dt_hour t2) by congruence.
  assert (Ey' : dt_ymd t1 = dt_ymd t2) by congruence.
  pose proof (dt_ymd_valid t1 H1) as V1. pose proof (dt_ymd_valid t2 H2) as V2.
  rewrite Ey' in V1. destruct (dt_ymd t2) as [[y m] d].
  assert (Eq : t1 / DAY = t2 / DAY) by lia.
  unfold dt_hour in Hh.
  pose proof (Z.div_mod t1 DAY ltac:(unfold DAY, HOUR; lia)).
  pose proof (Z.div_mod t2 DAY ltac:(unfold DAY, HOUR; lia)).
  pose proof (Z.div_mod (t1 mod DAY) HOUR ltac:(unfold HOUR; lia)).
  pose proof (Z.div_mod (t2 mod DAY) HOUR ltac:(unfold HOUR; lia)).
  assert (M1 : (t1 mod DAY) mod HOUR = 0).
  { rewrite Z.mod_mod_divide; [exact A1| exists 24; reflexivity]. }
  assert (M2 : (t2 mod DAY) mod HOUR = 0).
  { rewrite Z.mod_mod_divide; [exact A2| exists 24; reflexivity]. }
  lia.
Qed.

(* ================================================================== *)
(** * Proofs: the frames of the bid and ask sides *)

Section CandleProofs.
Context {P : Type} `{PriceArith P}.

Lemma bucket_start_bounds (o : Z) (w : positive) (t : Z) :
  bucket_start o w t <= t < bucket_start o w t + Zpos w
  /\ (bucket_start o w t - o) mod Zpos w = 0.
Proof.
  unfold bucket_start.
  pose proof (Z.div_mod (t - o) (Zpos w) ltac:(lia)).
  pose proof (Z.mod_pos_bound (t - o) (Zpos w) ltac:(lia)).
  replace (o + (t - o) / Zpos w * Zpos w - o) with ((t - o) / Zpos w * Zpos w) by lia.
  rewrite Z.mod_mul by lia. lia.
Qed.

Lemma in_bucket_interval (o : Z) (w : positive) (k : Z) (t : TickOf P) :
  (k - o) mod Zpos w = 0 ->
  in_bucket o w k t = (k <=? ts t) && (ts t <? k + Zpos w).
Proof.
  intros Hk. unfold in_bucket, bucket_start.
  pose proof (Z.div_mod (k - o) (Zpos w) ltac:(lia)) as Hd. rewrite Hk in Hd.
  set (j := (k - o) / Zpos w) in *.
  destruct ((k <=? ts t) && (ts t <? k + Zpos w)) eqn:E.
  - apply andb_true_iff in E as [E1 E2]. apply Z.leb_le in E1. apply Z.ltb_lt in E2.
    apply Z.eqb_eq.
    replace ((ts t - o) / Zpos w) with j; [lia|].
    apply Z.div_unique with (ts t - o - j * Zpos w); lia.
  - apply Z.eqb_neq. intros Heq.
    pose proof (bucket_start_bounds o w (ts t)) as [Hb _]. unfold bucket_start in Hb.
    rewrite Heq in Hb.
    apply andb_false_iff in E as [E|E]; [apply Z.leb_gt in E | apply Z.ltb_ge in E].
    all: lia.
Qed.

Lemma fold_min_le (l : list Z) (a : Z) :
  fold_left Z.min l a <= a /\ Forall (fun x => fold_left Z.min l a <= x) l.
Proof.
  revert a. induction l as [|x l IH]; intros a; simpl; [split; [lia|constructor]|].
  destruct (IH (Z.min a x)) as [H1 H2]. split; [lia|]. constructor; [lia|exact H2].
Qed.

Lemma resample_origin_le (ticks : list (TickOf P)) (t : TickOf P) :
  In t ticks -> resample_origin ticks <= ts t.
Proof.
  intros Hin. destruct ticks as [|t0 tl]; [destruct Hin|].
  unfold resample_origin, replace_to_day.
  destruct (fold_min_le (map ts (t0 :: tl)) (ts t0)) as [_ Hall].
  rewrite List.Forall_forall in Hall. specialize (Hall (ts t) (in_map _ _ _ Hin)).
  pose proof (Z.mod_pos_bound (fold_left Z.min (map ts (t0 :: tl)) (ts t0)) DAY
                ltac:(unfold DAY, HOUR; lia)).
  lia.
Qed.

(** The row order of the grouper. *)

Lemma insert_by_ts_perm (t : TickOf P) (l : list (TickOf P)) :
  Permutation (insert_by_ts t l) (t :: l).
Proof.
  induction l as [|x l IH]; simpl; [reflexivity|].
  destruct (ts t <=? ts x); [reflexivity|].
  etransitivity; [apply perm_skip, IH | apply perm_swap].
Qed.

Lemma sort_by_ts_perm (l : list (TickOf P)) : Permutation (sort_by_ts l) l.
Proof.
  induction l as [|x l IH]; simpl; [reflexivity|].
  etransitivity; [apply insert_by_ts_perm | apply perm_skip, IH].
Qed.

Lemma insert_by_ts_hd (x t : TickOf P) (l : list (TickOf P)) :
  HdRel (fun a b => ts a <= ts b) x l -> ts x <= ts t ->
  HdRel (fun a b => ts a <= ts b) x (insert_by_ts t l).
Proof.
  intros Hd Hxt. destruct l as [|y l]; simpl; [constructor; exact Hxt|].
  destruct (ts t <=? ts y); constructor; [exact Hxt|]. inversion Hd. assumption.
Qed.

Lemma insert_by_ts_sorted (t : TickOf P) (l : list (TickOf P)) :
  Sorted (fun a b => ts a <= ts b) l -> Sorted (fun a b => ts a <= ts b) (insert_by_ts t l).
Proof.
  induction l as [|x l IH]; intros Hs; simpl; [repeat constructor|].
  destruct (ts t <=? ts x) eqn:E.
  - apply Z.leb_le in E. constructor; [exact Hs | constructor; exact E].
  - apply Z.leb_gt in E. inversion Hs; subst. constructor.
    + apply IH. assumption.
    + apply insert_by_ts_hd; [assumption | lia].
Qed.

Lemma sort_by_ts_sorted (l : list (TickOf P)) :
  Sorted (fun a b => ts a <= ts b) (sort_by_ts l).
Proof.
  induction l as [|x l IH]; simpl; [constructor|]. apply insert_by_ts_sorted, IH.
Qed.

Lemma monotonic_sorted (l : list (TickOf P)) :
  is_monotonic_increasing (map ts l) = true -> Sorted (fun a b => ts a <= ts b) l.
Proof.
  induction l as [|x l IH]; intros Hm; [constructor|].
  destruct l as [|y l]; [repeat constructor|].
  change ((ts x <=? ts y) && is_monotonic_increasing (map ts (y :: l)) = true) in Hm.
  apply andb_true_iff in Hm as [Hxy Hm]. apply Z.leb_le in Hxy.
  constructor; [apply IH, Hm | constructor; exact Hxy].
Qed.

Lemma filter_ts_insert (z : Z) (t : TickOf P) (l : list (TickOf P)) :
  List.filter (fun u => ts u =? z) (insert_by_ts t l)
  = if ts t =? z then t :: List.filter (fun u => ts u =? z) l
    else List.filter (fun u => ts u =? z) l.
Proof.
  induction l as [|x l IH]; simpl; [destruct (ts t =? z); reflexivity|].
  destruct (ts t <=? ts x) eqn:E; simpl; [destruct (ts t =? z); reflexivity|].
  apply Z.leb_gt in E. rewrite IH.
  destruct (ts t =? z) eqn:Et; [|reflexivity].
  apply Z.eqb_eq in Et. replace (ts x =? z) with false by (symmetry; apply Z.eqb_neq; lia).
  reflexivity.
Qed.

Lemma filter_ts_sort (z : Z) (l : list (TickOf P)) :
  List.filter (fun u => ts u =? z) (sort_by_ts l) = List.filter (fun u => ts u =? z) l.
Proof.
  induction l as [|x l IH]; simpl; [reflexivity|].
  rewrite filter_ts_insert, IH. reflexivity.
Qed.

Lemma resample_order_props (ticks : list (TickOf P)) :
  Permutation (resample_order ticks) ticks
  /\ Sorted (fun a b => ts a <= ts b) (resample_order ticks)
  /\ (forall z, List.filter (fun t => ts t =? z) (resample_order ticks)
                = List.filter (fun t => ts t =? z) ticks).
Proof.
  unfold resample_order. destruct (is_monotonic_increasing (map ts ticks)) eqn:Em.
  - split; [reflexivity|]. split; [apply monotonic_sorted, Em | reflexivity].
  - split; [apply sort_by_ts_perm|]. split; [apply sort_by_ts_sorted|].
    intros z. apply filter_ts_sort.
Qed.

(** group_ohlc and group_sum on one bin. *)

Lemma last_cons_default {A} (x d : A) (l : list A) : List.last (x :: l) d = List.last l x.
Proof.
  revert x d. induction l as [|y l IH]; intros x d; [reflexivity|].
  change (List.last (y :: l) d = List.last (y :: l) x). rewrite !IH. reflexivity.
Qed.

Lemma last_In_cons {A} (x : A) (l : list A) : In (List.last l x) (x :: l).
Proof.
  revert x. induction l as [|y l IH]; intros x; [left; reflexivity|].
  rewrite last_cons_default. right. apply IH.
Qed.

Lemma fold_pmax_In (l : list P) (a : P) : In (fold_left pmax l a) (a :: l).
Proof.
  revert a. induction l as [|y l IH]; intros a; simpl; [left; reflexivity|].
  destruct (IH (pmax a y)) as [Ha|Ha].
  - rewrite <- Ha. unfold pmax. destruct (plt a y); [right; left| left]; reflexivity.
  - right; right; exact Ha.
Qed.

Lemma fold_pmin_In (l : list P) (a : P) : In (fold_left pmin l a) (a :: l).
Proof.
  revert a. induction l as [|y l IH]; intros a; simpl; [left; reflexivity|].
  destruct (IH (pmin a y)) as [Ha|Ha].
  - rewrite <- Ha. unfold pmin. destruct (plt y a); [right; left| left]; reflexivity.
  - right; right; exact Ha.
Qed.

Lemma ohlc_fold_some (xs : list P) :
  forall o h l c,
    fold_left ohlc_step xs (Some (o, h, l, c))
    = Some (o, fold_left pmax (List.filter not_nan xs) h,
            fold_left pmin (List.filter not_nan xs) l,
            List.last (List.filter not_nan xs) c).
Proof.
  induction xs as [|x xs IH]; intros o h l c; [reflexivity|].
  cbn [fold_left List.filter]. change (not_nan x) with (negb (pisnan x)).
  unfold ohlc_step at 2. destruct (pisnan x); cbn [negb]; rewrite IH; [reflexivity|].
  cbn [fold_left]. rewrite last_cons_default. reflexivity.
Qed.

Lemma ohlc_spec (xs : list P) :
  ohlc xs = match List.filter not_nan xs with
            | [] => None
            | x0 :: rest =>
                Some (x0, fold_left pmax rest x0, fold_left pmin rest x0, List.last rest x0)
            end.
Proof.
  unfold ohlc. induction xs as [|x xs IH]; [reflexivity|].
  cbn [fold_left List.filter]. change (not_nan x) with (negb (pisnan x)).
  unfold ohlc_step at 2. destruct (pisnan x); cbn [negb]; [exact IH|].
  apply ohlc_fold_some.
Qed.

Lemma candle_row_spec (k : Z) (xs : list P) (v : P) :
  candle_row k (ohlc xs) v
  = match List.filter not_nan xs with
    | [] => []
    | x0 :: rest =>
        [(k, mkBar x0 (fold_left pmax rest x0) (fold_left pmin rest x0)
                   (List.last rest x0) v)]
    end.
Proof.
  rewrite ohlc_spec. destruct (List.filter not_nan xs) as [|x0 rest] eqn:Ef; [reflexivity|].
  assert (Hok : forall y, In y (x0 :: rest) -> pisnan y = false).
  { intros y Hy. rewrite <- Ef in Hy. apply filter_In in Hy as [_ Hy].
    unfold not_nan in Hy. destruct (pisnan y); [discriminate | reflexivity]. }
  unfold candle_row.
  rewrite (Hok x0 (or_introl eq_refl)), (Hok _ (fold_pmax_In rest x0)),
    (Hok _ (fold_pmin_In rest x0)), (Hok _ (last_In_cons x0 rest)).
  reflexivity.
Qed.

Lemma kahan_fold_filter (xs : list P) :
  forall acc, fold_left kahan_step xs acc = fold_left kahan_step (List.filter not_nan xs) acc.
Proof.
  induction xs as [|x xs IH]; intros [s c]; [reflexivity|].
  cbn [fold_left List.filter]. change (not_nan x) with (negb (pisnan x)).
  destruct (pisnan x) eqn:E; cbn [negb fold_left]; rewrite IH; [|reflexivity].
  unfold kahan_step at 2. rewrite E. reflexivity.
Qed.

Lemma group_sum_filter (xs : list P) : group_sum xs = group_sum (List.filter not_nan xs).
Proof. unfold group_sum. rewrite kahan_fold_filter. reflexivity. Qed.

(** The rows of a frame built bin by bin. *)

Lemma flat_map_rows_filter {B} (f : Z -> list (Z * B)) (keys : list Z) :
  (forall k, f k = [] \/ exists b, f k = [(k, b)]) ->
  map fst (flat_map f keys)
  = List.filter (fun k => match f k with [] => false | _ => true end) keys.
Proof.
  intros Hf. induction keys as [|k keys IH]; simpl; [reflexivity|].
  destruct (Hf k) as [-> | [b ->]]; simpl; rewrite IH; reflexivity.
Qed.

Lemma sorted_lt_filter (f : Z -> bool) (l : list Z) :
  Sorted Z.lt l -> Sorted Z.lt (List.filter f l).
Proof.
  intros Hs. apply StronglySorted_Sorted, strongly_sorted_filter.
  apply Sorted_StronglySorted; [exact Z.lt_trans | exact Hs].
Qed.

Lemma candles_sel_spec (ticks : list (TickOf P)) (w : positive) (side : string)
    (price vol : TickOf P -> P) :
  select_series side = Some (fun t => (price t, vol t)) ->
  candles_spec ticks w side price vol.
Proof.
  intros Hsel. unfold candles_spec.
  destruct (resample_order_props ticks) as [Hperm [Hsorted Hstable]].
  split; [exact Hperm|]. split; [exact Hsorted|]. split; [exact Hstable|].
  destruct ticks as [|t0 tl].
  { exists []. repeat split; try constructor. intros t []. }
  remember (t0 :: tl) as ticks eqn:Et.
  set (origin := resample_origin ticks). set (ordered := resample_order ticks) in *.
  set (members := fun k => List.filter (in_bucket origin w k) ordered).
  set (row := fun k : Z =>
    match List.filter not_nan (map price (members k)) with
    | [] => []
    | x0 :: rest =>
        [(k, mkBar x0 (fold_left pmax rest x0) (fold_left pmin rest x0)
                   (List.last rest x0) (group_sum (map vol (members k))))]
    end).
  set (keys := bucket_keys origin w (map ts ordered)).
  exists (flat_map row keys).
  assert (Hrun : _ticks_to_candles ticks w side = Ok (CANDLE_COLUMNS, flat_map row keys)).
  { rewrite Et. unfold _ticks_to_candles. rewrite Hsel.
    rewrite <- Et. fold origin. fold ordered. fold keys. do 2 f_equal.
    apply flat_map_ext. intros k.
    rewrite (filter_series (fun z => bucket_start origin w z =? k)).
    change (fun t : TickOf P => bucket_start origin w (ts t) =? k) with (@in_bucket P origin w k).
    fold (members k). rewrite !map_map. cbn [fst snd].
    rewrite candle_row_spec. reflexivity. }
  assert (Hshape : forall k, row k = [] \/ exists b, row k = [(k, b)]).
  { intros k. subst row. cbv beta.
    destruct (List.filter not_nan (map price (members k))); [left | right; eexists]; reflexivity. }
  assert (Hin_ord : forall t, In t ticks <-> In t ordered).
  { intros t. split; apply Permutation_in; [symmetry|]; exact Hperm. }
  split; [exact Hrun|].
  split.
  { rewrite (flat_map_rows_filter row keys Hshape). apply sorted_lt_filter, bucket_keys_sorted. }
  split.
  - intros t Ht Hnan.
    set (k := bucket_start origin w (ts t)).
    assert (Hk : In k keys).
    { apply bucket_keys_In. exists (ts t). split; [|reflexivity].
      apply in_map, Hin_ord, Ht. }
    assert (Hm : In (price t) (List.filter not_nan (map price (members k)))).
    { apply filter_In. split; [|unfold not_nan; rewrite Hnan; reflexivity].
      apply in_map. apply filter_In. split; [apply Hin_ord, Ht|].
      unfold in_bucket. apply Z.eqb_refl. }
    assert (Hrow : exists b, row k = [(k, b)]).
    { subst row. cbv beta. destruct (List.filter not_nan (map price (members k)));
        [destruct Hm | eexists; reflexivity]. }
    destruct Hrow as [b Hb]. exists (k, b). split.
    + apply in_flat_map. exists k. split; [exact Hk|]. rewrite Hb. left; reflexivity.
    + apply bucket_start_bounds.
  - apply List.Forall_forall. intros kb Hkb.
    apply in_flat_map in Hkb as (k & Hk & Hkb).
    assert (Hal : origin <= k /\ (k - origin) mod Zpos w = 0).
    { subst keys. apply bucket_keys_In in Hk as (s & Hs & <-).
      apply in_map_iff in Hs as (t & <- & Ht). apply Hin_ord in Ht.
      split; [|apply bucket_start_bounds].
      pose proof (resample_origin_le ticks t Ht) as Hle. fold origin in Hle.
      unfold bucket_start. pose proof (Z.div_pos (ts t - origin) (Zpos w)). nia. }
    assert (Heqm : List.filter (fun t => (k <=? ts t) && (ts t <? k + Zpos w)) ordered
                   = members k).
    { subst members. cbv beta. apply List.filter_ext. intros t. symmetry.
      apply in_bucket_interval. tauto. }
    subst row. cbv beta in Hkb.
    destruct (List.filter not_nan (map price (members k))) as [|x0 rest] eqn:Ef;
      [destruct Hkb|].
    destruct Hkb as [<-|[]]. cbn [fst snd]. rewrite Heqm.
    split; [tauto|]. split; [tauto|].
    exists x0, rest. cbn [open_ high low close volume].
    split; [exact Ef|]. repeat split. apply group_sum_filter.
Qed.

End CandleProofs.

(** C6 (amended): with [price_side = "mid"] the price series is
    (bid + ask) / 2 and the volume series (bid_vol + ask_vol) / 2, and the
    frame is [candles_spec] of these series: the ticks are taken in
    timestamp order (equal timestamps in list order); the rows are the
    buckets holding a non-NaN price, in increasing order, and every tick
    with a non-NaN price has its bucket's row; in the row of bucket [k],
    over the ticks of [k, k + width) and skipping NaN values, open is the
    first price, close the last, high and low the max and min, volume the
    Kahan-compensated sum of the volumes.  The two-tick example gives
    open 101, high 102, low 101, close 102, volume 10, also when the two
    ticks are listed in reverse time order; an empty tick list gives no
    rows with columns open, high, low, close, volume. *)
Theorem ticks_to_candles_mid_spec :
  (forall (P : Type) (A : PriceArith P) (ticks : list (TickOf P)) (w : positive),
     candles_spec ticks w "mid" mid_price mid_vol)
  /\ _ticks_to_candles
       [mkTick 0 100%float 102%float 2%float 4%float;
        mkTick 1000 101%float 103%float 6%float 8%float] 60000000 "mid"
     = Ok (CANDLE_COLUMNS, [(0, mkBar 101%float 102%float 101%float 102%float 10%float)])
  /\ _ticks_to_candles
       [mkTick 1000 101%float 103%float 6%float 8%float;
        mkTick 0 100%float 102%float 2%float 4%float] 60000000 "mid"
     = Ok (CANDLE_COLUMNS, [(0, mkBar 101%float 102%float 101%float 102%float 10%float)])
  /\ (forall (P : Type) (A : PriceArith P) (w : positive) (side : string),
        @_ticks_to_candles P A [] w side = Ok (CANDLE_COLUMNS, [])).
Proof.
  split; [|split; [vm_compute; reflexivity | split; [vm_compute; reflexivity | reflexivity]]].
  intros P A ticks w. apply candles_sel_spec. reflexivity.
Qed.

(** C6 counterexample: a tick whose bid and ask are NaN (a float-format
    payload can carry any float32) followed by an ordinary tick in the same
    minute.  The first tick's mid price is NaN, but pandas skips it: open,
    high, low and close are all the second tick's mid price 102, and the
    volume 10 still counts both ticks' mid volumes. *)
Lemma ticks_to_candles_nan_cex :
  PrimFloat.is_nan (mid_price (mkTick 0 nan nan 2%float 4%float)) = true
  /\ _ticks_to_candles
       [mkTick 0 nan nan 2%float 4%float;
        mkTick 1000 101%float 103%float 6%float 8%float] 60000000 "mid"
     = Ok (CANDLE_COLUMNS, [(0, mkBar 102%float 102%float 102%float 102%float 10%float)]).
Proof. split; vm_compute; reflexivity. Qed.

(** X3: with [price_side] "bid" (or "ask") and any width, [_ticks_to_candles]
    returns the five candle columns and the frame described by
    [candles_spec] for the bid (ask) price and the bid (ask) volume: ticks
    in timestamp order, one row per bucket holding a non-NaN price, in
    increasing bucket order, each bucket start midnight of the earliest
    tick's day plus a multiple of the width; the row's open, high, low and
    close are the first, largest, smallest and last non-NaN price of the
    ticks in [k, k + width), its volume the Kahan sum of their non-NaN
    volumes.  For any side other than bid, ask and mid, the call raises
    ValueError on a non-empty list (an empty list returns an empty
    frame). *)
Theorem ticks_to_candles_bid_ask (P : Type) (A : PriceArith P)
    (ticks : list (TickOf P)) (w : positive) :
  candles_spec ticks w "bid" bid bid_vol
  /\ candles_spec ticks w "ask" ask ask_vol
  /\ (forall side, side <> "bid" -> side <> "ask" -> side <> "mid" ->
        _ticks_to_candles ticks w side
        = match ticks with [] => Ok (CANDLE_COLUMNS, []) | _ => Err ValueError end).
Proof.
  split; [|split].
  - apply candles_sel_spec. reflexivity.
  - apply candles_sel_spec. reflexivity.
  - intros side H1 H2 H3. destruct ticks as [|t0 tl]; [reflexivity|].
    unfold _ticks_to_candles, select_series.
    destruct (String.eqb_spec side "bid"); [congruence|].
    destruct (String.eqb_spec side "ask"); [congruence|].
    destruct (String.eqb_spec side "mid"); [congruence|]. reflexivity.
Qed.

(* ================================================================== *)
(** * Proofs: the cache of the downloader *)

Lemma download_loop_cases (n : nat) (delay : Z) (url : string) (cp : option string)
    (w : World) :
  (fst (download_loop n delay url cp w) = None
   /\ cache (snd (download_loop n delay url cp w)) = cache w)
  \/ exists data w1, cache w1 = cache w
       /\ download_loop n delay url cp w = store_body cp data w1.
Proof.
  revert delay w. induction n as [|n IH]; intros delay w; [left; simpl; tauto|].
  cbn [download_loop].
  assert (Hg : cache (snd (http_get url w)) = cache w)
    by (unfold http_get; destruct (net w); reflexivity).
  destruct (http_get url w) as [r w1] eqn:Eg. cbn [snd] in Hg.
  assert (Hretry :
    (fst (match n with O => (None, w1) | S _ =>
            download_loop n (Z.min (delay * RETRY_BACKOFF_FACTOR) RETRY_MAX_DELAY)
              url cp (time_sleep delay w1) end) = None
     /\ cache (snd (match n with O => (None, w1) | S _ =>
            download_loop n (Z.min (delay * RETRY_BACKOFF_FACTOR) RETRY_MAX_DELAY)
              url cp (time_sleep delay w1) end)) = cache w)
    \/ exists data w2, cache w2 = cache w
       /\ match n with O => (None, w1) | S _ =>
            download_loop n (Z.min (delay * RETRY_BACKOFF_FACTOR) RETRY_MAX_DELAY)
              url cp (time_sleep delay w1) end = store_body cp data w2).
  { destruct n as [|n']; [left; simpl; tauto|].
    destruct (IH (Z.min (delay * RETRY_BACKOFF_FACTOR) RETRY_MAX_DELAY) (time_sleep delay w1))
      as [[H1 H2]|(data & w2 & H1 & H2)].
    - left. split; [exact H1|]. rewrite H2. exact Hg.
    - right. exists data, w2. split; [rewrite H1; exact Hg|exact H2]. }
  destruct r as [code data|]; [|exact Hretry].
  destruct (code =? 404); [left; simpl; tauto|].
  destruct (raises_for_status code); [exact Hretry|].
  right. exists data, w1. tauto.
Qed.

Lemma string_length_app (s1 s2 : string) :
  String.length (String.append s1 s2) = (String.length s1 + String.length s2)%nat.
Proof. induction s1 as [|c s1 IH]; simpl; [reflexivity|]. rewrite IH. reflexivity. Qed.

Lemma tmp_path_ne (p : string) : tmp_path p <> p.
Proof.
  unfold tmp_path. intros H. apply (f_equal String.length) in H.
  rewrite string_length_app in H. simpl in H. lia.
Qed.

(** after a cache miss, the body handling leaves the cache holding the
    returned bytes at the path, other entries untouched but the temporary. *)
Lemma store_body_cache (p : string) (data : bytes) (w : World) :
  cache w !! p = None ->
  match store_body (Some p) data w with
  | (r, w') =>
      exists d, r = Some d /\ cache w' !! p = Some d
      /\ forall q, q <> p -> q <> tmp_path p -> cache w' !! q = cache w !! q
  end.
Proof.
  intros Hp. unfold store_body.
  assert (Htouch : exists d, Some ([] : bytes) = Some d /\ cache (path_touch p w) !! p = Some d
      /\ forall q, q <> p -> q <> tmp_path p -> cache (path_touch p w) !! q = cache w !! q).
  { exists []. unfold path_touch. simpl. rewrite Hp. split; [reflexivity|]. split.
    - apply lookup_insert_eq.
    - intros q Hq _. apply lookup_insert_ne. congruence. }
  destruct (Nat.eqb (length data) 0); [exact Htouch|].
  destruct (length data <? MIN_PAYLOAD)%nat; [exact Htouch|].
  exists data. unfold path_replace, path_write_bytes. simpl.
  rewrite lookup_insert_eq. split; [reflexivity|]. split.
  - apply lookup_insert_eq.
  - intros q Hq Ht. rewrite lookup_insert_ne by congruence.
    rewrite lookup_delete_ne by congruence. apply lookup_insert_ne. congruence.
Qed.

(** X4: [_download_bi5] with a cache path changes no cached file other than
    that path and its ".tmp" companion; when it returns a payload, the cache
    then holds that payload at the path, and any later call with the same
    path (whatever the URL and retry count) returns it without touching the
    network or the files; when it returns nothing the cache is unchanged.
    Without a cache path the cache is never changed. *)
Theorem download_bi5_cache_roundtrip (url : string) (p : string) (retries : nat) (w : World) :
  match _download_bi5 url (Some p) retries w with
  | (r, w') =>
      (forall q, q <> p -> q <> tmp_path p -> cache w' !! q = cache w !! q)
      /\ match r with
         | Some d => cache w' !! p = Some d
             /\ forall url' retries', _download_bi5 url' (Some p) retries' w' = (Some d, w')
         | None => cache w' = cache w
         end
  end
  /\ cache (snd (_download_bi5 url None retries w)) = cache w.
Proof.
  split.
  - unfold _download_bi5 at 1. destruct (cache w !! p) as [c|] eqn:Hp.
    + split; [reflexivity|]. split; [exact Hp|].
      intros url' retries'. unfold _download_bi5. rewrite Hp. reflexivity.
    + destruct (download_loop_cases retries RETRY_BASE_DELAY url (Some p) w)
        as [[H1 H2]|(data & w1 & H1 & H2)].
      * destruct (download_loop retries RETRY_BASE_DELAY url (Some p) w) as [r w'].
        simpl in H1, H2. subst r. split; [|exact H2]. rewrite H2. reflexivity.
      * rewrite H2. rewrite <- H1 in Hp.
        pose proof (store_body_cache p data w1 Hp) as Hs.
        destruct (store_body (Some p) data w1) as [r w'].
        destruct Hs as (d & -> & Hd & Hq). split.
        { intros q H3 H4. rewrite Hq by assumption. rewrite H1. reflexivity. }
        split; [exact Hd|]. intros url' retries'. unfold _download_bi5. rewrite Hd.
        reflexivity.
  - unfold _download_bi5.
    destruct (download_loop_cases retries RETRY_BASE_DELAY url None w)
      as [[_ H2]|(data & w1 & H1 & H2)]; [exact H2|].
    rewrite H2, <- H1. unfold store_body.
    destruct (Nat.eqb (length data) 0); [reflexivity|].
    destruct (length data <? MIN_PAYLOAD)%nat; reflexivity.
Qed.

(* ================================================================== *)
(** * Proofs: runs that produce no data *)

Section NoData.
Context (lzma_decompress lzma_read20 : bytes -> res bytes)
        (price_divisor : option float) (width : positive) (price_side : string)
        (cache_enabled : bool) (cache_exists : Z -> bool) (refetch : Z -> option bytes).

Lemma drain_nodata (hours : list Z) (fuel : nat) (st : DrainState) :
  nodata_inv st ->
  exists st', drain lzma_decompress lzma_read20 price_divisor width price_side
                cache_enabled cache_exists refetch hours fuel st = Continue st'
              /\ nodata_inv st'.
Proof.
  revert st. induction fuel as [|fuel IH]; intros st Hi; simpl; [eauto|].
  destruct (nth_error hours (next_to_process st)) as [h|]; [|eauto].
  destruct (hour_data st !! h) as [comp|] eqn:Eh; [|eauto].
  destruct Hi as [Hf Hd].
  assert (Hpop : nodata_inv (pop_hour h st)).
  { split; [exact Hf|]. intros h' c' Hl. simpl in Hl.
    apply lookup_delete_Some in Hl as [_ Hl]. exact (Hd h' c' Hl). }
  destruct (Hd h comp Eh) as [->| ->]; simpl; apply IH;
    destruct Hpop as [Hf' Hd']; split; simpl; assumption.
Qed.

Lemma fold_nodata (hours : list Z) (completions : list (Z * option bytes)) (st : DrainState) :
  Forall (fun hc => no_payload (snd hc)) completions ->
  nodata_inv st ->
  exists st', fold_left (on_complete lzma_decompress lzma_read20 price_divisor width price_side
                           cache_enabled cache_exists refetch hours) completions (Continue st)
              = Continue st' /\ nodata_inv st'.
Proof.
  revert st. induction completions as [|hc cs IH]; intros st Hall Hi; simpl; [eauto|].
  inversion Hall as [|? ? Hhc Hcs]; subst.
  destruct (drain_nodata hours (length hours) (store_result (fst hc) (snd hc) st)) as (st1 & E & Hi1).
  { destruct Hi as [Hf Hd]. split; [exact Hf|]. intros h c Hl. simpl in Hl.
    destruct (decide (h = fst hc)) as [->|Hne].
    - rewrite lookup_insert_eq in Hl. injection Hl as <-. exact Hhc.
    - rewrite lookup_insert_ne in Hl by congruence. exact (Hd h c Hl). }
  cbn [on_complete]. rewrite E. apply IH; assumption.
Qed.

End NoData.

(** X7: when no download of any hour yields a payload (each is missing or
    empty), [export_range] never returns rows: after a valid symbol and an
    in-range end date it raises RuntimeError ("No data produced"). *)
Theorem export_range_no_data
    (lzma_decompress lzma_read20 : bytes -> res bytes)
    (price_divisor : option float) (width : positive) (price_side : string)
    (cache_enabled : bool) (cache_exists : Z -> bool) (refetch : Z -> option bytes)
    (db : UnicodeDB) (sort_index : list (Z * Bar float) -> list (Z * Bar float))
    (pool : list Z -> list (Z * option bytes))
    (symbol : pystr) (start_utc end_utc_inclusive : Z) :
  (forall hours, Forall (fun hc => no_payload (snd hc)) (pool hours)) ->
  let run := export_range lzma_decompress lzma_read20 price_divisor width price_side
               cache_enabled cache_exists refetch db sort_index pool
               symbol start_utc end_utc_inclusive in
  (forall rows, run <> Ok rows)
  /\ ((exists sym, _symbol_normalise db symbol = Ok sym) ->
      (exists e1 hours, dt_add end_utc_inclusive DAY = Ok e1
                        /\ _iter_hours start_utc (replace_to_day e1) = Ok hours) ->
      run = Err RuntimeError).
Proof.
  intros Hpool run.
  assert (Hrun : forall sym e1 hours,
    _symbol_normalise db symbol = Ok sym -> dt_add end_utc_inclusive DAY = Ok e1 ->
    _iter_hours start_utc (replace_to_day e1) = Ok hours -> run = Err RuntimeError).
  { intros sym e1 hours E1 E2 E3. subst run. unfold export_range.
    rewrite E1. cbn [res_bind]. rewrite E2. cbn [res_bind]. rewrite E3. cbn [res_bind].
    unfold drain_run.
    destruct (fold_nodata lzma_decompress lzma_read20 price_divisor width price_side
                cache_enabled cache_exists refetch hours (pool hours) drain_init (Hpool hours))
      as (st & -> & [Hf _]).
    { split; [reflexivity|]. intros h c Hl. simpl in Hl. rewrite lookup_empty in Hl. discriminate. }
    rewrite Hf. reflexivity. }
  split.
  - intros rows.
    destruct (_symbol_normalise db symbol) as [sym|e] eqn:E1;
      [|subst run; unfold export_range; rewrite E1; discriminate].
    destruct (dt_add end_utc_inclusive DAY) as [e1|e] eqn:E2;
      [|subst run; unfold export_range; rewrite E1; cbn [res_bind]; rewrite E2; discriminate].
    destruct (_iter_hours start_utc (replace_to_day e1)) as [hours|e] eqn:E3;
      [|subst run; unfold export_range; rewrite E1; cbn [res_bind]; rewrite E2;
        cbn [res_bind]; rewrite E3; discriminate].
    rewrite (Hrun sym e1 hours); first [reflexivity | exact E3 | discriminate].
  - intros [sym E1] (e1 & hours & E2 & E3). exact (Hrun sym e1 hours E1 E2 E3).
Qed.

Lemma export_range_no_data_witness :
  (forall hours, Forall (fun hc => no_payload (snd hc)) (pool_in_order (fun _ => None) hours))
  /\ export_range toy_lzma toy_lzma_read20 None 60000000 "bid" true (fun _ => true)
       (fun _ => None) ascii_db sort_rows (pool_in_order (fun _ => None)) EURUSD 0 0 = Err RuntimeError.
Proof.
  assert (Hp : forall hours, Forall (fun hc => no_payload (snd hc))
                              (pool_in_order (fun _ => None) hours)).
  { intros hours. apply List.Forall_forall. intros hc Hin.
    unfold pool_in_order in Hin. apply in_map_iff in Hin as (h & <- & _). left. reflexivity. }
  split; [exact Hp|].
  apply (proj2 (export_range_no_data toy_lzma toy_lzma_read20 None 60000000 "bid" true
                  (fun _ => true) (fun _ => None) ascii_db sort_rows (pool_in_order (fun _ => None))
                  EURUSD 0 0 Hp)).
  - exists EURUSD. vm_compute. reflexivity.
  - exists DAY, (map (fun i => Z.of_nat i * HOUR) (seq 0 24)).
    split; vm_compute; reflexivity.
Defined.

(* ================================================================== *)
(** * Proofs: the sidecar, the workers and the exit code *)

Lemma rfind_go_cases (c : ascii) (s : list ascii) (i acc : Z) :
  rfind_go c s i acc = acc
  \/ exists j, rfind_go c s i acc = i + Z.of_nat j /\ nth_error s j = Some c.
Proof.
  revert i acc. induction s as [|x s IH]; intros i acc; simpl; [left; reflexivity|].
  destruct (IH (i + 1) (if Ascii.eqb x c then i else acc)) as [E|(j & E & Hj)].
  - rewrite E. destruct (Ascii.eqb_spec x c) as [->|_]; [|left; reflexivity].
    right. exists 0%nat. split; [lia|reflexivity].
  - right. exists (S j). split; [rewrite E; lia|exact Hj].
Qed.

Lemma skipn_nth_cons {A} (l : list A) (k : nat) (x : A) :
  nth_error l k = Some x -> exists r, skipn k l = x :: r.
Proof.
  revert l. induction k as [|k IH]; intros [|y l] H; simpl in *; try discriminate.
  - injection H as ->. eexists. reflexivity.
  - apply IH. exact H.
Qed.

(** The suffix of a name is a tail of it that starts with a dot, or empty. *)
Lemma path_suffix_shape (p : PPath) :
  path_suffix p = [] \/
  exists r, path_suffix p = dot :: r
            /\ firstn (length (path_name p) - length (path_suffix p)) (path_name p)
                ++ path_suffix p = path_name p
            /\ forall c, In c (path_suffix p) -> In c (path_name p).
Proof.
  unfold path_suffix. set (name := path_name p).
  destruct ((0 <? rfind name dot) && (rfind name dot <? Z.of_nat (length name) - 1)) eqn:E;
    [|left; reflexivity].
  right. apply andb_true_iff in E as [E1 E2]. apply Z.ltb_lt in E1.
  unfold rfind in *.
  destruct (rfind_go_cases dot name 0 (-1)) as [H|(j & H & Hj)]; [lia|].
  rewrite H in *. replace (Z.to_nat (0 + Z.of_nat j)) with j by lia.
  destruct (skipn_nth_cons name j dot Hj) as [r Hr]. exists r. rewrite Hr.
  split; [reflexivity|]. split.
  - rewrite <- Hr, length_skipn.
    replace (length name - (length name - j))%nat with j
      by (assert (j < length name)%nat by (apply nth_error_Some; congruence); lia).
    apply firstn_skipn.
  - intros c Hc. rewrite <- Hr in Hc. rewrite <- (firstn_skipn j name).
    apply in_or_app. right. exact Hc.
Qed.

Lemma existsb_slash_false (l : list ascii) :
  ~ In slash l -> existsb (fun c => Ascii.eqb c slash) l = false.
Proof.
  intros Hn. apply Bool.not_true_is_false. intros H.
  apply existsb_exists in H as (c & Hc & Hs). apply Ascii.eqb_eq in Hs. subst. contradiction.
Qed.

(** X8: [write_sidecar] on a path whose name is empty raises ValueError; on a
    path [dir/NAME] (NAME without a slash) it writes the text to
    [dir/NAME.meta.json], the full old name kept, and returns that path. *)
Theorem write_sidecar_path (text : string) (p : PPath) (fs : list (PPath * string)) :
  (path_name p = [] -> write_sidecar text p fs = Err ValueError)
  /\ (~ In slash (path_name p) -> path_name p <> [] ->
      let sidecar := mkPath (anchor p) (List.removelast (segs p) ++ [path_name p ++ META_JSON]) in
      write_sidecar text p fs = Ok (sidecar, (sidecar, text) :: fs)).
Proof.
  assert (Hmeta : ~ In slash META_JSON) by (vm_compute; intuition discriminate).
  split.
  - intros Hn. unfold write_sidecar, with_suffix. rewrite Hn.
    destruct (existsb _ _); [reflexivity|]. destruct (_ || _); reflexivity.
  - intros Hs Hne. cbv zeta. unfold write_sidecar, with_suffix.
    destruct (path_suffix_shape p) as [Hsuf|(r & Hsuf & Hsplit & Hsub)].
    + rewrite Hsuf. cbn [app].
      rewrite existsb_slash_false by exact Hmeta. cbn -[META_JSON].
      destruct (path_name p) as [|c n] eqn:En; [congruence|].
      replace (match META_JSON with [] => false | c0 :: _ => negb (Ascii.eqb c0 dot) end
               || match META_JSON with [c0] => Ascii.eqb c0 dot | _ => false end) with false
        by reflexivity.
      reflexivity.
    + rewrite existsb_slash_false.
      2:{ intros Hin. apply in_app_or in Hin as [Hin|Hin]; [|contradiction].
          apply Hs, Hsub, Hin. }
      rewrite Hsuf. cbn [app].
      replace (negb (Ascii.eqb dot dot)) with false by reflexivity.
      replace (match dot :: r ++ META_JSON with [c0] => Ascii.eqb c0 dot | _ => false end)
        with false by (destruct r; reflexivity).
      cbn [orb].
      destruct (path_name p) as [|c n] eqn:En; [congruence|].
      rewrite <- En in *. rewrite Hsuf in Hsplit.
      rewrite app_comm_cons, app_assoc, Hsplit. reflexivity.
Qed.

Lemma write_sidecars_spec (meta_text : ExportResult -> string) (results : list ExportResult)
    (fs : list (PPath * string)) :
  (forall r csv, In r results -> success r = true -> output_csv r = Some csv ->
     path_name csv <> [] /\ ~ In slash (path_name csv)) ->
  exists fs', write_sidecars meta_text results fs = Ok fs'
    /\ forall q, In q (map fst fs') <->
         In q (map fst fs) \/ exists r csv, In r results /\ success r = true
                                 /\ output_csv r = Some csv /\ q = sidecar_of csv.
Proof.
  revert fs. induction results as [|r rs IH]; intros fs Hok; simpl.
  - exists fs. split; [reflexivity|]. intros q. split; [tauto|].
    intros [H|(r & csv & [] & _)]. exact H.
  - assert (Hrs : forall r' csv, In r' rs -> success r' = true -> output_csv r' = Some csv ->
                   path_name csv <> [] /\ ~ In slash (path_name csv))
      by (intros r' csv H1 H2 H3; apply (Hok r' csv); [right; exact H1|exact H2|exact H3]).
    destruct (success r) eqn:Es; [destruct (output_csv r) as [csv|] eqn:Ec|].
    + destruct (Hok r csv (or_introl eq_refl) Es Ec) as [Hn Hs].
      rewrite (proj2 (write_sidecar_path (meta_text r) csv fs) Hs Hn). cbn [res_bind snd].
      destruct (IH ((sidecar_of csv, meta_text r) :: fs) Hrs) as (fs' & E & Hq).
      exists fs'. split; [exact E|]. intros q. rewrite Hq. simpl. split.
      * intros [[<-|H]|(r' & c' & H1 & H2 & H3 & H4)].
        -- right. exists r, csv. tauto.
        -- left. exact H.
        -- right. exists r', c'. tauto.
      * intros [H|(r' & c' & [<-|H1] & H2 & H3 & H4)].
        -- left. right. exact H.
        -- left. left. rewrite Ec in H3. injection H3 as <-. symmetry. exact H4.
        -- right. exists r', c'. tauto.
    + destruct (IH fs Hrs) as (fs' & E & Hq). exists fs'. split; [exact E|].
      intros q. rewrite Hq. split.
      * intros [H|(r' & c' & H1 & H2 & H3 & H4)]; [left; exact H|].
        right. exists r', c'. tauto.
      * intros [H|(r' & c' & [<-|H1] & H2 & H3 & H4)]; [left; exact H| |].
        -- congruence.
        -- right. exists r', c'. tauto.
    + destruct (IH fs Hrs) as (fs' & E & Hq). exists fs'. split; [exact E|].
      intros q. rewrite Hq. split.
      * intros [H|(r' & c' & H1 & H2 & H3 & H4)]; [left; exact H|].
        right. exists r', c'. tauto.
      * intros [H|(r' & c' & [<-|H1] & H2 & H3 & H4)]; [left; exact H| |].
        -- congruence.
        -- right. exists r', c'. tauto.
Qed.

Lemma filter_length_eq {A} (f : A -> bool) (l : list A) :
  length (List.filter f l) = length l <-> Forall (fun x => f x = true) l.
Proof.
  induction l as [|x l IH]; simpl; [split; [constructor|reflexivity]|].
  pose proof (List.filter_length_le f l) as Hle.
  destruct (f x) eqn:Ef; simpl.
  - rewrite List.Forall_cons_iff. split; [intros H; injection H as H; tauto|].
    intros [_ H]. f_equal. apply IH. exact H.
  - split; [lia|]. intros H. inversion H. congruence.
Qed.

(** X9: after the parallel exports, whatever the completion order of the
    tasks, [main] returns 0 exactly when every export succeeded and 1
    otherwise, and it has written one sidecar beside each CSV that a
    successful export returned, and no other file. *)
Theorem main_exit_code (export : ExportTask -> res (option PPath))
    (meta_text : ExportResult -> string) (tasks completed : list ExportTask)
    (fs : list (PPath * string)) :
  Permutation completed tasks ->
  (forall t csv, In t tasks -> export t = Ok (Some csv) ->
     path_name csv <> [] /\ ~ In slash (path_name csv)) ->
  exists fs' code,
    main_summary meta_text (run_parallel_exports export completed) fs = Ok (fs', code)
    /\ (code = 0 <-> Forall (fun t => exists csv, export t = Ok csv) tasks)
    /\ (code = 0 \/ code = 1)
    /\ (forall q, In q (map fst fs') <->
          In q (map fst fs) \/ exists t csv, In t tasks /\ export t = Ok (Some csv)
                                         /\ q = sidecar_of csv).
Proof.
  intros Hperm Hok.
  set (results := run_parallel_exports export completed).
  assert (Hres : forall r, In r results <->
            exists t, In t tasks /\ r = _export_worker export t).
  { intros r. unfold results, run_parallel_exports. rewrite in_map_iff. split.
    - intros (t & <- & Ht). exists t. split; [|reflexivity].
      apply (Permutation_in _ Hperm Ht).
    - intros (t & Ht & ->). exists t. split; [reflexivity|].
      apply (Permutation_in _ (Permutation_sym Hperm) Ht). }
  assert (Hw : forall t, success (_export_worker export t) = true
                  <-> exists csv, export t = Ok csv).
  { intros t. unfold _export_worker. destruct (export t); simpl.
    - split; [eauto|reflexivity].
    - split; [discriminate|]. intros [c H]. discriminate. }
  destruct (write_sidecars_spec meta_text results fs) as (fs' & E & Hq).
  { intros r csv Hr Hs Hc. apply Hres in Hr as (t & Ht & ->).
    unfold _export_worker in Hs, Hc. destruct (export t) eqn:Et; [|discriminate].
    simpl in Hc. subst. apply (Hok t csv Ht Et). }
  unfold main_summary. rewrite E. cbn [res_bind].
  eexists _, _. split; [reflexivity|].
  assert (Hall : length (List.filter success results) = length results
                 <-> Forall (fun t => exists csv, export t = Ok csv) tasks).
  { rewrite filter_length_eq, !List.Forall_forall. split.
    - intros H t Ht. apply Hw, H, Hres. exists t. tauto.
    - intros H r Hr. apply Hres in Hr as (t & Ht & ->). apply Hw, H, Ht. }
  pose proof (List.filter_length_le success results) as Hle.
  split; [|split].
  - rewrite <- Hall.
    destruct (Z.of_nat (length results) - Z.of_nat (length (List.filter success results)) >? 0)
      eqn:Eg; rewrite Z.gtb_ltb in Eg; [apply Z.ltb_lt in Eg | apply Z.ltb_ge in Eg]; split; intros; lia.
  - destruct (_ >? 0); [right|left]; reflexivity.
  - intros q. rewrite Hq. split.
    + intros [H|(r & csv & Hr & Hs & Hc & ->)]; [left; exact H|].
      apply Hres in Hr as (t & Ht & ->). right. exists t, csv.
      unfold _export_worker in *. destruct (export t); [|discriminate].
      simpl in Hc. subst. tauto.
    + intros [H|(t & csv & Ht & Et & ->)]; [left; exact H|].
      right. exists (_export_worker export t), csv.
      split; [apply Hres; exists t; tauto|]. unfold _export_worker. rewrite Et. simpl. tauto.
Qed.

(* ================================================================== *)
(** * Proofs: symbol and CSV file names *)

Lemma normalised_no_underscore (db : UnicodeDB) (raw s : pystr) :
  (forall c, ud_isalnum db c = true -> ~ In 95 (ud_upper db c)) ->
  _symbol_normalise db raw = Ok s -> ~ In 95 s.
Proof.
  intros Hdb. unfold _symbol_normalise. destruct (py_strip db raw) as [|c0 r]; [discriminate|].
  intros E. injection E as <-. intros Hin.
  unfold py_upper in Hin. apply in_flat_map in Hin as (c & Hc & Hu).
  change (In c (List.filter (ud_isalnum db) (c0 :: r))) in Hc.
  apply filter_In in Hc as [_ Ha]. exact (Hdb c Ha Hu).
Qed.

Lemma split_at_underscore (s1 s2 t1 t2 : pystr) :
  ~ In 95 s1 -> ~ In 95 s2 ->
  s1 ++ 95 :: t1 = s2 ++ 95 :: t2 -> s1 = s2 /\ t1 = t2.
Proof.
  revert s2. induction s1 as [|c s1 IH]; intros [|c' s2] H1 H2 E; simpl in *.
  - injection E. tauto.
  - injection E as E _. exfalso. apply H2. left. symmetry. exact E.
  - injection E as E _. exfalso. apply H1. left. exact E.
  - injection E as -> E. destruct (IH s2 ltac:(tauto) ltac:(tauto) E) as [-> ->]. tauto.
Qed.

(** X11: for normalised symbols, two exports name the same CSV file exactly
    when their symbols are equal and their rules give the same label (spaces
    removed, upper case).  Of the Unicode database it uses only what
    Python's has: no alphanumeric character upper-cases to a string holding
    "_". *)
Theorem csv_name_inj (db : UnicodeDB) (raw1 raw2 s1 s2 rule1 rule2 : pystr) :
  (forall c, ud_isalnum db c = true -> ~ In 95 (ud_upper db c)) ->
  _symbol_normalise db raw1 = Ok s1 -> _symbol_normalise db raw2 = Ok s2 ->
  (csv_name db s1 rule1 = csv_name db s2 rule2
   <-> s1 = s2 /\ rule_label db rule1 = rule_label db rule2).
Proof.
  intros Hdb E1 E2.
  unfold csv_name. split.
  - intros E. apply split_at_underscore in E as [-> E];
      [|exact (normalised_no_underscore db _ _ Hdb E1)
       |exact (normalised_no_underscore db _ _ Hdb E2)].
    split; [reflexivity|]. apply app_inv_tail in E. exact E.
  - intros [-> ->]. reflexivity.
Qed.

Lemma ascii_db_upper_no_underscore (c : Z) :
  ud_isalnum ascii_db c = true -> ~ In 95 (ud_upper ascii_db c).
Proof.
  cbn [ud_isalnum ud_upper ascii_db]. intros H Hin.
  rewrite !orb_true_iff, !andb_true_iff, !Z.leb_le in H.
  destruct ((97 <=? c) && (c <=? 122)) eqn:E;
    destruct Hin as [Hin|[]]; [apply andb_true_iff in E as [E1 E2]; apply Z.leb_le in E1, E2|];
    lia.
Qed.

Lemma csv_name_inj_witness :
  (forall c, ud_isalnum ascii_db c = true -> ~ In 95 (ud_upper ascii_db c))
  /\ _symbol_normalise ascii_db (pystr_of "eur/usd") = Ok EURUSD
  /\ _symbol_normalise ascii_db EURUSD = Ok EURUSD
  /\ (csv_name ascii_db EURUSD (pystr_of "5min")
      = csv_name ascii_db EURUSD (pystr_of "5 MIN")
      <-> EURUSD = EURUSD
          /\ rule_label ascii_db (pystr_of "5min") = rule_label ascii_db (pystr_of "5 MIN")).
Proof.
  assert (E1 : _symbol_normalise ascii_db (pystr_of "eur/usd") = Ok EURUSD)
    by (vm_compute; reflexivity).
  assert (E2 : _symbol_normalise ascii_db EURUSD = Ok EURUSD) by (vm_compute; reflexivity).
  split; [exact ascii_db_upper_no_underscore|]. split; [exact E1|]. split; [exact E2|].
  exact (csv_name_inj ascii_db _ _ _ _ (pystr_of "5min") (pystr_of "5 MIN")
           ascii_db_upper_no_underscore E1 E2).
Defined.

(* ================================================================== *)
(** * Proofs: completion order of the downloads *)

Section CanonProofs.
Context (lzma_decompress lzma_read20 : bytes -> res bytes)
        (price_divisor : option float) (width : positive) (price_side : string)
        (cache_enabled : bool) (cache_exists : Z -> bool) (refetch : Z -> option bytes).

Local Abbreviation process := (process_hour lzma_decompress lzma_read20 price_divisor width price_side
                 cache_enabled cache_exists refetch).
Local Abbreviation drain' := (drain lzma_decompress lzma_read20 price_divisor width price_side
                cache_enabled cache_exists refetch).
Local Abbreviation canon' := (canon lzma_decompress lzma_read20 price_divisor width price_side
                cache_enabled cache_exists refetch).
Local Abbreviation finv' := (finv lzma_decompress lzma_read20 price_divisor width price_side
                cache_enabled cache_exists refetch).

Lemma process_hour_data (st : DrainState) (h : Z) (comp : option bytes) :
  hour_data (outcome_state (process st h comp)) = hour_data st
  /\ next_to_process (outcome_state (process st h comp)) = next_to_process st.
Proof.
  destruct st; unfold process_hour, after_decode;
    repeat (simpl; case_match); simpl; auto.
Qed.

Lemma process_hour_core (st1 st2 : DrainState) (h : Z) (comp : option bytes) :
  drain_core st1 = drain_core st2 ->
  outcome_core (process st1 h comp) = outcome_core (process st2 h comp).
Proof.
  destruct st1, st2; unfold drain_core; simpl; intros E; injection E as -> -> -> -> ->.
  unfold process_hour, after_decode; repeat (simpl; case_match); simpl; auto.
Qed.

Lemma outcome_core_cases (o1 o2 : Outcome) :
  outcome_core o1 = outcome_core o2 ->
  (exists s1 s2, o1 = Continue s1 /\ o2 = Continue s2 /\ drain_core s1 = drain_core s2)
  \/ (exists s1 s2 e, o1 = Raised s1 e /\ o2 = Raised s2 e /\ drain_core s1 = drain_core s2).
Proof.
  destruct o1 as [s1|s1 e1], o2 as [s2|s2 e2]; simpl; intros E; try discriminate.
  - left. exists s1, s2. split; [reflexivity|split; [reflexivity|congruence]].
  - right. assert (e1 = e2) as -> by congruence.
    exists s1, s2, e2. split; [reflexivity|split; [reflexivity|congruence]].
Qed.

Lemma canon_core (hs : list Z) (A : gmap Z (option bytes)) :
  forall st1 st2, drain_core st1 = drain_core st2 ->
  outcome_core (canon' hs A st1) = outcome_core (canon' hs A st2).
Proof.
  induction hs as [|h hs IH]; intros st1 st2 E; simpl; [rewrite E; reflexivity|].
  destruct (A !! h) as [comp|]; [|simpl; rewrite E; reflexivity].
  assert (Ep : drain_core (pop_hour h st1) = drain_core (pop_hour h st2)).
  { revert E. destruct st1, st2; unfold drain_core; simpl.
    intros E; injection E as -> -> -> -> ->. reflexivity. }
  destruct (outcome_core_cases _ _ (process_hour_core _ _ h comp Ep))
    as [(s1 & s2 & -> & -> & Es)|(s1 & s2 & e & -> & -> & Es)].
  - apply IH. exact Es.
  - simpl. rewrite Es. reflexivity.
Qed.

Lemma canon_app (l1 l2 : list Z) (A : gmap Z (option bytes)) (st : DrainState) :
  Forall (fun h => is_Some (A !! h)) l1 ->
  canon' (l1 ++ l2) A st = match canon' l1 A st with
                          | Continue st' => canon' l2 A st'
                          | Raised st' e => Raised st' e
                          end.
Proof.
  revert st. induction l1 as [|h l1 IH]; intros st Hf; simpl; [reflexivity|].
  inversion Hf as [|? ? [comp Hc] Hf']; subst. rewrite Hc.
  destruct (process (pop_hour h st) h comp); [apply IH, Hf'|reflexivity].
Qed.

Lemma canon_ext (l : list Z) (A A' : gmap Z (option bytes)) (st : DrainState) :
  (forall x, In x l -> A !! x = A' !! x) -> canon' l A st = canon' l A' st.
Proof.
  revert st. induction l as [|h l IH]; intros st Hx; simpl; [reflexivity|].
  rewrite (Hx h (or_introl eq_refl)).
  destruct (A' !! h); [|reflexivity].
  destruct (process (pop_hour h st) h o); [|reflexivity].
  apply IH. intros x Hin. apply Hx. right. exact Hin.
Qed.

Lemma canon_raised_mono (l : list Z) (A A' : gmap Z (option bytes)) (st st' : DrainState) (e : PyErr) :
  A ⊆ A' -> canon' l A st = Raised st' e -> canon' l A' st = Raised st' e.
Proof.
  intros Hs. revert st. induction l as [|h l IH]; intros st; simpl; [discriminate|].
  destruct (A !! h) as [comp|] eqn:Eh; [|discriminate].
  rewrite (lookup_weaken _ _ _ _ Eh Hs).
  destruct (process (pop_hour h st) h comp); [apply IH|exact id].
Qed.

Lemma skipn_nth {A} (l : list A) (k : nat) (x : A) :
  nth_error l k = Some x -> skipn k l = x :: skipn (S k) l.
Proof.
  revert k. induction l as [|a l IH]; intros [|k] Hn; simpl in *; try discriminate.
  - injection Hn as ->. reflexivity.
  - apply IH. exact Hn.
Qed.

Lemma canon_stopped (hours : list Z) (A : gmap Z (option bytes)) (k : nat) (st : DrainState) :
  cstopped hours A k -> canon' (skipn k hours) A st = Continue st.
Proof.
  unfold cstopped. destruct (nth_error hours k) as [h|] eqn:En.
  - intros Hn. rewrite (skipn_nth _ _ _ En). simpl. rewrite Hn. reflexivity.
  - intros _. apply nth_error_None in En. rewrite skipn_all2 by exact En. reflexivity.
Qed.

Lemma drain_canon (hours : list Z) (A : gmap Z (option bytes)) :
  List.NoDup hours ->
  forall fuel st, (length hours - next_to_process st <= fuel)%nat -> dinv hours A st ->
  drain' hours fuel st = canon' (skipn (next_to_process st) hours) A st
  /\ (forall st', drain' hours fuel st = Continue st' ->
        dinv hours A st' /\ cstopped hours A (next_to_process st')).
Proof.
  intros Hnd. induction fuel as [|fuel IH]; intros st Hf Hi.
  - assert (Hk : (length hours <= next_to_process st)%nat) by lia.
    assert (En : nth_error hours (next_to_process st) = None) by (apply nth_error_None; exact Hk).
    simpl. rewrite skipn_all2 by exact Hk. split; [reflexivity|].
    intros st' E; injection E as <-. split; [exact Hi|]. unfold cstopped. rewrite En. exact I.
  - simpl. destruct (nth_error hours (next_to_process st)) as [h|] eqn:En.
    2:{ assert (Hk := proj1 (nth_error_None _ _) En). rewrite skipn_all2 by exact Hk.
        split; [reflexivity|]. intros st' E; injection E as <-. split; [exact Hi|].
        unfold cstopped. rewrite En. exact I. }
    rewrite (skipn_nth _ _ _ En). simpl.
    destruct Hi as (Hle & Hd & Hdom).
    assert (Hnin := nodup_nth_not_in_firstn _ _ _ Hnd En).
    assert (Hh : hour_data st !! h = A !! h).
    { rewrite Hd. destruct (in_dec _ _ _) as [Hin|]; [contradiction|reflexivity]. }
    rewrite Hh. destruct (A !! h) as [comp|] eqn:Ea.
    2:{ split; [reflexivity|]. intros st' E; injection E as <-.
        split; [split; [exact Hle|split; assumption]|]. unfold cstopped. rewrite En. exact Ea. }
    destruct (process_hour_data (pop_hour h st) h comp) as [Hpd Hpn].
        destruct (process (pop_hour h st) h comp) as [st'|st' e] eqn:Ep; simpl in Hpd, Hpn.
    + assert (Hlt : (next_to_process st < length hours)%nat)
        by (apply nth_error_Some; rewrite En; discriminate).
      assert (Hi' : dinv hours A st').
      { unfold dinv. rewrite Hpn, Hpd. simpl. rewrite (firstn_S_nth _ _ _ En).
        split; [lia|split].
        - intros x. destruct (decide (x = h)) as [->|Hne].
          + rewrite lookup_delete_eq. destruct (in_dec _ _ _) as [|Hn]; [reflexivity|].
            exfalso. apply Hn. apply in_or_app. right. left. reflexivity.
          + rewrite lookup_delete_ne by congruence. rewrite Hd.
            destruct (in_dec Z.eq_dec x (firstn (next_to_process st) hours)) as [Hi1|Hi1];
              destruct (in_dec Z.eq_dec x (firstn (next_to_process st) hours ++ [h])) as [Hi2|Hi2];
              try reflexivity.
            * exfalso. apply Hi2, in_or_app. left. exact Hi1.
            * apply in_app_or in Hi2 as [Hi2|[Hi2|[]]]; [contradiction|congruence].
        - apply Forall_app. split; [exact Hdom|]. constructor; [rewrite Ea; eexists; reflexivity|constructor]. }
      assert (Hf' : (length hours - next_to_process st' <= fuel)%nat) by (rewrite Hpn; simpl; lia).
      destruct (IH st' Hf' Hi') as [IH1 IH2]. rewrite Hpn in IH1. simpl in IH1.
      split; [exact IH1|exact IH2].
    + split; [reflexivity|]. intros st'' E; discriminate.
Qed.

Lemma finv_step (hours : list Z) (A : gmap Z (option bytes)) (o : Outcome) (h : Z) (c : option bytes) :
  List.NoDup hours -> A !! h = None -> finv' hours A o ->
  finv' hours (<[h := c]> A) (on_complete lzma_decompress lzma_read20 price_divisor width price_side
                               cache_enabled cache_exists refetch hours o (h, c)).
Proof.
  intros Hnd Hfresh [Hc Hm]. destruct o as [st|st e]; simpl.
  - destruct Hm as [(Hle & Hd & Hdom) Hstop].
    set (k := next_to_process st) in *.
    assert (Hnk : ~ In h (firstn k hours)).
    { intros Hin. rewrite List.Forall_forall in Hdom. destruct (Hdom h Hin) as [x Hx]. congruence. }
    set (A' := <[h:=c]> A).
    assert (Hagree : forall x, In x (firstn k hours) -> A !! x = A' !! x).
    { intros x Hx. unfold A'. rewrite lookup_insert_ne; [reflexivity|]. intros ->. contradiction. }
    set (st0 := store_result h c st).
    assert (Hi0 : dinv hours A' st0).
    { unfold dinv, st0, store_result; simpl. fold k. split; [exact Hle|split].
      - intros x. destruct (decide (x = h)) as [->|Hne].
        + rewrite lookup_insert_eq. unfold A'. rewrite lookup_insert_eq.
          destruct (in_dec _ _ _); [contradiction|reflexivity].
        + rewrite lookup_insert_ne by congruence. rewrite Hd. unfold A'.
          rewrite lookup_insert_ne by congruence. reflexivity.
      - eapply List.Forall_impl; [|exact Hdom]. intros x [y Hy]. unfold A'.
        destruct (decide (x = h)) as [->|Hne]; [rewrite lookup_insert_eq; eexists; reflexivity|].
        rewrite lookup_insert_ne by congruence. rewrite Hy. eexists; reflexivity. }
    assert (Hf0 : (length hours - next_to_process st0 <= length hours)%nat) by lia.
    destruct (drain_canon hours A' Hnd (length hours) st0 Hf0 Hi0) as [Hdr Hinv].
    split.
    + rewrite Hdr. simpl. fold k.
      (* the run with [A] stopped after the first [k] hours, at a state with the core of [st] *)
      assert (Hsplit : forall B, Forall (fun h => is_Some (B !! h)) (firstn k hours) ->
                canon' hours B drain_init = match canon' (firstn k hours) B drain_init with
                                           | Continue s => canon' (skipn k hours) B s
                                           | Raised s e => Raised s e end).
      { intros B HB. rewrite <- (firstn_skipn k hours) at 1. apply canon_app. exact HB. }
      rewrite (Hsplit A Hdom) in Hc.
      destruct (canon' (firstn k hours) A drain_init) as [s|s e] eqn:Ecf.
      * rewrite (canon_stopped _ _ _ _ Hstop) in Hc. simpl in Hc.
        assert (Hcs : drain_core st = drain_core s) by (simpl in Hc; congruence).
        assert (HdomA' : Forall (fun h => is_Some (A' !! h)) (firstn k hours)).
        { eapply List.Forall_impl; [|exact Hdom]. intros x [y Hy]. unfold A'.
          destruct (decide (x = h)) as [->|Hne]; [rewrite lookup_insert_eq; eexists; reflexivity|].
          rewrite lookup_insert_ne by congruence. rewrite Hy. eexists; reflexivity. }
        rewrite (Hsplit A' HdomA').
        rewrite <- (canon_ext _ _ _ drain_init Hagree), Ecf.
        apply canon_core. unfold st0, store_result, drain_core in *; simpl. exact Hcs.
      * simpl in Hc. discriminate.
    + destruct (drain' hours (length hours) st0) as [st'|st' e] eqn:Edr; [|exact I].
      apply Hinv. reflexivity.
  - split; [|exact I]. simpl in Hc.
    destruct (canon' hours A drain_init) as [s|s e'] eqn:Ec; simpl in Hc; [discriminate|].
    rewrite (canon_raised_mono hours A (<[h:=c]> A) drain_init s e' (insert_subseteq _ _ _ Hfresh) Ec).
    exact Hc.
Qed.

Lemma finv_fold (hours : list Z) (cs : list (Z * option bytes)) :
  List.NoDup hours -> List.NoDup (map fst cs) ->
  forall A o, (forall h, In h (map fst cs) -> A !! h = None) -> finv' hours A o ->
  finv' hours (list_to_map cs ∪ A)
       (fold_left (on_complete lzma_decompress lzma_read20 price_divisor width price_side
                     cache_enabled cache_exists refetch hours) cs o).
Proof.
  intros Hnd. induction cs as [|[h c] cs IH]; intros Hndc A o Hfresh Hi; simpl.
  - rewrite (left_id_L ∅ (∪)). exact Hi.
  - inversion Hndc as [|? ? Hh Hndc']; subst.
    assert (Hn : (list_to_map cs : gmap Z (option bytes)) !! h = None).
    { apply not_elem_of_list_to_map_1. intros Hin. apply Hh.
      apply list_elem_of_fmap in Hin as [[h' c'] [-> Hin]].
      apply list_elem_of_In in Hin. apply (in_map fst _ _ Hin). }
    replace (<[h:=c]> (list_to_map cs) ∪ A) with (list_to_map cs ∪ <[h:=c]> A).
    2:{ rewrite <- insert_union_l, insert_union_r by exact Hn. reflexivity. }
    apply IH; [exact Hndc'| |].
    + intros x Hx. rewrite lookup_insert_ne. 
      * apply Hfresh. right. exact Hx.
      * intros ->. contradiction.
    + apply finv_step; [exact Hnd| |exact Hi]. apply Hfresh. left. reflexivity.
Qed.

Lemma drain_run_canon (hours : list Z) (cs : list (Z * option bytes)) :
  List.NoDup hours -> List.NoDup (map fst cs) ->
  outcome_core (drain_run lzma_decompress lzma_read20 price_divisor width price_side
                  cache_enabled cache_exists refetch hours cs)
  = outcome_core (canon' hours (list_to_map cs) drain_init).
Proof.
  intros Hnd Hndc. unfold drain_run.
  assert (H0 : finv' hours ∅ (Continue drain_init)).
  { split.
    - destruct hours as [|h hs]; simpl; [reflexivity|]. rewrite lookup_empty. reflexivity.
    - split; [split; [simpl; lia|split]|].
      + intros x. simpl. rewrite lookup_empty. reflexivity.
      + simpl. constructor.
      + unfold cstopped. simpl. destruct hours; simpl; [exact I|]. apply lookup_empty. }
  destruct (finv_fold hours cs Hnd Hndc ∅ _ (fun h _ => lookup_empty h) H0) as [Hc _].
  rewrite (right_id_L ∅ (∪)) in Hc. exact Hc.
Qed.


Lemma fmap_fst_map (cs : list (Z * option bytes)) : cs.*1 = map fst cs.
Proof. induction cs as [|x cs IH]; simpl; [reflexivity|]. rewrite <- IH. reflexivity. Qed.

(** X12: whatever the order in which the downloads complete, the drain ends
    as the hours processed one after the other in the order of
    [hours_to_fetch], each with its download result, up to the first hour
    whose download has not completed or the first exception; so two
    completion orders of the same downloads give the same counters, format,
    frames, log and exception. *)
Theorem drain_run_sequential (hours : list Z) (cs : list (Z * option bytes)) :
  List.NoDup hours -> List.NoDup (map fst cs) ->
  outcome_core (drain_run lzma_decompress lzma_read20 price_divisor width price_side
                  cache_enabled cache_exists refetch hours cs)
  = outcome_core (canon' hours (list_to_map cs) drain_init)
  /\ (forall cs', Permutation cs cs' ->
        outcome_core (drain_run lzma_decompress lzma_read20 price_divisor width price_side
                        cache_enabled cache_exists refetch hours cs')
        = outcome_core (drain_run lzma_decompress lzma_read20 price_divisor width price_side
                          cache_enabled cache_exists refetch hours cs)).
Proof.
  intros Hnd Hndc. split; [apply drain_run_canon; assumption|].
  intros cs' Hp.
  assert (Hndc' : List.NoDup (map fst cs')) by exact (Permutation_NoDup (Permutation_map fst Hp) Hndc).
  rewrite (drain_run_canon hours cs' Hnd Hndc'), (drain_run_canon hours cs Hnd Hndc).
  rewrite (list_to_map_proper cs cs'); [reflexivity| |exact Hp].
  rewrite fmap_fst_map. apply NoDup_ListNoDup. exact Hndc.
Qed.

End CanonProofs.

Lemma iter_hours_loop_nodup (fuel : nat) :
  forall cur e l, iter_hours_loop fuel cur e = Ok l -> Forall (fun x => cur <= x) l /\ List.NoDup l.
Proof.
  induction fuel as [|fuel IH]; intros cur e l E; simpl in E.
  - injection E as <-. split; constructor.
  - destruct (cur <? e); [|injection E as <-; split; constructor].
    destruct (dt_add cur HOUR) as [nxt|err] eqn:Ed; simpl in E; [|discriminate].
    unfold dt_add in Ed. destruct (_ && _); [injection Ed as <-|discriminate].
    destruct (iter_hours_loop fuel (cur + HOUR) e) as [l'|err] eqn:El; simpl in E; [|discriminate].
    injection E as <-. destruct (IH _ _ _ El) as [Hf Hn].
    split.
    + constructor; [lia|]. eapply List.Forall_impl; [|exact Hf]. intros x Hx. unfold HOUR in Hx. lia.
    + constructor; [|exact Hn]. intros Hin. rewrite List.Forall_forall in Hf.
      specialize (Hf cur Hin). unfold HOUR in Hf. lia.
Qed.

Lemma iter_hours_nodup (s e : Z) (l : list Z) : _iter_hours s e = Ok l -> List.NoDup l.
Proof.
  unfold _iter_hours. intros E.
  destruct (if replace_to_hour s <? s then dt_add (replace_to_hour s) HOUR else Ok (replace_to_hour s))
    as [cur|err]; simpl in E; [|discriminate].
  exact (proj2 (iter_hours_loop_nodup (iter_hours_fuel cur e) cur e l E)).
Qed.

(** X13: the rows [export_range] returns, or the exception it raises, do not
    depend on the order in which the thread pool completes the downloads,
    provided each hour is downloaded once. *)
Theorem export_range_order_independent
    (lzma_decompress lzma_read20 : bytes -> res bytes)
    (price_divisor : option float) (width : positive) (price_side : string)
    (cache_enabled : bool) (cache_exists : Z -> bool) (refetch : Z -> option bytes)
    (db : UnicodeDB) (sort_index : list (Z * Bar float) -> list (Z * Bar float))
    (pool1 pool2 : list Z -> list (Z * option bytes))
    (symbol : pystr) (start_utc end_utc_inclusive : Z) :
  (forall hours, Permutation (pool1 hours) (pool2 hours)) ->
  (forall hours, List.NoDup hours -> List.NoDup (map fst (pool1 hours))) ->
  export_range lzma_decompress lzma_read20 price_divisor width price_side
    cache_enabled cache_exists refetch db sort_index pool1 symbol start_utc end_utc_inclusive
  = export_range lzma_decompress lzma_read20 price_divisor width price_side
      cache_enabled cache_exists refetch db sort_index pool2 symbol start_utc end_utc_inclusive.
Proof.
  intros Hp Hnd. unfold export_range.
  destruct (_symbol_normalise db symbol) as [sym|err]; simpl; [|reflexivity].
  destruct (dt_add end_utc_inclusive DAY) as [e1|err]; simpl; [|reflexivity].
  destruct (_iter_hours start_utc (replace_to_day e1)) as [hours|err] eqn:Eh; simpl; [|reflexivity].
  assert (Hh := iter_hours_nodup _ _ _ Eh).
  destruct (drain_run_sequential lzma_decompress lzma_read20 price_divisor width price_side
              cache_enabled cache_exists refetch hours (pool1 hours) Hh (Hnd hours Hh))
    as [_ Hperm].
  specialize (Hperm (pool2 hours) (Hp hours)).
  destruct (outcome_core_cases _ _ Hperm) as [(s1 & s2 & -> & -> & Es)|(s1 & s2 & e & -> & -> & Es)].
  - unfold drain_core in Es. assert (all_frames s1 = all_frames s2) as -> by congruence. reflexivity.
  - reflexivity.
Qed.

Lemma dukascopy_tick_url_inj_witness :
  0 <= 0 /\ 0 <= HOUR /\ 0 mod HOUR = 0 /\ HOUR mod HOUR = 0
  /\ (_dukascopy_tick_url "EURUSD" 0 = _dukascopy_tick_url "EURUSD" HOUR -> 0 = HOUR).
Proof.
  assert (H1 : 0 <= HOUR) by (unfold HOUR; lia).
  assert (H2 : 0 mod HOUR = 0) by reflexivity.
  assert (H3 : HOUR mod HOUR = 0) by (apply Z_mod_same_full).
  split; [lia|]. split; [exact H1|]. split; [exact H2|]. split; [exact H3|].
  apply (dukascopy_tick_url_inj "EURUSD" 0 HOUR); [lia|exact H1|exact H2|exact H3].
Defined.

Lemma main_exit_code_witness :
  Permutation [task0] [task0]
  /\ (forall t csv, In t [task0] -> (fun _ : ExportTask => Ok (Some csv0)) t = Ok (Some csv) ->
        path_name csv <> [] /\ ~ In slash (path_name csv))
  /\ exists fs' code,
    main_summary (fun _ => "{}") (run_parallel_exports (fun _ => Ok (Some csv0)) [task0]) [] = Ok (fs', code)
    /\ (code = 0 <-> Forall (fun t => exists csv, (fun _ : ExportTask => Ok (Some csv0)) t = Ok csv) [task0])
    /\ (code = 0 \/ code = 1)
    /\ (forall q, In q (map fst fs') <->
          In q (map fst ([] : list (PPath * string))) \/ exists t csv, In t [task0] /\ (fun _ : ExportTask => Ok (Some csv0)) t = Ok (Some csv)
                                         /\ q = sidecar_of csv).
Proof.
  assert (Hp : Permutation [task0] [task0]) by apply Permutation_refl.
  assert (Hok : forall t csv, In t [task0] -> (fun _ : ExportTask => Ok (Some csv0)) t = Ok (Some csv) ->
        path_name csv <> [] /\ ~ In slash (path_name csv)).
  { intros t csv _ E. cbv beta in E. injection E as <-. split; [discriminate|]. vm_compute. intros H.
    repeat (destruct H as [H|H]; [inversion H|]); exact H. }
  split; [exact Hp|]. split; [exact Hok|].
  exact (main_exit_code (fun _ => Ok (Some csv0)) (fun _ => "{}") [task0] [task0] [] Hp Hok).
Defined.

Lemma drain_run_sequential_witness :
  List.NoDup [0; HOUR] /\ List.NoDup (map fst [(HOUR, Some sample_payload); (0, None)])
  /\ outcome_core (drain_run toy_lzma toy_lzma_read20 None 60000000 "bid" true (fun _ => true)
                     (fun _ => None) [0; HOUR] [(HOUR, Some sample_payload); (0, None)])
     = outcome_core (canon toy_lzma toy_lzma_read20 None 60000000 "bid" true (fun _ => true)
                       (fun _ => None) [0; HOUR]
                       (list_to_map [(HOUR, Some sample_payload); (0, None)]) drain_init).
Proof.
  assert (Hnd : List.NoDup [0; HOUR]).
  { constructor; [|constructor; [intros []|constructor]].
    simpl. intros [H|[]]. discriminate. }
  assert (Hnd2 : List.NoDup (map fst [(HOUR, Some sample_payload); (0, None)])).
  { simpl. constructor; [|constructor; [intros []|constructor]].
    simpl. intros [H|[]]. discriminate. }
  split; [exact Hnd|]. split; [exact Hnd2|].
  exact (proj1 (drain_run_sequential toy_lzma toy_lzma_read20 None 60000000 "bid" true
                  (fun _ => true) (fun _ => None) [0; HOUR]
                  [(HOUR, Some sample_payload); (0, None)] Hnd Hnd2)).
Defined.

Lemma export_range_order_independent_witness :
  (forall hours, Permutation (pool_in_order dl_corrupt_second hours)
                             (rev (pool_in_order dl_corrupt_second hours)))
  /\ (forall hours, List.NoDup hours -> List.NoDup (map fst (pool_in_order dl_corrupt_second hours)))
  /\ export_range toy_lzma toy_lzma_read20 None 60000000 "bid" true (fun _ => true)
       (fun _ => None) ascii_db sort_rows (pool_in_order dl_corrupt_second) EURUSD 0 0
     = export_range toy_lzma toy_lzma_read20 None 60000000 "bid" true (fun _ => true)
         (fun _ => None) ascii_db sort_rows (fun hs => rev (pool_in_order dl_corrupt_second hs)) EURUSD 0 0.
Proof.
  assert (Hp : forall hours, Permutation (pool_in_order dl_corrupt_second hours)
                             (rev (pool_in_order dl_corrupt_second hours)))
    by (intros hours; apply Permutation_rev).
  assert (Hn : forall hours, List.NoDup hours ->
                List.NoDup (map fst (pool_in_order dl_corrupt_second hours))).
  { intros hours H. unfold pool_in_order. rewrite map_map. simpl. rewrite map_id. exact H. }
  split; [exact Hp|]. split; [exact Hn|].
  exact (export_range_order_independent toy_lzma toy_lzma_read20 None 60000000 "bid" true
           (fun _ => true) (fun _ => None) ascii_db sort_rows (pool_in_order dl_corrupt_second)
           (fun hs => rev (pool_in_order dl_corrupt_second hs)) EURUSD 0 0 Hp Hn).
Defined.
